(** * The TLObjects generator (tlobjects_generator.py)

    The generator turns parsed Type Language definitions into Python
    classes with an [on_send] and an [on_response] method, and into one
    registry file mapping constructor ids to classes.  This development
    embeds the generator, gives the emitted statements a semantics over
    an abstract reader/writer, and states the properties of the
    specification over them. *)

From stdpp Require Import gmap strings list fin_maps.
From Stdlib Require Import ZArith String Ascii HexadecimalString DecimalString HexadecimalN.
From Stdlib.Strings Require Import Byte.

Set Warnings "-register-all".

Local Open Scope Z_scope.

(** ** Data model: the parser's records, as the generator reads them *)

(** [parser.tl_parser] is not part of the sources; the generator reads
    exactly these attributes of an argument. *)
Module TLArg.

Record t := mk {
  name : string;
  type : string;
  is_vector : bool;
  is_flag : bool;
  flag_index : nat;
  flag_indicator : bool;
  generic_definition : bool;
  is_generic : bool
}.

(** [arg.is_vector = b], the one attribute the generator assigns. *)
Definition set_is_vector (b : bool) (a : t) : t :=
  mk (name a) (type a) b (is_flag a) (flag_index a) (flag_indicator a)
     (generic_definition a) (is_generic a).

End TLArg.

Module TLObject.

Record t := mk {
  namespace : option string;
  name : string;
  id : Z;
  args : list TLArg.t;
  is_function : bool
}.

End TLObject.

(** ** The emitted Python text, line by line *)

(** A name in the generated code: ['self.{}'] or a local variable. *)
Inductive pyname :=
  | SelfAttr (attr : string)
  | Local (var : string).

(** ['{}_item'.format(arg.name)] *)
Definition item_name (a : TLArg.t) : pyname := Local (TLArg.name a +:+ "_item").

(** ['{}_len'.format(name)] *)
Definition len_name (n : pyname) : pyname :=
  match n with
  | SelfAttr s => SelfAttr (s +:+ "_len")
  | Local s => Local (s +:+ "_len")
  end.

(** The reader/writer primitives the type dispatch selects. *)
Inductive prim := PInt | PLong | PInt128 | PInt256 | PDouble | PString | PBool | PBytes.

(** One constructor per format string of the generator. *)
Inductive line :=
  (* on_send *)
  | LWriteConstructorId (id : Z) (tlname : string)
  | LIfNotNone (n : pyname)
  | LWriteVectorId
  | LWriteLen (n : pyname)
  | LForIn (item : pyname) (n : pyname)
  | LFlagsComment
  | LFlagsZero
  | LFlagsOr (index : nat) (n : pyname)
  | LWriteFlags
  | LBlank
  | LWritePrim (p : prim) (n : pyname)
  | LWriteTrue
  | LWriteObject (n : pyname)
  (* on_response *)
  | LReadResult
  | LPass
  | LIfFlag (index : nat)
  | LReadVectorId
  | LInitList (n : pyname)
  | LReadLen (n : pyname)
  | LForRange (n : pyname)
  | LAppend (n : pyname) (item : pyname)
  | LReadFlags
  | LReadPrim (p : prim) (n : pyname)
  | LReadTrue (n : pyname)
  | LReadObject (n : pyname)
  (* __init__ and the method headers *)
  | LDefInit (params : list string)
  | LSuperInit
  | LResultNone
  | LAssignAttr (attr : string)
  | LDefOnSend
  | LDefOnResponse.

(** The calls the generator makes on its [SourceBuilder]. *)
Inductive call :=
  | Writeln (l : line)
  | EndBlock.

(** *** Rendering: the text each line stands for *)

Definition render_name (n : pyname) : string :=
  match n with
  | SelfAttr s => "self." +:+ s
  | Local s => s
  end.

(** Python's [hex] *)
Definition hex (z : Z) : string :=
  if z <? 0
  then "-0x" +:+ HexadecimalString.NilZero.string_of_uint (N.to_hex_uint (Z.to_N (- z)))
  else "0x" +:+ HexadecimalString.NilZero.string_of_uint (N.to_hex_uint (Z.to_N z)).

(** ['{}'.format(n)] for a flag index *)
Definition decimal (n : nat) : string :=
  DecimalString.NilZero.string_of_uint (Nat.to_uint n).

(** [sep.join(xs)] *)
Fixpoint join (sep : string) (xs : list string) : string :=
  match xs with
  | [] => ""
  | [x] => x
  | x :: xs' => x +:+ sep +:+ join sep xs'
  end.

Definition render_write_prim (p : prim) (n : string) : string :=
  match p with
  | PInt => "writer.write_int(" +:+ n +:+ ")"
  | PLong => "writer.write_long(" +:+ n +:+ ")"
  | PInt128 => "writer.write_large_int(" +:+ n +:+ ", bits=128)"
  | PInt256 => "writer.write_large_int(" +:+ n +:+ ", bits=256)"
  | PDouble => "writer.write_double(" +:+ n +:+ ")"
  | PString => "writer.tgwrite_string(" +:+ n +:+ ")"
  | PBool => "writer.tgwrite_bool(" +:+ n +:+ ")"
  | PBytes => "writer.write(" +:+ n +:+ ")"
  end.

Definition render_read_prim (p : prim) (n : string) : string :=
  match p with
  | PInt => n +:+ " = reader.read_int()"
  | PLong => n +:+ " = reader.read_long()"
  | PInt128 => n +:+ " = reader.read_large_int(bits=128)"
  | PInt256 => n +:+ " = reader.read_large_int(bits=256)"
  | PDouble => n +:+ " = reader.read_double()"
  | PString => n +:+ " = reader.tgread_string()"
  | PBool => n +:+ " = reader.tgread_bool()"
  | PBytes => n +:+ " = reader.read()"
  end.

Definition render_line (l : line) : string :=
  match l with
  | LWriteConstructorId id tlname =>
      "writer.write_int(" +:+ hex id +:+ ")  # " +:+ tlname +:+ "'s constructor ID"
  | LIfNotNone n => "if " +:+ render_name n +:+ " is not None:"
  | LWriteVectorId => "writer.write_int(0x1cb5c415)  # Vector's constructor ID"
  | LWriteLen n => "writer.write_int(len(" +:+ render_name n +:+ "))"
  | LForIn item n => "for " +:+ render_name item +:+ " in " +:+ render_name n +:+ ":"
  | LFlagsComment =>
      "# Calculate the flags. This equals to those flag arguments which are NOT None"
  | LFlagsZero => "flags = 0"
  | LFlagsOr i n =>
      "flags |= (1 << " +:+ decimal i +:+ ") if " +:+ render_name n +:+ " is not None else 0"
  | LWriteFlags => "writer.write_int(flags)"
  | LBlank => ""
  | LWritePrim p n => render_write_prim p (render_name n)
  | LWriteTrue => "writer.write_int(0x3fedd339)  # true"
  | LWriteObject n => render_name n +:+ ".write(writer)"
  | LReadResult => "self.result = reader.tgread_object()"
  | LPass => "pass"
  | LIfFlag i => "if (flags & (1 << " +:+ decimal i +:+ ")) != 0:"
  | LReadVectorId => "reader.read_int()  # Vector's constructor ID"
  | LInitList n => render_name n +:+ " = []  # Initialize an empty list"
  | LReadLen n => render_name (len_name n) +:+ " = reader.read_int()"
  | LForRange n => "for _ in range(" +:+ render_name (len_name n) +:+ "):"
  | LAppend n item => render_name n +:+ ".append(" +:+ render_name item +:+ ")"
  | LReadFlags => "flags = reader.read_int()"
  | LReadPrim p n => render_read_prim p (render_name n)
  | LReadTrue n => render_name n +:+ " = reader.read_int() == 0x3fedd339  # true"
  | LReadObject n => render_name n +:+ " = reader.tgread_object(reader)"
  | LDefInit [] => "def __init__(self):"
  | LDefInit params => "def __init__(self, " +:+ join ", " params +:+ "):"
  | LSuperInit => "super().__init__()"
  | LResultNone => "self.result = None"
  | LAssignAttr a => "self." +:+ a +:+ " = " +:+ a
  | LDefOnSend => "def on_send(self, writer):"
  | LDefOnResponse => "def on_response(self, reader):"
  end.

(** ** The generator's state: the builder and the argument objects *)

(** The arguments are Python objects shared between [arg] and [args];
    [write_onsend_code] assigns [arg.is_vector], so they live in a store
    and are passed by reference. *)
Abbreviation ref := nat (only parsing).

Record gen_state := GenState {
  builder : list call;
  store : list TLArg.t
}.

(** A generator computation; [None] is a dangling reference or exhausted
    recursion depth. *)
Definition Gen (A : Type) : Type := gen_state -> option (A * gen_state).

#[global] Instance Gen_ret : MRet Gen := fun A x s => Some (x, s).
#[global] Instance Gen_bind : MBind Gen := fun A B f m s =>
  match m s with
  | Some (x, s') => f x s'
  | None => None
  end.

(** [builder.writeln(...)] *)
Definition writeln (l : line) : Gen unit :=
  fun s => Some (tt, GenState (builder s ++ [Writeln l]) (store s)).

(** [builder.end_block()] *)
Definition end_block : Gen unit :=
  fun s => Some (tt, GenState (builder s ++ [EndBlock]) (store s)).

(** Reading the attributes of the object behind a reference. *)
Definition load (r : ref) : Gen TLArg.t :=
  fun s => match store s !! r with
           | Some a => Some (a, s)
           | None => None
           end.

(** [arg.is_vector = b] *)
Definition assign_is_vector (r : ref) (b : bool) : Gen unit :=
  fun s => match store s !! r with
           | Some a => Some (tt, GenState (builder s) (<[r := TLArg.set_is_vector b a]> (store s)))
           | None => None
           end.

Definition when (b : bool) (m : Gen unit) : Gen unit :=
  if b then m else mret tt.

(** [for x in xs: body] *)
Fixpoint for_each {A : Type} (xs : list A) (body : A -> Gen unit) : Gen unit :=
  match xs with
  | [] => mret tt
  | x :: xs' => body x ≫= fun _ => for_each xs' body
  end.

(** ** The generator *)

(** The name a step works on: ['self.{}'.format(arg.name)] unless the
    caller passed one. *)
Definition default_name (a : TLArg.t) (name : option pyname) : pyname :=
  match name with
  | None => SelfAttr (TLArg.name a)
  | Some n => n
  end.

(** [write_onsend_code(builder, arg, args, name=None)].  [depth] bounds
    the Python recursion. *)
Fixpoint write_onsend_code (depth : nat) (arg : ref) (args : list ref)
    (name : option pyname) : Gen unit :=
  match depth with
  | O => fun _ => None
  | S depth' =>
    a ← load arg;
    if TLArg.generic_definition a then mret tt else
    let name := default_name a name in
    when (TLArg.is_flag a) (writeln (LIfNotNone name));;
    (if TLArg.is_vector a then
       writeln LWriteVectorId;;
       writeln (LWriteLen name);;
       writeln (LForIn (item_name a) name);;
       assign_is_vector arg false;;
       write_onsend_code depth' arg args (Some (item_name a));;
       assign_is_vector arg true
     else if TLArg.flag_indicator a then
       writeln LFlagsComment;;
       writeln LFlagsZero;;
       for_each args (fun flag =>
         f ← load flag;
         when (TLArg.is_flag f)
              (writeln (LFlagsOr (TLArg.flag_index f) (SelfAttr (TLArg.name f)))));;
       writeln LWriteFlags;;
       writeln LBlank
     else if String.eqb "int" (TLArg.type a) then writeln (LWritePrim PInt name)
     else if String.eqb "long" (TLArg.type a) then writeln (LWritePrim PLong name)
     else if String.eqb "int128" (TLArg.type a) then writeln (LWritePrim PInt128 name)
     else if String.eqb "int256" (TLArg.type a) then writeln (LWritePrim PInt256 name)
     else if String.eqb "double" (TLArg.type a) then writeln (LWritePrim PDouble name)
     else if String.eqb "string" (TLArg.type a) then writeln (LWritePrim PString name)
     else if String.eqb "Bool" (TLArg.type a) then writeln (LWritePrim PBool name)
     else if String.eqb "true" (TLArg.type a) then writeln LWriteTrue
     else if String.eqb "bytes" (TLArg.type a) then writeln (LWritePrim PBytes name)
     else writeln (LWriteObject name));;
    a1 ← load arg;
    when (TLArg.is_vector a1) end_block;;
    a2 ← load arg;
    when (TLArg.is_flag a2) end_block
  end.

(** [write_onresponse_code(builder, arg, args, name=None)] *)
Fixpoint write_onresponse_code (depth : nat) (arg : ref) (args : list ref)
    (name : option pyname) : Gen unit :=
  match depth with
  | O => fun _ => None
  | S depth' =>
    a ← load arg;
    if TLArg.generic_definition a then mret tt else
    let name := default_name a name in
    when (TLArg.is_flag a) (writeln (LIfFlag (TLArg.flag_index a)));;
    (if TLArg.is_vector a then
       writeln LReadVectorId;;
       writeln (LInitList name);;
       writeln (LReadLen name);;
       writeln (LForRange name);;
       assign_is_vector arg false;;
       write_onresponse_code depth' arg args (Some (item_name a));;
       writeln (LAppend name (item_name a));;
       assign_is_vector arg true
     else if TLArg.flag_indicator a then
       writeln LReadFlags;;
       writeln LBlank
     else if String.eqb "int" (TLArg.type a) then writeln (LReadPrim PInt name)
     else if String.eqb "long" (TLArg.type a) then writeln (LReadPrim PLong name)
     else if String.eqb "int128" (TLArg.type a) then writeln (LReadPrim PInt128 name)
     else if String.eqb "int256" (TLArg.type a) then writeln (LReadPrim PInt256 name)
     else if String.eqb "double" (TLArg.type a) then writeln (LReadPrim PDouble name)
     else if String.eqb "string" (TLArg.type a) then writeln (LReadPrim PString name)
     else if String.eqb "Bool" (TLArg.type a) then writeln (LReadPrim PBool name)
     else if String.eqb "true" (TLArg.type a) then writeln (LReadTrue name)
     else if String.eqb "bytes" (TLArg.type a) then writeln (LReadPrim PBytes name)
     else writeln (LReadObject name));;
    a1 ← load arg;
    when (TLArg.is_vector a1) end_block;;
    a2 ← load arg;
    when (TLArg.is_flag a2) end_block
  end.

(** The depth the two functions need: one level for the argument and one
    for the element of a vector. *)
Definition code_depth : nat := 2.

(** Python's [sorted(xs, key=...)] for a boolean key: a stable sort,
    [False] before [True]. *)
Fixpoint insert_sorted {A : Type} (key : A -> bool) (x : A) (l : list A) : list A :=
  match l with
  | [] => [x]
  | y :: l' => if implb (key x) (key y) then x :: y :: l' else y :: insert_sorted key x l'
  end.

Definition sorted {A : Type} (key : A -> bool) (l : list A) : list A :=
  foldr (insert_sorted key) [] l.

(** [tlobject.args]: the references to the argument objects, which the
    store holds in declaration order. *)
Definition arg_refs (tlobject : TLObject.t) : list ref :=
  seq 0 (List.length (TLObject.args tlobject)).

(** Reading a list of argument objects for a comprehension. *)
Fixpoint load_all (rs : list ref) : Gen (list TLArg.t) :=
  match rs with
  | [] => mret []
  | r :: rs' => a ← load r; l ← load_all rs'; mret (a :: l)
  end.

(** The parameters of [__init__] (lines 47-54). *)
Definition init_params (args : list TLArg.t) : list string :=
  let args := sorted TLArg.is_flag
                (List.filter (fun arg => negb (TLArg.flag_indicator arg)) args) in
  map (fun arg => if TLArg.is_flag arg then TLArg.name arg +:+ "=None" else TLArg.name arg)
      (List.filter (fun arg => negb (TLArg.flag_indicator arg) && negb (TLArg.generic_definition arg))
                   args).

(** The arguments that become attributes (lines 65-66). *)
Definition init_attrs (args : list TLArg.t) : list TLArg.t :=
  List.filter (fun arg => negb (TLArg.flag_indicator arg) && negb (TLArg.generic_definition arg))
              args.

Definition nonempty {A : Type} (l : list A) : bool :=
  match l with [] => false | _ => true end.

(** The body of the loop of [generate_tlobjecs] from [__init__] on
    (lines 47-114), without the calls of lines 68-79, which write the
    docstring of the parameters between the header of [__init__] and
    [super().__init__()].  That docstring and the lines before
    [__init__] (import, class header and class docstring) hold text
    only: they open no block and assign nothing.  So [generate_class]
    gives the blocks and the statements of the class, not all of its
    lines. *)
Definition generate_class (tlobject : TLObject.t) : Gen unit :=
  let refs := arg_refs tlobject in
  all ← load_all refs;
  writeln (LDefInit (init_params all));;
  let args := init_attrs all in
  writeln LSuperInit;;
  when (TLObject.is_function tlobject) (writeln LResultNone);;
  when (nonempty args) (writeln LBlank);;
  for_each args (fun arg => writeln (LAssignAttr (TLArg.name arg)));;
  end_block;;
  writeln LDefOnSend;;
  writeln (LWriteConstructorId (TLObject.id tlobject) (TLObject.name tlobject));;
  for_each refs (fun arg => write_onsend_code code_depth arg refs None);;
  end_block;;
  writeln LDefOnResponse;;
  (if TLObject.is_function tlobject then writeln LReadResult
   else if nonempty refs
        then for_each refs (fun arg => write_onresponse_code code_depth arg refs None)
        else writeln LPass);;
  end_block.

(** Running the generator on one definition: the calls made on the
    builder and the argument objects afterwards. *)
Definition run_generate_class (tlobject : TLObject.t) : option (list call * list TLArg.t) :=
  match generate_class tlobject (GenState [] (TLObject.args tlobject)) with
  | Some (_, s) => Some (builder s, store s)
  | None => None
  end.

(** *** The registry file (lines 116-140) *)

(** The calls on the builder of [all_tlobjects.py]: the docstring, one
    import and one dictionary entry [hex(id): module.Class] per
    definition, and the two changes of [current_indent]. *)

Inductive registry_call :=
  | RDoc
  | RBlank
  | RImport (tlobject : TLObject.t)
  | RDictOpen
  | RIndent (delta : Z)
  | RDictEntry (id : Z) (tlobject : TLObject.t)
  | RDictClose.

Definition generate_registry (tlobjects : list TLObject.t) : list registry_call :=
  [RDoc; RBlank]
  ++ map RImport tlobjects
  ++ [RBlank; RDictOpen; RIndent 1]
  ++ map (fun tlobject => RDictEntry (TLObject.id tlobject) tlobject) tlobjects
  ++ [RIndent (-1); RDictClose].

(** [generate_tlobjecs]: every class, then the registry.  The parser
    ([TLParser.parse_file]) is not in the sources, so the parsed
    definitions are the argument; the directories and files the function
    creates are left out, and each file is the list of calls made on its
    builder.  Nothing in the function checks the definitions, and
    nothing in it can fail other than by the recursion bound of the
    model. *)
Definition generate_tlobjecs (tlobjects : list TLObject.t)
    : list (option (list call * list TLArg.t)) * list registry_call :=
  (map run_generate_class tlobjects, generate_registry tlobjects).

(** ** Names: the class, the file and the module of a definition *)

(** The three functions at the end of the file turn the name of a
    definition into the name of its class, of its file and of its
    module.  A string is a string of ASCII characters here, as a Type
    Language identifier is: on these [str.upper] and [str.lower] change
    the letters of [a-z] and [A-Z] and nothing else, and the classes of
    the patterns are ranges of character codes.  What Python does to
    other characters (['Ü'.lower()] is ['ü'], ['ß'.upper()] is ['SS'])
    is not modelled: a property that depends on the case of a character
    is stated for names that are [ascii_only]. *)
Definition in_range (lo hi c : ascii) : bool :=
  (nat_of_ascii lo <=? nat_of_ascii c)%nat && (nat_of_ascii c <=? nat_of_ascii hi)%nat.

(** The character classes [[a-z]], [[A-Z]] and [[0-9]] of the patterns. *)
Definition is_lower (c : ascii) : bool := in_range "a" "z" c.
Definition is_upper (c : ascii) : bool := in_range "A" "Z" c.
Definition is_digit (c : ascii) : bool := in_range "0" "9" c.

Definition upper_char (c : ascii) : ascii :=
  if is_lower c then ascii_of_nat (nat_of_ascii c - 32) else c.

Definition lower_char (c : ascii) : ascii :=
  if is_upper c then ascii_of_nat (nat_of_ascii c + 32) else c.

Fixpoint map_chars (f : ascii -> ascii) (s : string) : string :=
  match s with
  | EmptyString => EmptyString
  | String c s' => String (f c) (map_chars f s')
  end.

(** [s.upper()] and [s.lower()], of a string of ASCII characters *)
Definition upper (s : string) : string := map_chars upper_char s.
Definition lower (s : string) : string := map_chars lower_char s.

(** [s.replace(c, '')] for a single character [c] *)
Fixpoint remove_char (c : ascii) (s : string) : string :=
  match s with
  | EmptyString => EmptyString
  | String x s' => if Ascii.eqb x c then remove_char c s' else String x (remove_char c s')
  end.

(** [s[:n]] and [s[n:]] *)
Definition slice_to (n : nat) (s : string) : string := substring 0 n s.
Definition slice_from (n : nat) (s : string) : string :=
  substring n (String.length s - n) s.

(** [re.sub(r'_([a-z])', lambda m: m.group(1).upper(), s)]: from left to
    right, an underscore followed by a letter of [a-z] is replaced by
    that letter in upper case, and the search goes on behind the
    letter. *)
Fixpoint sub_underscore (s : string) : string :=
  match s with
  | EmptyString => EmptyString
  | String c s' =>
      match s' with
      | String d s'' =>
          if Ascii.eqb c "_" && is_lower d
          then String (upper_char d) (sub_underscore s'')
          else String c (sub_underscore s')
      | EmptyString => String c EmptyString
      end
  end.

(** [get_class_name(tlobject)] *)
Definition get_class_name (tlobject : TLObject.t) : string :=
  let result := sub_underscore (TLObject.name tlobject) in
  upper (slice_to 1 result) +:+ remove_char "_" (slice_from 1 result).

(** [re.sub('(.)([A-Z][a-z]+)', r'\1_\2', s)]: from left to right, a
    character other than a newline that is followed by a letter of
    [A-Z] and at least one letter of [a-z] gets an underscore behind it.
    A match takes every letter of [a-z] that follows (the [+] is greedy)
    and the search goes on behind them: [inside] holds while these
    letters are copied.  Lemmas [sub_word_match] and [sub_word_no_match]
    state the function as this search. *)
Fixpoint sub_word (inside : bool) (s : string) : string :=
  match s with
  | EmptyString => EmptyString
  | String c s' =>
      if inside && is_lower c then String c (sub_word true s')
      else
        match s' with
        | String u (String l s'') =>
            if negb (Ascii.eqb c "010") && is_upper u && is_lower l
            then String c (String "_" (String u (String l (sub_word true s''))))
            else String c (sub_word false s')
        | _ => String c (sub_word false s')
        end
  end.

(** [re.sub('([a-z0-9])([A-Z])', r'\1_\2', s)]: a letter of [a-z] or a
    digit directly followed by a letter of [A-Z] gets an underscore
    behind it, and the search goes on behind the two. *)
Fixpoint sub_hump (s : string) : string :=
  match s with
  | EmptyString => EmptyString
  | String c s' =>
      match s' with
      | String u s'' =>
          if (is_lower c || is_digit c) && is_upper u
          then String c (String "_" (String u (sub_hump s'')))
          else String c (sub_hump s')
      | EmptyString => String c EmptyString
      end
  end.

(** [get_file_name(tlobject, add_extension)] *)
Definition get_file_name (tlobject : TLObject.t) (add_extension : bool) : string :=
  let s1 := sub_word false (TLObject.name tlobject) in
  let result := lower (sub_hump s1) in
  if add_extension then result +:+ ".py" else result.

(** [get_full_file_name(tlobject)] *)
Definition get_full_file_name (tlobject : TLObject.t) : string :=
  let fullname := get_file_name tlobject false in
  let fullname := match TLObject.namespace tlobject with
                  | Some ns => ns +:+ "." +:+ fullname
                  | None => fullname
                  end in
  if TLObject.is_function tlobject
  then "tl.functions." +:+ fullname
  else "tl.types." +:+ fullname.

(** Whether every character of [s] satisfies [p], and whether [c] occurs
    in [s]. *)
Fixpoint all_chars (p : ascii -> bool) (s : string) : bool :=
  match s with
  | EmptyString => true
  | String c s' => p c && all_chars p s'
  end.

Definition has_char (c : ascii) (s : string) : bool :=
  negb (all_chars (fun x => negb (Ascii.eqb x c)) s).

(** The characters of ASCII, and the strings of them. *)
Definition is_ascii (c : ascii) : bool := (nat_of_ascii c <? 128)%nat.

Definition ascii_only (s : string) : bool := all_chars is_ascii s.

(** The definition [tlobject] under another name. *)
Definition rename (tlobject : TLObject.t) (name : string) : TLObject.t :=
  TLObject.mk (TLObject.namespace tlobject) name (TLObject.id tlobject)
              (TLObject.args tlobject) (TLObject.is_function tlobject).

(** ** The block structure of the emitted code *)

(** Modelled from the spec: [SourceBuilder] (parser/source_builder.py) is
    not in the sources.  As the generator uses it (and as the table of
    section 4.2 reads its output, "guard: only emit inner step if ..."),
    a line that ends in a colon opens a block that holds the lines after
    it, and [end_block] closes the innermost open block. *)
Inductive stmt :=
  | Simple (l : line)
  | Block (header : line) (body : list stmt).

(** The lines that end in a colon. *)
Definition opens_block (l : line) : bool :=
  match l with
  | LIfNotNone _ | LForIn _ _ | LIfFlag _ | LForRange _
  | LDefInit _ | LDefOnSend | LDefOnResponse => true
  | _ => false
  end.

(** Reading the calls back into blocks.  [cur] holds the statements of
    the innermost open block, last first; [stack] the enclosing open
    blocks with their headers. *)
Fixpoint parse_blocks (cs : list call) (cur : list stmt)
    (stack : list (line * list stmt)) : option (list stmt) :=
  match cs with
  | [] => match stack with
          | [] => Some (rev cur)
          | _ :: _ => None
          end
  | Writeln l :: cs' =>
      if opens_block l
      then parse_blocks cs' [] ((l, cur) :: stack)
      else parse_blocks cs' (Simple l :: cur) stack
  | EndBlock :: cs' =>
      match stack with
      | (h, prev) :: stack' => parse_blocks cs' (Block h (rev cur) :: prev) stack'
      | [] => None
      end
  end.

Definition program (cs : list call) : option (list stmt) := parse_blocks cs [] [].

(** The body of the method whose header is [h]. *)
Fixpoint method_body (h : line -> bool) (prog : list stmt) : option (list stmt) :=
  match prog with
  | [] => None
  | Block l body :: prog' => if h l then Some body else method_body h prog'
  | Simple _ :: prog' => method_body h prog'
  end.

Definition is_on_send (l : line) : bool :=
  match l with LDefOnSend => true | _ => false end.

Definition is_on_response (l : line) : bool :=
  match l with LDefOnResponse => true | _ => false end.

(** The generated class of a definition, as blocks. *)
Definition class_program (tlobject : TLObject.t) : option (list stmt) :=
  match run_generate_class tlobject with
  | Some (cs, _) => program cs
  | None => None
  end.

(** The generated write and read routines of a definition. *)
Definition on_send (tlobject : TLObject.t) : option (list stmt) :=
  class_program tlobject ≫= method_body is_on_send.

Definition on_response (tlobject : TLObject.t) : option (list stmt) :=
  class_program tlobject ≫= method_body is_on_response.

(** *** The calls of a block structure, and the steps in closed form *)

Fixpoint flatten_stmt (s : stmt) : list call :=
  match s with
  | Simple l => [Writeln l]
  | Block h body => Writeln h :: flat_map flatten_stmt body ++ [EndBlock]
  end.

Definition flatten (ss : list stmt) : list call := flat_map flatten_stmt ss.

(** Which branch of the type dispatch a type name takes. *)
Inductive kind :=
  | KPrim (p : prim)
  | KTrue
  | KObject.

Definition kind_of (ty : string) : kind :=
  if String.eqb "int" ty then KPrim PInt
  else if String.eqb "long" ty then KPrim PLong
  else if String.eqb "int128" ty then KPrim PInt128
  else if String.eqb "int256" ty then KPrim PInt256
  else if String.eqb "double" ty then KPrim PDouble
  else if String.eqb "string" ty then KPrim PString
  else if String.eqb "Bool" ty then KPrim PBool
  else if String.eqb "true" ty then KTrue
  else if String.eqb "bytes" ty then KPrim PBytes
  else KObject.

Definition send_elem (k : kind) (name : pyname) : line :=
  match k with
  | KPrim p => LWritePrim p name
  | KTrue => LWriteTrue
  | KObject => LWriteObject name
  end.

Definition resp_elem (k : kind) (name : pyname) : line :=
  match k with
  | KPrim p => LReadPrim p name
  | KTrue => LReadTrue name
  | KObject => LReadObject name
  end.

Definition flag_lines (all : list TLArg.t) : list stmt :=
  flat_map (fun f => if TLArg.is_flag f
                     then [Simple (LFlagsOr (TLArg.flag_index f) (SelfAttr (TLArg.name f)))]
                     else []) all.

Definition guarded (h : line) (b : bool) (body : list stmt) : list stmt :=
  if b then [Block h body] else body.

(** The step of an argument that is not a vector. *)
Definition send_core (a : TLArg.t) (all : list TLArg.t) (name : pyname) : list stmt :=
  if TLArg.flag_indicator a
  then [Simple LFlagsComment; Simple LFlagsZero] ++ flag_lines all
       ++ [Simple LWriteFlags; Simple LBlank]
  else [Simple (send_elem (kind_of (TLArg.type a)) name)].

Definition resp_core (a : TLArg.t) (name : pyname) : list stmt :=
  if TLArg.flag_indicator a
  then [Simple LReadFlags; Simple LBlank]
  else [Simple (resp_elem (kind_of (TLArg.type a)) name)].

(** What [write_onsend_code] emits for an argument, as blocks. *)
Definition send_stmts (a : TLArg.t) (all : list TLArg.t) (name : option pyname) : list stmt :=
  if TLArg.generic_definition a then [] else
  let name := default_name a name in
  guarded (LIfNotNone name) (TLArg.is_flag a)
    (if TLArg.is_vector a
     then [Simple LWriteVectorId; Simple (LWriteLen name);
           Block (LForIn (item_name a) name)
             (guarded (LIfNotNone (item_name a)) (TLArg.is_flag a)
                (send_core a all (item_name a)))]
     else send_core a all name).

(** What [write_onresponse_code] emits for an argument, as blocks. *)
Definition resp_stmts (a : TLArg.t) (name : option pyname) : list stmt :=
  if TLArg.generic_definition a then [] else
  let name := default_name a name in
  guarded (LIfFlag (TLArg.flag_index a)) (TLArg.is_flag a)
    (if TLArg.is_vector a
     then [Simple LReadVectorId; Simple (LInitList name); Simple (LReadLen name);
           Block (LForRange name)
             (guarded (LIfFlag (TLArg.flag_index a)) (TLArg.is_flag a)
                (resp_core a (item_name a))
              ++ [Simple (LAppend name (item_name a))])]
     else resp_core a name).

(** The three methods of a class, as blocks. *)
Definition init_block (d : TLObject.t) : stmt :=
  let args := init_attrs (TLObject.args d) in
  Block (LDefInit (init_params (TLObject.args d)))
    ([Simple LSuperInit]
     ++ (if TLObject.is_function d then [Simple LResultNone] else [])
     ++ (if nonempty args then [Simple LBlank] else [])
     ++ map (fun arg => Simple (LAssignAttr (TLArg.name arg))) args).

Definition on_send_body (d : TLObject.t) : list stmt :=
  Simple (LWriteConstructorId (TLObject.id d) (TLObject.name d))
  :: flat_map (fun a => send_stmts a (TLObject.args d) None) (TLObject.args d).

Definition on_response_body (d : TLObject.t) : list stmt :=
  if TLObject.is_function d then [Simple LReadResult]
  else if nonempty (TLObject.args d)
       then flat_map (fun a => resp_stmts a None) (TLObject.args d)
       else [Simple LPass].

Definition is_init (l : line) : bool :=
  match l with LDefInit _ => true | _ => false end.

(** *** Bodies that hold a statement *)

(** The lines that are statements of Python: all but the blank line and
    the comment. *)
Definition is_statement (l : line) : bool :=
  match l with
  | LBlank | LFlagsComment => false
  | _ => true
  end.

(** Whether a body holds a statement, as the body of a block must. *)
Definition has_statement (body : list stmt) : bool :=
  existsb (fun s => match s with
                    | Simple l => is_statement l
                    | Block _ _ => true
                    end) body.

(** Whether every block of a statement holds a statement. *)
Fixpoint blocks_filled (s : stmt) : bool :=
  match s with
  | Simple _ => true
  | Block _ body =>
      has_statement body
      && (fix go (ss : list stmt) : bool :=
            match ss with
            | [] => true
            | s' :: ss' => blocks_filled s' && go ss'
            end) body
  end.

(** *** Classes that Python accepts *)

(** A Python identifier of ASCII characters: a letter or an underscore,
    then letters, digits and underscores. *)
Definition ident_start (c : ascii) : bool := is_lower c || is_upper c || Ascii.eqb c "_".

Definition ident_char (c : ascii) : bool := ident_start c || is_digit c.

Definition is_identifier (s : string) : bool :=
  match s with
  | EmptyString => false
  | String c s' => ident_start c && all_chars ident_char s'
  end.

(** The keywords of Python 3, which cannot be used as names. *)
Definition keywords : list string :=
  ["False"; "None"; "True"; "and"; "as"; "assert"; "async"; "await"; "break"; "class";
   "continue"; "def"; "del"; "elif"; "else"; "except"; "finally"; "for"; "from"; "global";
   "if"; "import"; "in"; "is"; "lambda"; "nonlocal"; "not"; "or"; "pass"; "raise";
   "return"; "try"; "while"; "with"; "yield"]%string.

Definition is_name (s : string) : bool :=
  is_identifier s && negb (existsb (String.eqb s) keywords).

(** No two strings of the list are equal. *)
Fixpoint distinct (xs : list string) : bool :=
  match xs with
  | [] => true
  | x :: xs' => negb (existsb (String.eqb x) xs') && distinct xs'
  end.

(** Whether Python accepts the generated class of a definition: a [def]
    and every other block needs a statement as its body; the name of
    the class (line 39) and the parameters of [__init__], which are
    also the attributes the methods use, must be names; and no two
    parameters of [__init__] may be equal, [self] being the first.  A
    class that fails this cannot be imported, so it has no objects.
    (The docstrings hold text of the parser's making and are taken to
    be well-formed.) *)
Definition class_loads (tlobject : TLObject.t) : bool :=
  match class_program tlobject with
  | Some prog => forallb blocks_filled prog
  | None => false
  end
  && is_name (get_class_name tlobject)
  && forallb is_name (map TLArg.name (init_attrs (TLObject.args tlobject)))
  && distinct ("self"%string :: map TLArg.name (init_attrs (TLObject.args tlobject))).

(** The steps [write_onsend_code] and [write_onresponse_code] emit for
    the arguments of a definition, called on each argument in
    declaration order with the default name (as lines 99-100 and
    110-111 call them), read back as blocks. *)
Definition write_steps (tlobject : TLObject.t) : option (list stmt) :=
  match for_each (arg_refs tlobject)
          (fun arg => write_onsend_code code_depth arg (arg_refs tlobject) None)
          (GenState [] (TLObject.args tlobject)) with
  | Some (_, s) => program (builder s)
  | None => None
  end.

Definition read_steps (tlobject : TLObject.t) : option (list stmt) :=
  match for_each (arg_refs tlobject)
          (fun arg => write_onresponse_code code_depth arg (arg_refs tlobject) None)
          (GenState [] (TLObject.args tlobject)) with
  | Some (_, s) => program (builder s)
  | None => None
  end.

(** ** Running the generated code *)

(** The Python values the generated code handles.  A double is carried
    as its 64-bit pattern (no arithmetic is done on it); an object
    carries the definition its class was generated from and its
    attributes. *)
Inductive value :=
  | VNone
  | VInt (z : Z)
  | VBool (b : bool)
  | VDouble (bits : Z)
  | VStr (s : string)
  | VBytes (bs : list byte)
  | VList (l : list value)
  | VObject (cls : TLObject.t) (attrs : gmap string value).

Definition is_none (v : value) : bool :=
  match v with VNone => true | _ => false end.

(** The values the primitives carry: numbers, booleans, text. *)
Definition plain (v : value) : bool :=
  match v with
  | VInt _ | VBool _ | VDouble _ | VStr _ | VBytes _ => true
  | VNone | VList _ | VObject _ _ => false
  end.

(** A 32-bit pattern read as a signed integer. *)
Definition signed32 (z : Z) : Z := (z + 2 ^ 31) mod 2 ^ 32 - 2 ^ 31.

(** Modelled from the spec: the reader/writer primitives
    (utils/binary_reader.py, utils/binary_writer.py) are not in the
    sources; section 1 of the specification assumes them correct and
    section 6 lists them.  [write_prim p v] is the bytes the writer emits
    for [v] with the primitive [p] ([None]: the writer raises),
    [read_prim p] consumes one value, and [fits p v] says that [v] is a
    value this primitive encodes faithfully.  [PBytes] ([writer.write],
    [reader.read()]) is raw and has no law.  An integer is 32 bits wide
    and read back signed. *)
Class Wire := {
  write_prim : prim -> value -> option (list byte);
  read_prim : prim -> list byte -> option (value * list byte);
  fits : prim -> value -> Prop;
  wire_round_trip : forall p v, p <> PBytes -> fits p v ->
    exists bs, write_prim p v = Some bs /\
               forall rest, read_prim p (bs ++ rest) = Some (v, rest);
  fits_plain : forall p v, fits p v -> plain v = true;
  fits_int : forall z, - 2 ^ 31 <= z < 2 ^ 31 -> fits PInt (VInt z);
  wire_word : forall z, 0 <= z < 2 ^ 32 ->
    exists bs, write_prim PInt (VInt z) = Some bs /\ List.length bs = 4%nat /\
               forall rest, read_prim PInt (bs ++ rest) = Some (VInt (signed32 z), rest);
  read_int_width : forall s v rest, read_prim PInt s = Some (v, rest) ->
    exists w z, v = VInt z /\ s = w ++ rest /\ List.length w = 4%nat
}.

(** The state of a running [on_send] or [on_response]: the attributes of
    [self], the local variables, the bytes the writer holds and the
    bytes the reader has left. *)
Record pystate := PyState {
  self_attrs : gmap string value;
  locals : gmap string value;
  written : list byte;
  unread : list byte
}.

Definition get_name (n : pyname) (st : pystate) : option value :=
  match n with
  | SelfAttr a => self_attrs st !! a
  | Local x => locals st !! x
  end.

Definition set_name (n : pyname) (v : value) (st : pystate) : pystate :=
  match n with
  | SelfAttr a => PyState (<[a := v]> (self_attrs st)) (locals st) (written st) (unread st)
  | Local x => PyState (self_attrs st) (<[x := v]> (locals st)) (written st) (unread st)
  end.

Definition set_unread (rest : list byte) (st : pystate) : pystate :=
  PyState (self_attrs st) (locals st) (written st) rest.

(** The writer appends the bytes, or raises. *)
Definition emit (bs : option (list byte)) (st : pystate) : option pystate :=
  match bs with
  | Some b => Some (PyState (self_attrs st) (locals st) (written st ++ b) (unread st))
  | None => None
  end.

(** The reader consumes one value and hands it on, or raises. *)
Definition consume (r : list byte -> option (value * list byte))
    (k : value -> pystate -> option pystate) (st : pystate) : option pystate :=
  match r (unread st) with
  | Some (v, rest) => k v (set_unread rest st)
  | None => None
  end.

Definition flags_var : pyname := Local "flags".

(** [for x in xs: body] over the elements of a list *)
Fixpoint for_values (xs : list value) (body : value -> pystate -> option pystate)
    (st : pystate) : option pystate :=
  match xs with
  | [] => Some st
  | x :: xs' => match body x st with
                | Some st' => for_values xs' body st'
                | None => None
                end
  end.

(** [for _ in range(n): body] *)
Fixpoint repeat_body (n : nat) (body : pystate -> option pystate)
    (st : pystate) : option pystate :=
  match n with
  | O => Some st
  | S n' => match body st with
            | Some st' => repeat_body n' body st'
            | None => None
            end
  end.

Section Exec.

Context {W : Wire}.

(** Modelled from the spec: [value.write(writer)] and
    [reader.tgread_object] belong to the absent runtime; the code run by
    the statements below takes them as given. *)
Variable write_object : value -> option (list byte).
Variable tgread_object : list byte -> option (value * list byte).

(** One emitted line that is a statement of its own.  Where Python
    raises (an unbound name, a value of the wrong type, a reader out of
    bytes) the result is [None]; [len] and the loops are given to lists
    only.  [reader.tgread_object()] and [reader.tgread_object(reader)]
    are both the registry-dispatched read, and [super().__init__()],
    whose class is not in the sources, sets no attribute of interest. *)
Definition exec_line (l : line) (st : pystate) : option pystate :=
  match l with
  | LWriteConstructorId id _ => emit (write_prim PInt (VInt id)) st
  | LWriteVectorId => emit (write_prim PInt (VInt 0x1cb5c415)) st
  | LWriteLen n =>
      match get_name n st with
      | Some (VList l) => emit (write_prim PInt (VInt (Z.of_nat (List.length l)))) st
      | _ => None
      end
  | LFlagsComment | LBlank | LPass | LSuperInit => Some st
  | LFlagsZero => Some (set_name flags_var (VInt 0) st)
  | LFlagsOr i n =>
      match get_name n st, get_name flags_var st with
      | Some v, Some (VInt flags) =>
          Some (set_name flags_var
                  (VInt (Z.lor flags (if is_none v then 0 else Z.shiftl 1 (Z.of_nat i)))) st)
      | _, _ => None
      end
  | LWriteFlags =>
      match get_name flags_var st with
      | Some flags => emit (write_prim PInt flags) st
      | None => None
      end
  | LWritePrim p n =>
      match get_name n st with
      | Some v => emit (write_prim p v) st
      | None => None
      end
  | LWriteTrue => emit (write_prim PInt (VInt 0x3fedd339)) st
  | LWriteObject n =>
      match get_name n st with
      | Some v => emit (write_object v) st
      | None => None
      end
  | LReadResult =>
      consume tgread_object (fun v st' => Some (set_name (SelfAttr "result") v st')) st
  | LReadVectorId => consume (read_prim PInt) (fun _ st' => Some st') st
  | LInitList n => Some (set_name n (VList []) st)
  | LReadLen n =>
      consume (read_prim PInt) (fun v st' => Some (set_name (len_name n) v st')) st
  | LAppend n item =>
      match get_name n st, get_name item st with
      | Some (VList l), Some v => Some (set_name n (VList (l ++ [v])) st)
      | _, _ => None
      end
  | LReadFlags => consume (read_prim PInt) (fun v st' => Some (set_name flags_var v st')) st
  | LReadPrim p n => consume (read_prim p) (fun v st' => Some (set_name n v st')) st
  | LReadTrue n =>
      consume (read_prim PInt)
        (fun v st' => match v with
                      | VInt z => Some (set_name n (VBool (z =? 0x3fedd339)) st')
                      | _ => None
                      end) st
  | LReadObject n => consume tgread_object (fun v st' => Some (set_name n v st')) st
  | LResultNone => Some (set_name (SelfAttr "result") VNone st)
  | LAssignAttr a =>
      match get_name (Local a) st with
      | Some v => Some (set_name (SelfAttr a) v st)
      | None => None
      end
  | LIfNotNone _ | LForIn _ _ | LIfFlag _ | LForRange _
  | LDefInit _ | LDefOnSend | LDefOnResponse => None
  end.

(** A block under its header. *)
Definition exec_block (h : line) (body : pystate -> option pystate)
    (st : pystate) : option pystate :=
  match h with
  | LIfNotNone n =>
      match get_name n st with
      | Some v => if is_none v then Some st else body st
      | None => None
      end
  | LForIn item n =>
      match get_name n st with
      | Some (VList l) => for_values l (fun x st' => body (set_name item x st')) st
      | _ => None
      end
  | LIfFlag i =>
      match get_name flags_var st with
      | Some (VInt flags) =>
          if Z.land flags (Z.shiftl 1 (Z.of_nat i)) =? 0 then Some st else body st
      | _ => None
      end
  | LForRange n =>
      match get_name (len_name n) st with
      | Some (VInt k) => repeat_body (Z.to_nat k) body st
      | _ => None
      end
  | _ => None
  end.

Fixpoint exec_stmt (s : stmt) (st : pystate) {struct s} : option pystate :=
  match s with
  | Simple l => exec_line l st
  | Block h body =>
      exec_block h
        ((fix run (ss : list stmt) (st : pystate) {struct ss} : option pystate :=
            match ss with
            | [] => Some st
            | s' :: ss' => match exec_stmt s' st with
                           | Some st' => run ss' st'
                           | None => None
                           end
            end) body) st
  end.

(** The statements of a body, one after the other.  Running them is
    what a call does once the class exists; whether a body holds a
    statement at all, as Python demands of a [def], is [has_statement]
    and [class_loads], and the properties of whole objects assume it. *)
Fixpoint exec_stmts (ss : list stmt) (st : pystate) : option pystate :=
  match ss with
  | [] => Some st
  | s :: ss' => match exec_stmt s st with
                | Some st' => exec_stmts ss' st'
                | None => None
                end
  end.

End Exec.

(** ** Objects and the round trip through them *)

(** The arguments of [__init__], all [None]. *)
Definition init_locals (d : TLObject.t) : gmap string value :=
  foldr (fun a m => <[TLArg.name a := VNone]> m) ∅ (init_attrs (TLObject.args d)).

(** Two values agree on a field: element by element for a list. *)
Definition field_eq (R : value -> value -> Prop) (x x' : value) : Prop :=
  match x, x' with
  | VList l, VList l' => Forall2 R l l'
  | _, _ => R x x'
  end.

(** Two elements agree: nested objects through [R], anything else by
    equality. *)
Definition elem_rel (R : value -> value -> Prop) (v v' : value) : Prop :=
  match v with
  | VObject _ _ => R v v'
  | _ => v = v'
  end.

(** Two values are equal field for field: objects of the same class whose
    declared attributes agree, to the given depth of nesting. *)
Fixpoint same_fields (depth : nat) (v v' : value) : Prop :=
  match v with
  | VObject d f =>
      match depth with
      | O => False
      | S n => exists f', v' = VObject d f' /\
          forall a, a ∈ init_attrs (TLObject.args d) ->
            exists x x', f !! TLArg.name a = Some x /\ f' !! TLArg.name a = Some x' /\
                         field_eq (same_fields n) x x'
      end
  | _ => v = v'
  end.

(** *** Definitions the round trip holds for *)

Definition is_bytes (k : kind) : bool :=
  match k with KPrim PBytes => true | _ => false end.

(** Every flag-gated argument comes after a flag indicator. *)
Fixpoint indicator_first (seen : bool) (args : list TLArg.t) : bool :=
  match args with
  | [] => true
  | a :: args' =>
      (if TLArg.is_flag a then seen else true)
      && indicator_first (seen || TLArg.flag_indicator a) args'
  end.

(** An argument whose steps invert each other: a flag-gated one has an
    index below 32 and is no generic definition and no flag indicator;
    a flag indicator is no vector and no generic definition; any other
    argument is not of type [bytes]; and the name is not that of the
    length attribute [<name>_len] of a vector among the arguments. *)
Definition wf_arg (all : list TLArg.t) (a : TLArg.t) : bool :=
  (if TLArg.is_flag a
   then (TLArg.flag_index a <? 32)%nat && negb (TLArg.generic_definition a)
        && negb (TLArg.flag_indicator a)
   else true)
  && (if TLArg.flag_indicator a
      then negb (TLArg.is_vector a) && negb (TLArg.generic_definition a)
      else negb (is_bytes (kind_of (TLArg.type a))))
  && forallb (fun c => negb (TLArg.is_vector c
                             && String.eqb (TLArg.name a) (TLArg.name c +:+ "_len"))) all.

(** A definition whose flag indices fit the flags word, whose
    flag-gated arguments follow a flag indicator, that has no [bytes]
    argument and no argument named as the length attribute of a vector,
    and whose class is Python. *)
Definition wf_def (d : TLObject.t) : bool :=
  forallb (wf_arg (TLObject.args d)) (TLObject.args d)
  && indicator_first false (TLObject.args d)
  && class_loads d.

Section Admissible.

Context {W : Wire}.

(** The admissible values of nested objects. *)
Variable ok_object : value -> Prop.

Definition adm_elem (k : kind) (v : value) : Prop :=
  match k with
  | KPrim p => fits p v
  | KTrue => v = VBool true
  | KObject => ok_object v
  end.

(** The value of one argument: absent if flag-gated, or a value of its
    type, or a list of them. *)
Definition adm_arg (f : gmap string value) (a : TLArg.t) : Prop :=
  exists v, f !! TLArg.name a = Some v /\
    ((TLArg.is_flag a = true /\ v = VNone) \/
     if TLArg.is_vector a
     then exists l, v = VList l /\ Z.of_nat (List.length l) < 2 ^ 31 /\
                    Forall (adm_elem (kind_of (TLArg.type a))) l
     else adm_elem (kind_of (TLArg.type a)) v).

(** Arguments that share a flag bit are present or absent together. *)
Definition flags_consistent (all : list TLArg.t) (f : gmap string value) : Prop :=
  forall a b, a ∈ all -> b ∈ all ->
    TLArg.is_flag a = true -> TLArg.is_flag b = true ->
    TLArg.flag_index a = TLArg.flag_index b ->
    (f !! TLArg.name a = Some VNone <-> f !! TLArg.name b = Some VNone).

Definition adm_fields (d : TLObject.t) (f : gmap string value) : Prop :=
  Forall (adm_arg f) (init_attrs (TLObject.args d))
  /\ flags_consistent (TLObject.args d) f.

End Admissible.

Section Objects.

Context {W : Wire}.

(** The class the dictionary of the registry file holds under each
    constructor id, when the program that uses the generated code has
    imported it.  Which class an entry [hex(id): module.Class] denotes
    depends on the files as the generator left them (two definitions
    may be written to one file), so the dictionary is a parameter
    here. *)
Variable reg : gmap Z TLObject.t.

(** A new object of the class of [d]: [__init__] run with every
    parameter [None]. *)
Definition instantiate (d : TLObject.t) : option (gmap string value) :=
  prog ← class_program d;
  body ← method_body is_init prog;
  st ← exec_stmts (fun _ => None) (fun _ => None) body (PyState ∅ (init_locals d) [] []);
  Some (self_attrs st).

(** Modelled from the spec: the runtime that calls the generated methods
    is not in the sources.  Per section 4.2, writing a value of a custom
    type is that value's own write routine, and reading one is "read
    constructor id, look up type in the Registry, invoke that type's
    decode".  A class that is not Python has no objects.  [depth] bounds
    the nesting of objects. *)
Fixpoint object_codec (depth : nat)
    : (value -> option (list byte)) * (list byte -> option (value * list byte)) :=
  match depth with
  | O => (fun _ => None, fun _ => None)
  | S n =>
      let w := fst (object_codec n) in
      let r := snd (object_codec n) in
      (fun v =>
         match v with
         | VObject d attrs =>
             if class_loads d then
               body ← on_send d;
               st ← exec_stmts w r body (PyState attrs ∅ [] []);
               Some (written st)
             else None
         | _ => None
         end,
       fun s =>
         match read_prim PInt s with
         | Some (VInt z, rest) =>
             d ← reg !! (z mod 2 ^ 32);
             if class_loads d then
               attrs ← instantiate d;
               body ← on_response d;
               st ← exec_stmts w r body (PyState attrs ∅ [] rest);
               Some (VObject d (self_attrs st), unread st)
             else None
         | _ => None
         end)
  end.

Definition write_object (depth : nat) : value -> option (list byte) :=
  fst (object_codec depth).

Definition tgread_object (depth : nat) : list byte -> option (value * list byte) :=
  snd (object_codec depth).

(** The objects that pass through [write_object] and [tgread_object]
    unchanged, to a depth of nesting: objects of a definition that is
    not a function (the read routine of a function reads a response,
    not the function), whose 32-bit constructor id the registry holds
    it under. *)
Fixpoint admissible (depth : nat) (v : value) : Prop :=
  match depth with
  | O => False
  | S n =>
      match v with
      | VObject d f =>
          wf_def d = true /\ TLObject.is_function d = false
          /\ 0 <= TLObject.id d < 2 ^ 32 /\ reg !! TLObject.id d = Some d
          /\ adm_fields (admissible n) d f
      | _ => False
      end
  end.

End Objects.

(** ** A concrete reader and writer *)

(** Little-endian byte strings, for an instance of [Wire]. *)
Definition byte_of_Z (z : Z) : byte :=
  match Byte.of_N (Z.to_N z) with
  | Some b => b
  | None => x00
  end.

Definition Z_of_byte (b : byte) : Z := Z.of_N (Byte.to_N b).

Fixpoint le_bytes (n : nat) (z : Z) : list byte :=
  match n with
  | O => []
  | S n' => byte_of_Z (z mod 256) :: le_bytes n' (z / 256)
  end.

Fixpoint le_value (bs : list byte) : Z :=
  match bs with
  | [] => 0
  | b :: bs' => Z_of_byte b + 256 * le_value bs'
  end.

(** A pattern of [8 * n] bits read as a signed integer. *)
Definition signed (n : nat) (z : Z) : Z :=
  let half := 2 ^ (8 * Z.of_nat n - 1) in
  (z + half) mod (2 * half) - half.

(** [n] bytes off the front, if there are that many. *)
Definition split_bytes (n : nat) (s : list byte) : option (list byte * list byte) :=
  if (n <=? List.length s)%nat then Some (take n s, drop n s) else None.

Definition write_signed (n : nat) (lo hi : Z) (v : value) : option (list byte) :=
  match v with
  | VInt z => if (lo <=? z) && (z <? hi) then Some (le_bytes n z) else None
  | _ => None
  end.

Definition read_signed (n : nat) (s : list byte) : option (value * list byte) :=
  match split_bytes n s with
  | Some (w, rest) => Some (VInt (signed n (le_value w)), rest)
  | None => None
  end.

Definition bool_true_id : Z := 0x997275b5.
Definition bool_false_id : Z := 0xbc799737.

Definition byte_write_prim (p : prim) (v : value) : option (list byte) :=
  match p with
  | PInt => write_signed 4 (- 2 ^ 31) (2 ^ 32) v
  | PLong => write_signed 8 (- 2 ^ 63) (2 ^ 63) v
  | PInt128 => write_signed 16 (- 2 ^ 127) (2 ^ 127) v
  | PInt256 => write_signed 32 (- 2 ^ 255) (2 ^ 255) v
  | PDouble =>
      match v with
      | VDouble bits => if (0 <=? bits) && (bits <? 2 ^ 64) then Some (le_bytes 8 bits) else None
      | _ => None
      end
  | PString =>
      match v with
      | VStr s =>
          let bs := list_byte_of_string s in
          if Z.of_nat (List.length bs) <? 2 ^ 31
          then Some (le_bytes 4 (Z.of_nat (List.length bs)) ++ bs)
          else None
      | _ => None
      end
  | PBool =>
      match v with
      | VBool b => Some (le_bytes 4 (if b then bool_true_id else bool_false_id))
      | _ => None
      end
  | PBytes =>
      match v with
      | VBytes bs => Some bs
      | _ => None
      end
  end.

Definition byte_read_prim (p : prim) (s : list byte) : option (value * list byte) :=
  match p with
  | PInt => read_signed 4 s
  | PLong => read_signed 8 s
  | PInt128 => read_signed 16 s
  | PInt256 => read_signed 32 s
  | PDouble =>
      match split_bytes 8 s with
      | Some (w, rest) => Some (VDouble (le_value w), rest)
      | None => None
      end
  | PString =>
      match split_bytes 4 s with
      | Some (w, rest) =>
          match split_bytes (Z.to_nat (le_value w)) rest with
          | Some (bs, rest') => Some (VStr (string_of_list_byte bs), rest')
          | None => None
          end
      | None => None
      end
  | PBool =>
      match split_bytes 4 s with
      | Some (w, rest) =>
          if le_value w =? bool_true_id then Some (VBool true, rest)
          else if le_value w =? bool_false_id then Some (VBool false, rest)
          else None
      | None => None
      end
  | PBytes => Some (VBytes s, [])
  end.

Definition byte_fits (p : prim) (v : value) : Prop :=
  match p, v with
  | PInt, VInt z => - 2 ^ 31 <= z < 2 ^ 31
  | PLong, VInt z => - 2 ^ 63 <= z < 2 ^ 63
  | PInt128, VInt z => - 2 ^ 127 <= z < 2 ^ 127
  | PInt256, VInt z => - 2 ^ 255 <= z < 2 ^ 255
  | PDouble, VDouble bits => 0 <= bits < 2 ^ 64
  | PString, VStr s => Z.of_nat (List.length (list_byte_of_string s)) < 2 ^ 31
  | PBool, VBool _ => True
  | PBytes, VBytes _ => True
  | _, _ => False
  end.

(** ** Definitions the properties are stated with *)

(** The references [rs] hold the argument objects [xs] in the store. *)
Definition refs_hold (st : list TLArg.t) (rs : list ref) (xs : list TLArg.t) : Prop :=
  Forall2 (fun r x => st !! r = Some x) rs xs.

(** Whether the headers, and only the headers, are lines that open a block. *)
Fixpoint wf_stmt (s : stmt) : bool :=
  match s with
  | Simple l => negb (opens_block l)
  | Block h body => opens_block h && forallb wf_stmt body
  end.

(** The arguments that become attributes of the object. *)
Definition is_attr (a : TLArg.t) : bool :=
  negb (TLArg.flag_indicator a) && negb (TLArg.generic_definition a).

(** *** The flags word *)

(** [(1 << flag_index) if self.name is not None else 0] *)
Definition flag_bit (g : gmap string value) (a : TLArg.t) : Z :=
  match g !! TLArg.name a with
  | Some v => if is_none v then 0 else Z.shiftl 1 (Z.of_nat (TLArg.flag_index a))
  | None => 0
  end.

(** One line [flags |= ...], emitted for the flag-gated arguments only. *)
Definition flag_step (g : gmap string value) (z : Z) (a : TLArg.t) : Z :=
  if TLArg.is_flag a then Z.lor z (flag_bit g a) else z.

(** The value [flags] holds after the generated computation. *)
Definition flags_value (g : gmap string value) (all : list TLArg.t) : Z :=
  foldl (flag_step g) 0 all.

(** *** The steps of an element *)

Section ElementSteps.

Context {W : Wire}.
Variable wobj : value -> option (list byte).
Variable robj : list byte -> option (value * list byte).
Variable R : value -> value -> Prop.

(** The write step of an element of kind [k] holding [x] appends [b]. *)
Definition elem_bytes (k : kind) (x : value) (b : list byte) : Prop :=
  forall nm g L w u, get_name nm (PyState g L w u) = Some x ->
    exec_line wobj robj (send_elem k nm) (PyState g L w u) = Some (PyState g L (w ++ b) u).

(** The steps of an element of kind [k] are inverse at [x]: what the
    write step appends, the read step consumes, and it assigns a value
    equal to [x]. *)
Definition elem_ok (k : kind) (x : value) : Prop :=
  x <> VNone /\
  exists bs,
    elem_bytes k x bs
    /\ (forall nm g L w rest, exists v',
         exec_line wobj robj (resp_elem k nm) (PyState g L w (bs ++ rest))
         = Some (set_name nm v' (PyState g L w rest))
         /\ elem_rel R x v').

End ElementSteps.

(** What holds of the attributes while the read routine of an object
    with the fields [f] runs: those of the arguments in [pre] agree with
    [f]; the others are still [None] or agree already. *)
Definition read_so_far (R : value -> value -> Prop) (f : gmap string value)
    (all pre : list TLArg.t) (g : gmap string value) : Prop :=
  forall a, a ∈ all -> is_attr a = true ->
    exists x x', f !! TLArg.name a = Some x /\ g !! TLArg.name a = Some x'
      /\ (x' = VNone \/ field_eq (elem_rel R) x x')
      /\ (a ∈ pre -> field_eq (elem_rel R) x x').

(** *** The claims that fail, as the specification states them *)

(** The entries of the dictionary among the calls of the registry file. *)
Definition is_entry (c : registry_call) : bool :=
  match c with RDictEntry _ _ => true | _ => false end.

(** "No registry artifact is emitted." *)
Definition registry_rejected (tlobjects : list TLObject.t) : Prop :=
  snd (generate_tlobjecs tlobjects) = [].

(** What the write steps of [d] write for an object with the fields
    [f], and what the read steps of [d] make of a new object of [d]
    when the reader holds the bytes [s]: the attributes afterwards and
    the bytes left. *)
Definition run_write {W : Wire} (wobj : value -> option (list byte))
    (robj : list byte -> option (value * list byte))
    (d : TLObject.t) (f : gmap string value) : option (list byte) :=
  send ← write_steps d;
  st ← exec_stmts wobj robj send (PyState f ∅ [] []);
  Some (written st).

Definition run_read {W : Wire} (wobj : value -> option (list byte))
    (robj : list byte -> option (value * list byte))
    (d : TLObject.t) (s : list byte) : option (gmap string value * list byte) :=
  resp ← read_steps d;
  g ← instantiate d;
  st ← exec_stmts wobj robj resp (PyState g ∅ [] s);
  Some (self_attrs st, unread st).

(** [decode(write(value)) == value], field for field: the bytes of the
    write steps, whatever follows them in the stream, are read back by
    the read steps into the same fields (nested objects up to [R]). *)
Definition round_trips {W : Wire} (wobj : value -> option (list byte))
    (robj : list byte -> option (value * list byte)) (R : value -> value -> Prop)
    (d : TLObject.t) (f : gmap string value) : Prop :=
  exists bs,
    run_write wobj robj d f = Some bs
    /\ forall rest, exists g,
         run_read wobj robj d (bs ++ rest) = Some (g, rest)
         /\ forall a, a ∈ init_attrs (TLObject.args d) ->
              exists x x', f !! TLArg.name a = Some x /\ g !! TLArg.name a = Some x'
                           /\ field_eq (elem_rel R) x x'.

(** "The set of fields read back as present equals the set written as
    present": the bytes of the write steps are read back by the read
    steps, and the flag-gated arguments that are [None] afterwards are
    those that were [None] before. *)
Definition presence_preserved {W : Wire} (wobj : value -> option (list byte))
    (robj : list byte -> option (value * list byte))
    (d : TLObject.t) (f : gmap string value) : Prop :=
  exists bs,
    run_write wobj robj d f = Some bs
    /\ forall rest, exists g,
         run_read wobj robj d (bs ++ rest) = Some (g, rest)
         /\ forall a, a ∈ TLObject.args d -> TLArg.is_flag a = true ->
              (g !! TLArg.name a = Some VNone <-> f !! TLArg.name a = Some VNone).

(** A type name resolves: it is a primitive, or the name of a parsed
    definition. *)
Definition known_type (tlobjects : list TLObject.t) (ty : string) : bool :=
  match kind_of ty with
  | KObject => existsb (fun d => String.eqb (TLObject.name d) ty) tlobjects
  | _ => true
  end.

(** The generation-time errors of section 4.2: a flag index outside
    [0,31], a flag-gated argument before its flag indicator, a type name
    that does not resolve. *)
Definition generation_error (tlobjects : list TLObject.t) (d : TLObject.t) : bool :=
  existsb (fun a => TLArg.is_flag a && (31 <? TLArg.flag_index a)%nat) (TLObject.args d)
  || negb (indicator_first false (TLObject.args d))
  || existsb (fun a => is_attr a && negb (known_type tlobjects (TLArg.type a)))
       (TLObject.args d).

(** The lines that frame a vector: the marker and the loop header. *)
Definition is_vector_frame (c : call) : bool :=
  match c with
  | Writeln LWriteVectorId | Writeln LReadVectorId
  | Writeln (LForIn _ _) | Writeln (LForRange _) => true
  | _ => false
  end.

(** ** Names in camel case and in snake case *)

(** Whether [s] starts with a letter of [a-z], or of [A-Z]. *)
Definition starts_with_lower (s : string) : bool :=
  match s with
  | String c _ => is_lower c
  | EmptyString => false
  end.

Definition starts_with_upper (s : string) : bool :=
  match s with
  | String c _ => is_upper c
  | EmptyString => false
  end.

(** The strings of a list, one behind the other. *)
Fixpoint cat (xs : list string) : string :=
  match xs with
  | [] => EmptyString
  | x :: xs' => x +:+ cat xs'
  end.

(** A word of a name in camel case: an upper-case letter and at least
    one lower-case letter behind it. *)
Definition camel_word (w : ascii * string) : bool :=
  is_upper (fst w) && negb (String.eqb (snd w) "") && all_chars is_lower (snd w).

(** A name in camel case: a first word of lower-case letters and such
    words behind it. *)
Definition camel (first : string) (words : list (ascii * string)) : string :=
  first +:+ cat (map (fun w => String (fst w) (snd w)) words).

(** The same words in snake case. *)
Definition snake (first : string) (words : list (ascii * string)) : string :=
  first +:+ cat (map (fun w => String "_" (String (lower_char (fst w)) (snd w))) words).

(** The words of a name one behind the other, and what the two
    substitutions make of them: the first one puts an underscore in
    front of every second word, the second one in front of the others. *)
Definition run_of (words : list (ascii * string)) : string :=
  cat (map (fun w => String (fst w) (snd w)) words).

Fixpoint alternate (b : bool) (words : list (ascii * string)) : string :=
  match words with
  | [] => EmptyString
  | w :: rest =>
      (if b then "_" else "") +:+ String (fst w) (snd w) +:+ alternate (negb b) rest
  end.

Definition snake_upper (words : list (ascii * string)) : string :=
  cat (map (fun w => String "_" (String (fst w) (snd w))) words).

(** A word with its first letter in upper case. *)
Definition capitalise (s : string) : string :=
  match s with
  | EmptyString => EmptyString
  | String c s' => String (upper_char c) s'
  end.

(** A word of a name in snake case: lower-case letters, at least one. *)
Definition lower_word (w : string) : bool :=
  negb (String.eqb w "") && all_chars is_lower w.

(** A name in snake case: words of lower-case letters with an underscore
    between them. *)
Definition snake_name (first : string) (words : list string) : string :=
  first +:+ cat (map (fun w => String "_" w) words).

(** ** The files the generator writes *)

(** [s.startswith(c)] and [s.endswith(c)] for a single character *)
Definition starts_with (c : ascii) (s : string) : bool :=
  match s with
  | String x _ => Ascii.eqb x c
  | EmptyString => false
  end.

Fixpoint ends_with (c : ascii) (s : string) : bool :=
  match s with
  | EmptyString => false
  | String x EmptyString => Ascii.eqb x c
  | String _ s' => ends_with c s'
  end.

(** [os.path.join(path, b)] of [posixpath]: an absolute [b] replaces the
    path; otherwise [b] is appended, behind a slash unless the path is
    empty or ends in one. *)
Definition path_join (path b : string) : string :=
  if starts_with "/" b then b
  else if String.eqb path "" || ends_with "/" path then path +:+ b
  else path +:+ "/" +:+ b.

(** The directory of the class of a definition (lines 17-22). *)
Definition out_dir (tlobject : TLObject.t) : string :=
  let out_dir := path_join "tl" (if TLObject.is_function tlobject
                                 then "functions" else "types") in
  match TLObject.namespace tlobject with
  | Some namespace => path_join out_dir namespace
  | None => out_dir
  end.

(** The [__init__.py] the loop creates if it is missing (line 26), and
    the file the class is written to (line 32). *)
Definition init_py (tlobject : TLObject.t) : string :=
  path_join (out_dir tlobject) "__init__.py".

Definition class_filename (tlobject : TLObject.t) : string :=
  path_join (out_dir tlobject) (get_file_name tlobject true).

(** The file of the registry (line 117). *)
Definition registry_filename : string := path_join "tl" "all_tlobjects.py".

(** The class files when the loop of [generate_tlobjecs] has ended:
    [open(filename, 'w')] truncates, so a path holds the class of the
    definition that was written to it last.  The files are told apart
    by the text of their paths.  That is the file system only as long
    as no path holds a part [.] or [..], an empty part or a leading
    slash (which a name or a namespace with a dot or a slash can bring
    in): the properties of files are stated for definitions that are
    [plain_def]. *)
Definition class_files (tlobjects : list TLObject.t) : gmap string TLObject.t :=
  foldl (fun files tlobject => <[class_filename tlobject := tlobject]> files) ∅ tlobjects.

(** The text of the lines of the registry file; the two changes of
    [current_indent] write nothing. *)
Definition triple_quote : string := String "034" (String "034" (String "034" EmptyString)).

Definition render_registry_call (c : registry_call) : option string :=
  match c with
  | RDoc => Some (triple_quote
                  +:+ "File generated by TLObjects' generator. All changes will be ERASED"
                  +:+ triple_quote)
  | RBlank => Some ""
  | RImport tlobject => Some ("import " +:+ get_full_file_name tlobject)
  | RDictOpen => Some "tlobjects = {"
  | RIndent _ => None
  | RDictEntry id tlobject =>
      Some (hex id +:+ ": " +:+ get_full_file_name tlobject +:+ "."
            +:+ get_class_name tlobject +:+ ",")
  | RDictClose => Some "}"
  end.

Definition registry_text (tlobjects : list TLObject.t) : list string :=
  omap render_registry_call (generate_registry tlobjects).

(** The file an [import] of a dotted module name reads, from the
    directory the program runs in: the dots are the directory
    separators.  (A directory of the module's name that holds an
    [__init__.py] would be read in its place: see [shadowed].) *)
Definition module_file (module : string) : string :=
  map_chars (fun c => if Ascii.eqb c "." then "/"%char else c) module +:+ ".py".

(** A name that can be one part of a path and of a module name: no slash
    and no dot. *)
Definition part_char (c : ascii) : bool :=
  negb (Ascii.eqb c "/") && negb (Ascii.eqb c ".").

Definition plain_part (s : string) : bool := all_chars part_char s.

Definition plain_namespace (namespace : option string) : bool :=
  match namespace with
  | Some ns => negb (String.eqb ns "") && plain_part ns
  | None => true
  end.

(** A definition whose name and namespace are such parts, and a list of
    such definitions. *)
Definition plain_def (tlobject : TLObject.t) : bool :=
  plain_part (TLObject.name tlobject) && plain_namespace (TLObject.namespace tlobject).

Definition plain_schema (tlobjects : list TLObject.t) : bool := forallb plain_def tlobjects.

(** Whether the module of a definition without a namespace is hidden by
    a package: the directory of a namespace of the same kind
    ([functions] or [types]) has the name of the module, and [import]
    reads the [__init__.py] of that directory, not the module's file. *)
Definition shadowed (tlobjects : list TLObject.t) (tlobject : TLObject.t) : bool :=
  match TLObject.namespace tlobject with
  | Some _ => false
  | None =>
      existsb (fun other =>
                 Bool.eqb (TLObject.is_function other) (TLObject.is_function tlobject)
                 && match TLObject.namespace other with
                    | Some namespace => String.eqb namespace (get_file_name tlobject false)
                    | None => false
                    end)
              tlobjects
  end.

(** The parts of the path of the directory of a class. *)
Definition dir_parts (tlobject : TLObject.t) : list string :=
  ["tl"; if TLObject.is_function tlobject then "functions" else "types"]%string
  ++ match TLObject.namespace tlobject with
     | Some namespace => [namespace]
     | None => []
     end.

(** A part of a path that names an entry of its directory: not empty,
    without a slash, and neither [.] nor [..]. *)
Definition entry_part (part : string) : bool :=
  negb (String.eqb part "") && negb (has_char "/" part)
  && negb (String.eqb part ".") && negb (String.eqb part "..").

(** ** Shapes of the emitted code *)

(** Modelled from the spec: as for [parse_blocks], [SourceBuilder] is
    not in the sources; a line that ends in a colon opens a block and
    [end_block] closes one.  This is the nesting of the open blocks
    while the calls are made on the builder, from [depth] open blocks
    on; an [end_block] with no block open has no result, and [deepest]
    is the deepest nesting reached. *)
Fixpoint nesting (cs : list call) (depth deepest : nat) : option (nat * nat) :=
  match cs with
  | [] => Some (depth, deepest)
  | Writeln l :: cs' =>
      if opens_block l
      then nesting cs' (S depth) (Nat.max deepest (S depth))
      else nesting cs' depth deepest
  | EndBlock :: cs' =>
      match depth with
      | S depth' => nesting cs' depth' deepest
      | O => None
      end
  end.

(** How deep the blocks of a statement are nested. *)
Fixpoint height (s : stmt) : nat :=
  match s with
  | Simple _ => 0%nat
  | Block _ body =>
      S ((fix go (ss : list stmt) : nat :=
            match ss with
            | [] => 0%nat
            | s' :: ss' => Nat.max (height s') (go ss')
            end) body)
  end.

Definition heights (ss : list stmt) : nat := foldr (fun s n => Nat.max (height s) n) 0%nat ss.

(** The text of a parameter of [__init__] (lines 52-53). *)
Definition param_text (arg : TLArg.t) : string :=
  if TLArg.is_flag arg then TLArg.name arg +:+ "=None" else TLArg.name arg.

(** ** What a statement touches *)

(** The attribute of [self] behind a name, if it is one. *)
Definition name_attr (n : pyname) : list string :=
  match n with
  | SelfAttr a => [a]
  | Local _ => []
  end.

(** The attributes of [self] a line assigns (for a header: the loop
    variable), and whether it writes to the writer or reads from the
    reader. *)
Definition line_assigns (l : line) : list string :=
  match l with
  | LInitList n | LAppend n _ | LReadPrim _ n | LReadTrue n | LReadObject n => name_attr n
  | LReadLen n => name_attr (len_name n)
  | LReadResult | LResultNone => ["result"%string]
  | LAssignAttr a => [a]
  | LForIn item _ => name_attr item
  | _ => []
  end.

Definition line_writes (l : line) : bool :=
  match l with
  | LWriteConstructorId _ _ | LWriteVectorId | LWriteLen _ | LWriteFlags
  | LWritePrim _ _ | LWriteTrue | LWriteObject _ => true
  | _ => false
  end.

Definition line_reads (l : line) : bool :=
  match l with
  | LReadResult | LReadVectorId | LReadLen _ | LReadFlags
  | LReadPrim _ _ | LReadTrue _ | LReadObject _ => true
  | _ => false
  end.

Fixpoint assigns (s : stmt) : list string :=
  match s with
  | Simple l => line_assigns l
  | Block h body =>
      line_assigns h
      ++ (fix go (ss : list stmt) : list string :=
            match ss with
            | [] => []
            | s' :: ss' => assigns s' ++ go ss'
            end) body
  end.

Fixpoint writes (s : stmt) : bool :=
  match s with
  | Simple l => line_writes l
  | Block h body =>
      (fix go (ss : list stmt) : bool :=
         match ss with
         | [] => false
         | s' :: ss' => writes s' || go ss'
         end) body
  end.

Fixpoint reads (s : stmt) : bool :=
  match s with
  | Simple l => line_reads l
  | Block h body =>
      (fix go (ss : list stmt) : bool :=
         match ss with
         | [] => false
         | s' :: ss' => reads s' || go ss'
         end) body
  end.

(** What a run from [st] to [st'] has left alone: the attributes of
    [self] outside [attrs], the writer unless [wr], the reader unless
    [rd]; the writer is only ever appended to. *)
Definition frame (attrs : list string) (wr rd : bool) (st st' : pystate) : Prop :=
  (forall a, a ∉ attrs -> self_attrs st' !! a = self_attrs st !! a)
  /\ (wr = false -> written st' = written st)
  /\ (rd = false -> unread st' = unread st)
  /\ exists bs, written st' = written st ++ bs.

(** The attributes the read routine of a definition assigns: the result
    of a function; else the arguments it reads, and the length of each
    vector. *)
Definition response_attrs (tlobject : TLObject.t) : list string :=
  if TLObject.is_function tlobject then ["result"%string]
  else flat_map (fun arg =>
                   if TLArg.generic_definition arg then []
                   else if TLArg.is_vector arg
                        then [TLArg.name arg; TLArg.name arg +:+ "_len"]
                        else if TLArg.flag_indicator arg then []
                             else [TLArg.name arg])
                (TLObject.args tlobject).

(** The attributes of [self] a line reads (for a header: what its test
    or its loop reads). *)
Definition line_uses (l : line) : list string :=
  match l with
  | LIfNotNone n | LWriteLen n | LForIn _ n | LFlagsOr _ n
  | LWritePrim _ n | LWriteObject n => name_attr n
  | LAppend n item => name_attr n ++ name_attr item
  | LForRange n => name_attr (len_name n)
  | _ => []
  end.

Fixpoint uses (s : stmt) : list string :=
  match s with
  | Simple l => line_uses l
  | Block h body =>
      line_uses h
      ++ (fix go (ss : list stmt) : list string :=
            match ss with
            | [] => []
            | s' :: ss' => uses s' ++ go ss'
            end) body
  end.

(** Arguments whose attribute [__init__] assigns wherever the write
    routine reads it: a flag-gated argument is no generic definition and
    no flag indicator, and a flag indicator is no vector. *)
Definition attrs_declared (args : list TLArg.t) : bool :=
  forallb (fun a =>
             (if TLArg.is_flag a
              then negb (TLArg.generic_definition a) && negb (TLArg.flag_indicator a)
              else true)
             && (if TLArg.flag_indicator a then negb (TLArg.is_vector a) else true))
          args.

(** ** Example definitions and values *)

Definition flags_arg : TLArg.t := TLArg.mk "flags" "#" false false 0 true false false.
Definition n_arg : TLArg.t := TLArg.mk "n" "int" false true 0 false false false.

(** [example#1a2b3c4d flags:# n:flags.0?int = Example] *)
Definition example_def : TLObject.t :=
  TLObject.mk None "example" 0x1a2b3c4d [flags_arg; n_arg] false.

Definition items_arg : TLArg.t := TLArg.mk "items" "int" true false 0 false false false.

Definition inner_arg : TLArg.t := TLArg.mk "inner" "example" false true 1 false false false.

(** [holder#2 flags:# inner:flags.1?example items:Vector<int> = Holder] *)
Definition holder_def : TLObject.t :=
  TLObject.mk None "holder" 0x2 [flags_arg; inner_arg; items_arg] false.

(** A registry that holds the class of [example] under its id. *)
Definition example_registry : gmap Z TLObject.t := <[0x1a2b3c4d := example_def]> ∅.

Definition example_value : value := VObject example_def (<["n" := VInt 5]> ∅).

Definition holder_fields : gmap string value :=
  <["inner" := example_value]> (<["items" := VList [VInt 1; VInt 2; VInt 3]]> ∅).

Definition fn_arg : TLArg.t := TLArg.mk "x" "int" false false 0 false false false.

(** [f#1 x:int = X], in the functions section. *)
Definition fn_def : TLObject.t := TLObject.mk None "f" 0x1 [fn_arg] true.

Definition a_arg : TLArg.t := TLArg.mk "a" "int" false true 0 false false false.
Definition b_arg : TLArg.t := TLArg.mk "b" "int" false true 0 false false false.

(** [shared#3 flags:# a:flags.0?int b:flags.0?int = Shared] *)
Definition shared_def : TLObject.t :=
  TLObject.mk None "shared" 0x3 [flags_arg; a_arg; b_arg] false.

(** [a] is present and [b] is absent. *)
Definition shared_fields : gmap string value := <["a" := VInt 5]> (<["b" := VNone]> ∅).

(** Two definitions with one constructor id. *)
Definition dup_first : TLObject.t := TLObject.mk None "first" 0x1 [] false.
Definition dup_second : TLObject.t := TLObject.mk None "second" 0x1 [] false.

(** [bad#1 x:flags.40?Foo = Bad]: no flag indicator, flag index 40, and
    no definition named [Foo]. *)
Definition bad_arg : TLArg.t := TLArg.mk "x" "Foo" false true 40 false false false.
Definition bad_def : TLObject.t := TLObject.mk None "bad" 0x1 [bad_arg] false.

(** [silent:flags.5?true] *)
Definition silent_arg : TLArg.t := TLArg.mk "silent" "true" false true 5 false false false.

(** [empty#7 = Empty] *)
Definition empty_def : TLObject.t := TLObject.mk None "empty" 0x7 [] false.

Definition items_len_arg : TLArg.t :=
  TLArg.mk "items_len" "int" false false 0 false false false.

(** [clash#8 items_len:int items:Vector<int> = Clash]: the read step of
    [items] assigns [self.items_len]. *)
Definition clash_def : TLObject.t :=
  TLObject.mk None "clash" 0x8 [items_len_arg; items_arg] false.

Definition clash_fields : gmap string value :=
  <["items_len" := VInt 7]> (<["items" := VList [VInt 1; VInt 2]]> ∅).

(** [quiet#9 flags:# silent:flags.5?true = Quiet] *)
Definition quiet_def : TLObject.t :=
  TLObject.mk None "quiet" 0x9 [flags_arg; silent_arg] false.

Definition quiet_fields : gmap string value := <["silent" := VBool false]> ∅.

(** [gen#12 {X:Type} = Gen]: every argument is a generic definition. *)
Definition generic_arg : TLArg.t := TLArg.mk "X" "Type" false false 0 false true false.
Definition gen_def : TLObject.t := TLObject.mk None "gen" 0x12 [generic_arg] false.

(** [auth.sendCode#ff = X], a function in a namespace, and two names in
    the two spellings. *)
Definition send_code_def : TLObject.t := TLObject.mk (Some "auth") "sendCode" 0xff [] true.
Definition input_peer_def : TLObject.t := TLObject.mk None "input_peer" 0xa [] false.
Definition input_peer_empty_def : TLObject.t :=
  TLObject.mk None "inputPeerEmpty" 0xb [] false.

(** [tagged#c flags:# tags:flags.0?Vector<int> = Tagged], with an element
    that is [None]. *)
Definition tags_arg : TLArg.t := TLArg.mk "tags" "int" true true 0 false false false.
Definition tagged_def : TLObject.t :=
  TLObject.mk None "tagged" 0xc [flags_arg; tags_arg] false.
Definition tagged_fields : gmap string value := <["tags" := VList [VNone; VInt 5]]> ∅.

(** [ghost:flags.0?X], a flag-gated generic definition. *)
Definition ghost_arg : TLArg.t := TLArg.mk "ghost" "Type" false true 0 false true false.
Definition ghost_def : TLObject.t :=
  TLObject.mk None "ghost" 0xd [flags_arg; ghost_arg] false.

(** * Properties *)

(** ** The generator: what it emits and what it leaves behind *)

Lemma refs_hold_seq (pre l : list TLArg.t) :
  refs_hold (pre ++ l) (seq (List.length pre) (List.length l)) l.
Proof.
  revert pre. induction l as [|x l IH]; intros pre; simpl.
  - constructor.
  - constructor.
    + rewrite lookup_app_r by lia. now rewrite Nat.sub_diag.
    + specialize (IH (pre ++ [x])).
      rewrite <- app_assoc, length_app in IH. simpl in IH.
      now rewrite Nat.add_1_r in IH.
Qed.

Lemma refs_hold_args (l : list TLArg.t) :
  refs_hold l (seq 0 (List.length l)) l.
Proof. exact (refs_hold_seq [] l). Qed.

Lemma refs_hold_insert st rs xs i b a :
  st !! i = Some a -> refs_hold st rs xs ->
  exists xs', refs_hold (<[i := TLArg.set_is_vector b a]> st) rs xs'
              /\ flag_lines xs' = flag_lines xs.
Proof.
  intros Hi H. induction H as [|r x rs xs Hr H IH].
  - exists []. split; [constructor | reflexivity].
  - destruct IH as (xs' & IH1 & IH2).
    destruct (decide (i = r)) as [->|Hne].
    + exists (TLArg.set_is_vector b a :: xs'). split.
      * constructor; [|exact IH1].
        rewrite list_lookup_insert_eq; [reflexivity|].
        apply lookup_lt_Some in Hi. exact Hi.
      * simpl in Hr. assert (x = a) by congruence. subst x.
        unfold flag_lines in *. simpl. now rewrite IH2.
    + exists (x :: xs'). split.
      * simpl in Hr. constructor; [|exact IH1]. now rewrite list_lookup_insert_ne.
      * unfold flag_lines in *. simpl. now rewrite IH2.
Qed.

Lemma flag_loop_run args all s :
  refs_hold (store s) args all ->
  for_each args (fun flag =>
    f ← load flag;
    when (TLArg.is_flag f)
         (writeln (LFlagsOr (TLArg.flag_index f) (SelfAttr (TLArg.name f))))) s
  = Some (tt, GenState (builder s ++ flatten (flag_lines all)) (store s)).
Proof.
  intros H. revert s H. induction all as [|x all IH] in args |- *; intros s H.
  - inversion H; subst. simpl. unfold mret, Gen_ret. destruct s; simpl.
    now rewrite app_nil_r.
  - inversion H as [|r x' rs xs' Hr Hrest]; subst. simpl.
    unfold mbind at 1, Gen_bind at 1. unfold mbind at 1, Gen_bind at 1.
    unfold load at 1. rewrite Hr.
    unfold flag_lines, flatten. simpl.
    destruct (TLArg.is_flag x); simpl.
    + rewrite IH; simpl; [|exact Hrest].
      now rewrite <- app_assoc.
    + unfold mret, Gen_ret. rewrite IH; [reflexivity | exact Hrest].
Qed.

Lemma send_dispatch_run (ty : string) (name : pyname) (s : gen_state) :
  (if String.eqb "int" ty then writeln (LWritePrim PInt name)
   else if String.eqb "long" ty then writeln (LWritePrim PLong name)
   else if String.eqb "int128" ty then writeln (LWritePrim PInt128 name)
   else if String.eqb "int256" ty then writeln (LWritePrim PInt256 name)
   else if String.eqb "double" ty then writeln (LWritePrim PDouble name)
   else if String.eqb "string" ty then writeln (LWritePrim PString name)
   else if String.eqb "Bool" ty then writeln (LWritePrim PBool name)
   else if String.eqb "true" ty then writeln LWriteTrue
   else if String.eqb "bytes" ty then writeln (LWritePrim PBytes name)
   else writeln (LWriteObject name)) s
  = Some (tt, GenState (builder s ++ [Writeln (send_elem (kind_of ty) name)]) (store s)).
Proof.
  unfold kind_of.
  repeat (match goal with
          | |- context [String.eqb ?x ty] => destruct (String.eqb x ty)
          end; [reflexivity|]).
  reflexivity.
Qed.

Lemma resp_dispatch_run (ty : string) (name : pyname) (s : gen_state) :
  (if String.eqb "int" ty then writeln (LReadPrim PInt name)
   else if String.eqb "long" ty then writeln (LReadPrim PLong name)
   else if String.eqb "int128" ty then writeln (LReadPrim PInt128 name)
   else if String.eqb "int256" ty then writeln (LReadPrim PInt256 name)
   else if String.eqb "double" ty then writeln (LReadPrim PDouble name)
   else if String.eqb "string" ty then writeln (LReadPrim PString name)
   else if String.eqb "Bool" ty then writeln (LReadPrim PBool name)
   else if String.eqb "true" ty then writeln (LReadTrue name)
   else if String.eqb "bytes" ty then writeln (LReadPrim PBytes name)
   else writeln (LReadObject name)) s
  = Some (tt, GenState (builder s ++ [Writeln (resp_elem (kind_of ty) name)]) (store s)).
Proof.
  unfold kind_of.
  repeat (match goal with
          | |- context [String.eqb ?x ty] => destruct (String.eqb x ty)
          end; [reflexivity|]).
  reflexivity.
Qed.

Lemma bind_run {A B} (m : Gen A) (f : A -> Gen B) (s : gen_state) :
  (m ≫= f) s = match m s with Some (x, s') => f x s' | None => None end.
Proof. reflexivity. Qed.

Lemma load_run r b st a :
  st !! r = Some a -> load r (GenState b st) = Some (a, GenState b st).
Proof. intros H. unfold load. simpl. now rewrite H. Qed.

Lemma flag_loop_run' args all b st :
  refs_hold st args all ->
  for_each args (fun flag =>
    f ← load flag;
    when (TLArg.is_flag f)
         (writeln (LFlagsOr (TLArg.flag_index f) (SelfAttr (TLArg.name f)))))
    (GenState b st)
  = Some (tt, GenState (b ++ flatten (flag_lines all)) st).
Proof. intros H. now rewrite (flag_loop_run args all). Qed.

Lemma writeln_run l s :
  writeln l s = Some (tt, GenState (builder s ++ [Writeln l]) (store s)).
Proof. reflexivity. Qed.

Lemma end_block_run s :
  end_block s = Some (tt, GenState (builder s ++ [EndBlock]) (store s)).
Proof. reflexivity. Qed.

Lemma when_run (b : bool) (m : Gen unit) s :
  when b m s = if b then m s else Some (tt, s).
Proof. now destruct b. Qed.

Lemma mret_run {A} (x : A) (s : gen_state) : (mret x : Gen A) s = Some (x, s).
Proof. reflexivity. Qed.

Ltac gen_step :=
  first [ rewrite bind_run | rewrite writeln_run | rewrite end_block_run
        | rewrite when_run | rewrite mret_run ];
  cbn [builder store].

Ltac gen_run Ha Hall :=
  repeat first
    [ gen_step
    | rewrite (load_run _ _ _ _ Ha)
    | rewrite (flag_loop_run' _ _ _ _ Hall); cbn [builder store]
    | rewrite send_dispatch_run; cbn [builder store]
    | rewrite resp_dispatch_run; cbn [builder store] ].

Ltac list_eq :=
  unfold flatten; simpl; rewrite ?flat_map_app; simpl;
  repeat (rewrite <- app_assoc; simpl); rewrite ?app_nil_r; try reflexivity.

Lemma write_onsend_code_scalar depth arg args name s a all :
  store s !! arg = Some a ->
  TLArg.is_vector a = false ->
  (TLArg.flag_indicator a = true -> refs_hold (store s) args all) ->
  write_onsend_code (S depth) arg args name s
  = Some (tt, GenState (builder s ++ flatten (send_stmts a all name)) (store s)).
Proof.
  intros Ha Hv Hall. destruct s as [b st]. cbn [builder store] in *.
  unfold send_stmts, send_core. rewrite Hv.
  cbn [write_onsend_code].
  rewrite bind_run, (load_run _ _ _ a) by exact Ha.
  destruct (TLArg.generic_definition a).
  { rewrite mret_run. unfold flatten. simpl. now rewrite app_nil_r. }
  rewrite Hv.
  destruct (TLArg.is_flag a) eqn:Hf; destruct (TLArg.flag_indicator a) eqn:Hi;
    try specialize (Hall eq_refl);
    repeat (progress (gen_run Ha Hall; rewrite ?Hv, ?Hf));
    unfold guarded; f_equal; f_equal; f_equal; list_eq.
Qed.

Lemma write_onresponse_code_scalar depth arg args name s a :
  store s !! arg = Some a ->
  TLArg.is_vector a = false ->
  write_onresponse_code (S depth) arg args name s
  = Some (tt, GenState (builder s ++ flatten (resp_stmts a name)) (store s)).
Proof.
  intros Ha Hv. destruct s as [b st]. cbn [builder store] in *.
  unfold resp_stmts, resp_core. rewrite Hv.
  cbn [write_onresponse_code].
  rewrite bind_run, (load_run _ _ _ a) by exact Ha.
  destruct (TLArg.generic_definition a).
  { rewrite mret_run. unfold flatten. simpl. now rewrite app_nil_r. }
  rewrite Hv.
  destruct (TLArg.is_flag a) eqn:Hf; destruct (TLArg.flag_indicator a) eqn:Hi;
    repeat (progress (gen_run Ha Ha; rewrite ?Hv, ?Hf));
    unfold guarded; f_equal; f_equal; f_equal; list_eq.
Qed.
Lemma assign_is_vector_run r v b st a :
  st !! r = Some a ->
  assign_is_vector r v (GenState b st)
  = Some (tt, GenState b (<[r := TLArg.set_is_vector v a]> st)).
Proof. intros H. unfold assign_is_vector. simpl. now rewrite H. Qed.

Lemma set_is_vector_restore a :
  TLArg.is_vector a = true ->
  TLArg.set_is_vector true (TLArg.set_is_vector false a) = a.
Proof. destruct a; simpl; intros ->; reflexivity. Qed.

Lemma store_restore (st : list TLArg.t) arg a :
  st !! arg = Some a -> TLArg.is_vector a = true ->
  <[arg := TLArg.set_is_vector true (TLArg.set_is_vector false a)]>
    (<[arg := TLArg.set_is_vector false a]> st) = st.
Proof.
  intros Ha Hv. rewrite list_insert_insert_eq, set_is_vector_restore by exact Hv.
  now apply list_insert_id.
Qed.

Lemma send_stmts_element a all all' :
  TLArg.generic_definition a = false ->
  flag_lines all' = flag_lines all ->
  send_stmts (TLArg.set_is_vector false a) all' (Some (item_name a))
  = guarded (LIfNotNone (item_name a)) (TLArg.is_flag a) (send_core a all (item_name a)).
Proof.
  intros Hg Hfl. unfold send_stmts, send_core. destruct a; simpl in *.
  rewrite Hg, Hfl. reflexivity.
Qed.

Lemma resp_stmts_element a :
  TLArg.generic_definition a = false ->
  resp_stmts (TLArg.set_is_vector false a) (Some (item_name a))
  = guarded (LIfFlag (TLArg.flag_index a)) (TLArg.is_flag a) (resp_core a (item_name a)).
Proof.
  intros Hg. unfold resp_stmts, resp_core. destruct a; simpl in *.
  rewrite Hg. reflexivity.
Qed.

(** [write_onsend_code] emits the steps of the argument and leaves every
    argument object as it found it. *)
Lemma write_onsend_code_run depth arg args name b st a all :
  st !! arg = Some a ->
  (TLArg.flag_indicator a = true -> refs_hold st args all) ->
  write_onsend_code (S (S depth)) arg args name (GenState b st)
  = Some (tt, GenState (b ++ flatten (send_stmts a all name)) st).
Proof.
  intros Ha Hall.
  destruct (TLArg.is_vector a) eqn:Hv.
  2: { now apply (write_onsend_code_scalar (S depth) arg args name (GenState b st) a all). }
  assert (exists all',
            (TLArg.flag_indicator (TLArg.set_is_vector false a) = true ->
             refs_hold (<[arg := TLArg.set_is_vector false a]> st) args all')
            /\ flag_lines all' = flag_lines all) as (all' & Hall' & Hfl).
  { destruct (TLArg.flag_indicator a) eqn:Hi.
    - destruct (refs_hold_insert st args all arg false a Ha (Hall eq_refl))
        as (all' & H1 & H2).
      exists all'. split; [intros _; exact H1 | exact H2].
    - exists all. split; [|reflexivity]. destruct a; simpl in *. congruence. }
  assert (Ha' : <[arg := TLArg.set_is_vector false a]> st !! arg
                = Some (TLArg.set_is_vector false a)).
  { apply list_lookup_insert_eq. now apply lookup_lt_Some in Ha. }
  remember (S depth) as d eqn:Hd.
  cbn [write_onsend_code].
  rewrite bind_run, (load_run _ _ _ a) by exact Ha.
  unfold send_stmts.
  destruct (TLArg.generic_definition a) eqn:Hg.
  { rewrite mret_run. unfold flatten. simpl. now rewrite app_nil_r. }
  rewrite Hv.
  repeat gen_step.
  assert (Hrec : forall b',
    write_onsend_code d arg args (Some (item_name a))
      (GenState b' (<[arg := TLArg.set_is_vector false a]> st))
    = Some (tt, GenState (b' ++ flatten (guarded (LIfNotNone (item_name a)) (TLArg.is_flag a)
                                           (send_core a all (item_name a))))
                  (<[arg := TLArg.set_is_vector false a]> st))).
  { intros b'. subst d.
    rewrite (write_onsend_code_scalar depth arg args _ (GenState b' _) _ all' Ha'
               eq_refl Hall'). cbn [builder store].
    now rewrite (send_stmts_element a all all' Hg Hfl). }
  destruct (TLArg.is_flag a) eqn:Hf;
    repeat (progress (repeat first
      [ gen_step
      | rewrite (assign_is_vector_run _ _ _ _ _ Ha)
      | rewrite (assign_is_vector_run _ _ _ _ _ Ha')
      | rewrite Hrec; cbn [builder store]
      | rewrite (store_restore st arg a Ha Hv)
      | rewrite (load_run _ _ _ _ Ha) ]; rewrite ?Hv, ?Hf));
    unfold guarded; f_equal; f_equal; f_equal; list_eq.
Qed.

Lemma write_onresponse_code_run depth arg args name b st a :
  st !! arg = Some a ->
  write_onresponse_code (S (S depth)) arg args name (GenState b st)
  = Some (tt, GenState (b ++ flatten (resp_stmts a name)) st).
Proof.
  intros Ha.
  destruct (TLArg.is_vector a) eqn:Hv.
  2: { now apply (write_onresponse_code_scalar (S depth) arg args name (GenState b st) a). }
  assert (Ha' : <[arg := TLArg.set_is_vector false a]> st !! arg
                = Some (TLArg.set_is_vector false a)).
  { apply list_lookup_insert_eq. now apply lookup_lt_Some in Ha. }
  remember (S depth) as d eqn:Hd.
  cbn [write_onresponse_code].
  rewrite bind_run, (load_run _ _ _ a) by exact Ha.
  unfold resp_stmts.
  destruct (TLArg.generic_definition a) eqn:Hg.
  { rewrite mret_run. unfold flatten. simpl. now rewrite app_nil_r. }
  rewrite Hv.
  repeat gen_step.
  assert (Hrec : forall b',
    write_onresponse_code d arg args (Some (item_name a))
      (GenState b' (<[arg := TLArg.set_is_vector false a]> st))
    = Some (tt, GenState (b' ++ flatten (guarded (LIfFlag (TLArg.flag_index a)) (TLArg.is_flag a)
                                           (resp_core a (item_name a))))
                  (<[arg := TLArg.set_is_vector false a]> st))).
  { intros b'. subst d.
    rewrite (write_onresponse_code_scalar depth arg args _ (GenState b' _) _ Ha' eq_refl).
    cbn [builder store].
    now rewrite (resp_stmts_element a Hg). }
  destruct (TLArg.is_flag a) eqn:Hf;
    repeat (progress (repeat first
      [ gen_step
      | rewrite (assign_is_vector_run _ _ _ _ _ Ha)
      | rewrite (assign_is_vector_run _ _ _ _ _ Ha')
      | rewrite Hrec; cbn [builder store]
      | rewrite (store_restore st arg a Ha Hv)
      | rewrite (load_run _ _ _ _ Ha) ]; rewrite ?Hv, ?Hf));
    unfold guarded; f_equal; f_equal; f_equal; list_eq.
Qed.
Lemma load_all_run rs xs b st :
  refs_hold st rs xs -> load_all rs (GenState b st) = Some (xs, GenState b st).
Proof.
  intros H. induction H as [|r x rs xs Hr H IH]; simpl.
  - reflexivity.
  - rewrite bind_run, (load_run _ _ _ _ Hr), bind_run, IH. reflexivity.
Qed.

Lemma assign_loop_run (args : list TLArg.t) b st :
  for_each args (fun arg => writeln (LAssignAttr (TLArg.name arg))) (GenState b st)
  = Some (tt, GenState (b ++ map (fun arg => Writeln (LAssignAttr (TLArg.name arg))) args) st).
Proof.
  revert b. induction args as [|x args IH]; intros b; simpl.
  - rewrite mret_run, app_nil_r. reflexivity.
  - rewrite bind_run, writeln_run. cbn [builder store]. rewrite IH.
    now rewrite <- app_assoc.
Qed.

Lemma send_loop_run refs all rs xs b st :
  refs_hold st refs all -> refs_hold st rs xs ->
  for_each rs (fun arg => write_onsend_code code_depth arg refs None) (GenState b st)
  = Some (tt, GenState (b ++ flatten (flat_map (fun a => send_stmts a all None) xs)) st).
Proof.
  intros Hall H. revert b. induction H as [|r x rs xs Hr H IH]; intros b; cbn [for_each flat_map].
  - rewrite mret_run. unfold flatten. simpl. now rewrite app_nil_r.
  - rewrite bind_run. unfold code_depth at 1.
    rewrite (write_onsend_code_run 0 r refs None b st x all Hr (fun _ => Hall)), IH.
    unfold flatten. rewrite flat_map_app, app_assoc. reflexivity.
Qed.

Lemma resp_loop_run refs rs xs b st :
  refs_hold st rs xs ->
  for_each rs (fun arg => write_onresponse_code code_depth arg refs None) (GenState b st)
  = Some (tt, GenState (b ++ flatten (flat_map (fun a => resp_stmts a None) xs)) st).
Proof.
  intros H. revert b. induction H as [|r x rs xs Hr H IH]; intros b; cbn [for_each flat_map].
  - rewrite mret_run. unfold flatten. simpl. now rewrite app_nil_r.
  - rewrite bind_run. unfold code_depth at 1.
    rewrite (write_onresponse_code_run 0 r refs None b st x Hr), IH.
    unfold flatten. rewrite flat_map_app, app_assoc. reflexivity.
Qed.

Lemma nonempty_refs (d : TLObject.t) : nonempty (arg_refs d) = nonempty (TLObject.args d).
Proof. unfold arg_refs. now destruct (TLObject.args d). Qed.

Lemma flatten_map_simple {A} (f : A -> line) (l : list A) :
  flatten (map (fun x => Simple (f x)) l) = map (fun x => Writeln (f x)) l.
Proof.
  unfold flatten. induction l as [|x l IH]; simpl; [reflexivity|]. now rewrite IH.
Qed.

(** The generator is total: for every definition it emits the three
    methods, and it leaves the arguments as they were. *)
Lemma run_generate_class_eq (d : TLObject.t) :
  run_generate_class d
  = Some (flatten [init_block d;
                   Block LDefOnSend (on_send_body d);
                   Block LDefOnResponse (on_response_body d)],
          TLObject.args d).
Proof.
  unfold run_generate_class, generate_class.
  pose proof (refs_hold_args (TLObject.args d)) as Hall. fold (arg_refs d) in Hall.
  rewrite bind_run, (load_all_run _ _ _ _ Hall).
  repeat gen_step.
  unfold init_block, on_send_body, on_response_body.
  rewrite nonempty_refs.
  destruct (TLObject.is_function d); destruct (nonempty (init_attrs (TLObject.args d)));
    destruct (nonempty (TLObject.args d));
    repeat (progress (repeat first
      [ gen_step
      | rewrite assign_loop_run
      | rewrite (send_loop_run _ _ _ _ _ _ Hall Hall)
      | rewrite (resp_loop_run _ _ _ _ _ Hall) ]));
    f_equal; unfold flatten; simpl; rewrite ?flat_map_app; simpl;
    rewrite ?(flatten_map_simple (fun arg => LAssignAttr (TLArg.name arg)));
    fold (flatten (map (fun arg => Simple (LAssignAttr (TLArg.name arg)))
                       (init_attrs (TLObject.args d))));
    rewrite ?(flatten_map_simple (fun arg => LAssignAttr (TLArg.name arg)));
    repeat (rewrite <- app_assoc; simpl); rewrite ?app_nil_r; reflexivity.
Qed.
(** ** The block structure is recovered from the calls *)

(** Induction over statements, with the bodies of blocks. *)
Fixpoint stmt_induction (P : stmt -> Prop)
    (HS : forall l, P (Simple l))
    (HB : forall h body, Forall P body -> P (Block h body))
    (s : stmt) {struct s} : P s :=
  match s with
  | Simple l => HS l
  | Block h body =>
      HB h body
        ((fix go (ss : list stmt) : Forall P ss :=
            match ss with
            | [] => @List.Forall_nil _ P
            | s1 :: ss1 => @List.Forall_cons _ P s1 ss1 (stmt_induction P HS HB s1) (go ss1)
            end) body)
  end.

Lemma parse_flatten_stmts (ss : list stmt) :
  Forall (fun s => forall rest cur stack,
            parse_blocks (flatten_stmt s ++ rest) cur stack
            = parse_blocks rest (s :: cur) stack) ss ->
  forall rest cur stack,
    parse_blocks (flatten ss ++ rest) cur stack = parse_blocks rest (rev ss ++ cur) stack.
Proof.
  unfold flatten. induction 1 as [|s ss Hs _ IH]; intros rest cur stack; simpl.
  - reflexivity.
  - rewrite <- app_assoc, Hs, IH, <- app_assoc. reflexivity.
Qed.

Lemma parse_flatten_stmt (s : stmt) :
  wf_stmt s = true ->
  forall rest cur stack,
    parse_blocks (flatten_stmt s ++ rest) cur stack = parse_blocks rest (s :: cur) stack.
Proof.
  induction s as [l | h body IH] using stmt_induction; intros Hwf rest cur stack.
  - simpl in *. destruct (opens_block l); [discriminate | reflexivity].
  - simpl in Hwf. apply andb_prop in Hwf as [Hh Hb].
    cbn [flatten_stmt app parse_blocks]. rewrite Hh.
    fold (flatten body). rewrite <- app_assoc.
    rewrite parse_flatten_stmts.
    + simpl. rewrite app_nil_r, rev_involutive. reflexivity.
    + rewrite forallb_forall in Hb. rewrite Forall_forall in IH |- *.
      intros x Hx. apply IH; [exact Hx|]. apply Hb. now apply list_elem_of_In.
Qed.

Lemma program_flatten (ss : list stmt) :
  forallb wf_stmt ss = true -> program (flatten ss) = Some ss.
Proof.
  intros H. unfold program.
  rewrite <- (app_nil_r (flatten ss)), parse_flatten_stmts.
  - simpl. now rewrite app_nil_r, rev_involutive.
  - rewrite forallb_forall in H. rewrite Forall_forall. intros x Hx.
    apply parse_flatten_stmt. apply H. now apply list_elem_of_In.
Qed.
Lemma wf_send_elem k name : wf_stmt (Simple (send_elem k name)) = true.
Proof. destruct k; reflexivity. Qed.

Lemma wf_resp_elem k name : wf_stmt (Simple (resp_elem k name)) = true.
Proof. destruct k; reflexivity. Qed.

Lemma wf_flag_lines all : forallb wf_stmt (flag_lines all) = true.
Proof.
  unfold flag_lines. induction all as [|x all IH]; simpl; [reflexivity|].
  rewrite forallb_app, IH. now destruct (TLArg.is_flag x).
Qed.

Lemma wf_send_core a all name : forallb wf_stmt (send_core a all name) = true.
Proof.
  unfold send_core. destruct (TLArg.flag_indicator a).
  - simpl. rewrite forallb_app, wf_flag_lines. reflexivity.
  - cbn [forallb]. now rewrite wf_send_elem.
Qed.

Lemma wf_resp_core a name : forallb wf_stmt (resp_core a name) = true.
Proof.
  unfold resp_core. destruct (TLArg.flag_indicator a).
  - reflexivity.
  - cbn [forallb]. now rewrite wf_resp_elem.
Qed.

Lemma wf_send_stmts a all name : forallb wf_stmt (send_stmts a all name) = true.
Proof.
  unfold send_stmts, guarded.
  destruct (TLArg.generic_definition a); [reflexivity|].
  destruct (TLArg.is_flag a), (TLArg.is_vector a); simpl;
    rewrite ?wf_send_core; reflexivity.
Qed.

Lemma wf_resp_stmts a name : forallb wf_stmt (resp_stmts a name) = true.
Proof.
  unfold resp_stmts, guarded.
  destruct (TLArg.generic_definition a); [reflexivity|].
  destruct (TLArg.is_flag a), (TLArg.is_vector a); simpl;
    rewrite ?forallb_app, ?wf_resp_core; reflexivity.
Qed.

Lemma forallb_flat_map {A B} (p : B -> bool) (f : A -> list B) (l : list A) :
  (forall x, forallb p (f x) = true) -> forallb p (flat_map f l) = true.
Proof.
  intros H. induction l as [|x l IH]; simpl; [reflexivity|].
  now rewrite forallb_app, H, IH.
Qed.

Lemma wf_on_send_body d : forallb wf_stmt (on_send_body d) = true.
Proof.
  unfold on_send_body. simpl. apply forallb_flat_map. intros x. apply wf_send_stmts.
Qed.

Lemma wf_on_response_body d : forallb wf_stmt (on_response_body d) = true.
Proof.
  unfold on_response_body.
  destruct (TLObject.is_function d); [reflexivity|].
  destruct (nonempty (TLObject.args d)); [|reflexivity].
  apply forallb_flat_map. intros x. apply wf_resp_stmts.
Qed.

Lemma wf_init_block d : wf_stmt (init_block d) = true.
Proof.
  unfold init_block. simpl.
  destruct (TLObject.is_function d), (nonempty (init_attrs (TLObject.args d))); simpl;
    induction (init_attrs (TLObject.args d)); simpl; auto.
Qed.

(** The class of a definition, in closed form. *)
Lemma class_program_eq (d : TLObject.t) :
  class_program d
  = Some [init_block d; Block LDefOnSend (on_send_body d);
          Block LDefOnResponse (on_response_body d)].
Proof.
  unfold class_program. rewrite run_generate_class_eq.
  apply program_flatten.
  cbn [forallb]. rewrite wf_init_block. cbn [wf_stmt opens_block].
  now rewrite wf_on_send_body, wf_on_response_body.
Qed.

Lemma on_send_eq (d : TLObject.t) : on_send d = Some (on_send_body d).
Proof. unfold on_send. now rewrite class_program_eq. Qed.

Lemma on_response_eq (d : TLObject.t) : on_response d = Some (on_response_body d).
Proof. unfold on_response. now rewrite class_program_eq. Qed.

(** The steps of the arguments, in closed form. *)
Lemma write_steps_eq (d : TLObject.t) :
  write_steps d
  = Some (flat_map (fun a => send_stmts a (TLObject.args d) None) (TLObject.args d)).
Proof.
  unfold write_steps.
  rewrite (send_loop_run (arg_refs d) (TLObject.args d) (arg_refs d) (TLObject.args d) []
             (TLObject.args d)) by apply refs_hold_args.
  cbn [builder app]. apply program_flatten.
  apply forallb_flat_map. intros x. apply wf_send_stmts.
Qed.

Lemma read_steps_eq (d : TLObject.t) :
  read_steps d = Some (flat_map (fun a => resp_stmts a None) (TLObject.args d)).
Proof.
  unfold read_steps.
  rewrite (resp_loop_run (arg_refs d) (arg_refs d) (TLObject.args d) [] (TLObject.args d))
    by apply refs_hold_args.
  cbn [builder app]. apply program_flatten.
  apply forallb_flat_map. intros x. apply wf_resp_stmts.
Qed.
(** ** Running blocks *)

Section ExecLemmas.

Context {W : Wire}.
Variable wobj : value -> option (list byte).
Variable robj : list byte -> option (value * list byte).

Local Abbreviation run_line := (exec_line wobj robj).
Local Abbreviation run_stmt := (exec_stmt wobj robj).
Local Abbreviation run_stmts := (exec_stmts wobj robj).

Lemma for_values_ext xs (f g : value -> pystate -> option pystate) st :
  (forall x st', f x st' = g x st') -> for_values xs f st = for_values xs g st.
Proof.
  intros H. revert st. induction xs as [|x xs IH]; intros st; simpl; [reflexivity|].
  rewrite H. destruct (g x st); [apply IH | reflexivity].
Qed.

Lemma repeat_body_ext n (f g : pystate -> option pystate) st :
  (forall st', f st' = g st') -> repeat_body n f st = repeat_body n g st.
Proof.
  intros H. revert st. induction n as [|n IH]; intros st; simpl; [reflexivity|].
  rewrite H. destruct (g st); [apply IH | reflexivity].
Qed.

Lemma exec_block_ext h (f g : pystate -> option pystate) st :
  (forall st', f st' = g st') -> exec_block h f st = exec_block h g st.
Proof.
  intros H. destruct h; cbn [exec_block]; try reflexivity.
  - destruct (get_name n st) as [v|]; [|reflexivity].
    destruct (is_none v); [reflexivity | apply H].
  - destruct (get_name n st) as [[]|]; try reflexivity.
    apply for_values_ext. intros x st'. apply H.
  - destruct (get_name flags_var st) as [[]|]; try reflexivity.
    match goal with |- context [if ?c then _ else _] => destruct c end;
      [reflexivity | apply H].
  - destruct (get_name (len_name n) st) as [[]|]; try reflexivity.
    now apply repeat_body_ext.
Qed.

Lemma exec_stmt_block h body st :
  run_stmt (Block h body) st = exec_block h (run_stmts body) st.
Proof.
  cbn [exec_stmt]. apply exec_block_ext.
  induction body as [|s body IH]; intros st'; simpl; [reflexivity|].
  destruct (run_stmt s st'); [apply IH | reflexivity].
Qed.

Lemma exec_stmts_app ss1 ss2 st :
  run_stmts (ss1 ++ ss2) st
  = match run_stmts ss1 st with
    | Some st' => run_stmts ss2 st'
    | None => None
    end.
Proof.
  revert st. induction ss1 as [|s ss1 IH]; intros st; simpl; [reflexivity|].
  destruct (run_stmt s st); [apply IH | reflexivity].
Qed.

Lemma exec_stmts_cons s ss st :
  run_stmts (s :: ss) st
  = match run_stmt s st with
    | Some st' => run_stmts ss st'
    | None => None
    end.
Proof. reflexivity. Qed.

Lemma exec_stmts_single s st : run_stmts [s] st = run_stmt s st.
Proof. simpl. now destruct (run_stmt s st). Qed.

End ExecLemmas.
(** ** The round trip of one definition, given that of nested objects *)

Lemma signed32_small z : - 2 ^ 31 <= z < 2 ^ 31 -> signed32 z = z.
Proof.
  intros H. unfold signed32. rewrite Z.mod_small by lia. lia.
Qed.

Lemma signed32_mod z : signed32 z mod 2 ^ 32 = z mod 2 ^ 32.
Proof.
  unfold signed32. rewrite Zminus_mod_idemp_l.
  f_equal. lia.
Qed.

Lemma is_none_false v : v <> VNone -> is_none v = false.
Proof. destruct v; simpl; congruence. Qed.

Lemma plain_not_none v : plain v = true -> v <> VNone.
Proof. destruct v; simpl; congruence. Qed.

Lemma elem_rel_plain R v : plain v = true -> elem_rel R v v.
Proof. destruct v; simpl; congruence. Qed.


Lemma string_length_append (s1 s2 : string) :
  String.length (s1 +:+ s2) = (String.length s1 + String.length s2)%nat.
Proof. induction s1 as [|c s1 IH]; simpl; [reflexivity | now rewrite IH]. Qed.

Lemma item_not_flags (s : string) : s +:+ "_item" <> "flags".
Proof.
  intros H. assert (Hl := f_equal String.length H).
  rewrite string_length_append in Hl. simpl in Hl.
  destruct s; simpl in *; [discriminate | lia].
Qed.

Lemma len_name_neq (s : string) : s +:+ "_len" <> s.
Proof.
  intros H. assert (Hl := f_equal String.length H).
  rewrite string_length_append in Hl. simpl in Hl. lia.
Qed.

(** *** The flags word *)

Lemma lor_bound n a b :
  0 <= n -> 0 <= a < 2 ^ n -> 0 <= b < 2 ^ n -> 0 <= Z.lor a b < 2 ^ n.
Proof.
  intros Hn Ha Hb. split; [apply Z.lor_nonneg; lia|].
  destruct (Z.eq_dec a 0) as [->|Ha0]; [rewrite Z.lor_0_l; lia|].
  destruct (Z.eq_dec b 0) as [->|Hb0]; [rewrite Z.lor_0_r; lia|].
  assert (0 < Z.lor a b).
  { assert (0 <= Z.lor a b) by (apply Z.lor_nonneg; lia).
    assert (Z.lor a b <> 0) by (rewrite Z.lor_eq_0_iff; lia). lia. }
  apply Z.log2_lt_pow2; [lia|].
  rewrite Z.log2_lor by lia.
  apply Z.max_lub_lt; apply Z.log2_lt_pow2; lia.
Qed.

Lemma flag_bit_bound g a :
  (TLArg.flag_index a < 32)%nat -> 0 <= flag_bit g a < 2 ^ 32.
Proof.
  intros H. unfold flag_bit.
  destruct (g !! TLArg.name a) as [v|]; [|lia].
  destruct (is_none v); [lia|].
  rewrite Z.shiftl_1_l. split; [apply Z.pow_nonneg; lia|].
  apply Z.pow_lt_mono_r; lia.
Qed.

Lemma flags_fold_bound g xs z :
  Forall (fun a => TLArg.is_flag a = true -> (TLArg.flag_index a < 32)%nat) xs ->
  0 <= z < 2 ^ 32 -> 0 <= foldl (flag_step g) z xs < 2 ^ 32.
Proof.
  intros H. revert z. induction H as [|a xs Ha _ IH]; intros z Hz; simpl; [exact Hz|].
  apply IH. unfold flag_step. destruct (TLArg.is_flag a); [|exact Hz].
  apply lor_bound; [lia | exact Hz | apply flag_bit_bound; auto].
Qed.

Lemma flag_bit_testbit g a i :
  0 <= i ->
  Z.testbit (flag_bit g a) i
  = match g !! TLArg.name a with
    | Some v => negb (is_none v) && (Z.of_nat (TLArg.flag_index a) =? i)
    | None => false
    end.
Proof.
  intros Hi. unfold flag_bit. destruct (g !! TLArg.name a) as [v|].
  - destruct (is_none v); simpl.
    + apply Z.bits_0.
    + rewrite Z.shiftl_1_l. apply Z.pow2_bits_eqb. lia.
  - apply Z.bits_0.
Qed.

Lemma flags_fold_testbit g xs z i :
  0 <= i ->
  Z.testbit (foldl (flag_step g) z xs) i
  = Z.testbit z i
    || existsb (fun a => TLArg.is_flag a && Z.testbit (flag_bit g a) i) xs.
Proof.
  intros Hi. revert z. induction xs as [|a xs IH]; intros z; simpl.
  - now rewrite orb_false_r.
  - rewrite IH. unfold flag_step. destruct (TLArg.is_flag a); simpl.
    + rewrite Z.lor_spec. now rewrite orb_assoc.
    + reflexivity.
Qed.

Lemma land_pow2_eqb x i :
  0 <= i -> (Z.land x (Z.shiftl 1 i) =? 0) = negb (Z.testbit x i).
Proof.
  intros Hi. rewrite Z.shiftl_1_l.
  assert (H : Z.land x (2 ^ i) = if Z.testbit x i then 2 ^ i else 0).
  { apply Z.bits_inj'. intros n Hn. rewrite Z.land_spec, Z.pow2_bits_eqb by lia.
    destruct (Z.eqb_spec i n) as [->|Hne].
    - destruct (Z.testbit x n) eqn:E; simpl.
      + rewrite Z.pow2_bits_eqb by lia. now rewrite Z.eqb_refl.
      + now rewrite Z.bits_0.
    - rewrite andb_false_r. destruct (Z.testbit x i).
      + rewrite Z.pow2_bits_eqb by lia. symmetry. now apply Z.eqb_neq.
      + now rewrite Z.bits_0. }
  rewrite H. destruct (Z.testbit x i); simpl.
  - apply Z.eqb_neq. assert (0 < 2 ^ i) by (apply Z.pow_pos_nonneg; lia). lia.
  - reflexivity.
Qed.

Lemma signed32_testbit z i : 0 <= i < 32 -> Z.testbit (signed32 z) i = Z.testbit z i.
Proof.
  intros Hi.
  rewrite <- (Z.mod_pow2_bits_low (signed32 z) 32 i) by lia.
  rewrite signed32_mod. apply Z.mod_pow2_bits_low. lia.
Qed.
Section RoundTrip.

Context {W : Wire}.
Variable wobj : value -> option (list byte).
Variable robj : list byte -> option (value * list byte).
Variable ok_object : value -> Prop.
Variable R : value -> value -> Prop.

Hypothesis ok_object_shape : forall v, ok_object v -> exists d f, v = VObject d f.
Hypothesis nested_round_trip : forall v, ok_object v ->
  exists bs, wobj v = Some bs /\
    forall rest, exists v', robj (bs ++ rest) = Some (v', rest) /\ R v v'.

Local Abbreviation run_line := (exec_line wobj robj).
Local Abbreviation run_stmt := (exec_stmt wobj robj).
Local Abbreviation run_stmts := (exec_stmts wobj robj).

(** One element: the bytes the write step emits are read back by the
    read step as an equal value. *)
Lemma elem_round_trip k v :
  is_bytes k = false -> adm_elem ok_object k v ->
  v <> VNone /\
  exists bs,
    elem_bytes wobj robj k v bs
    /\ (forall nm g L w rest, exists v',
         run_line (resp_elem k nm) (PyState g L w (bs ++ rest))
         = Some (set_name nm v' (PyState g L w rest))
         /\ elem_rel R v v').
Proof.
  intros Hb Hadm. destruct k as [p| |]; simpl in Hadm.
  - assert (Hp : p <> PBytes) by (destruct p; simpl in Hb; congruence).
    destruct (wire_round_trip p v Hp Hadm) as (bs & Hw & Hr).
    pose proof (fits_plain p v Hadm) as Hpl.
    split; [now apply plain_not_none|].
    exists bs. split.
    + intros nm g L w u Hget. cbn [send_elem exec_line].
      rewrite Hget, Hw. reflexivity.
    + intros nm g L w rest. exists v. split; [|now apply elem_rel_plain].
      cbn [resp_elem exec_line]. unfold consume. cbn [unread].
      rewrite Hr. reflexivity.
  - subst v. split; [discriminate|].
    destruct (wire_word 0x3fedd339 ltac:(lia)) as (bs & Hw & _ & Hr).
    exists bs. split.
    + intros nm g L w u _. cbn [send_elem exec_line]. rewrite Hw. reflexivity.
    + intros nm g L w rest. exists (VBool true). split; [|reflexivity].
      cbn [resp_elem exec_line]. unfold consume. cbn [unread].
      rewrite Hr. reflexivity.
  - destruct (ok_object_shape v Hadm) as (d & f & ->).
    split; [discriminate|].
    destruct (nested_round_trip _ Hadm) as (bs & Hw & Hr).
    exists bs. split.
    + intros nm g L w u Hget. cbn [send_elem exec_line].
      rewrite Hget, Hw. reflexivity.
    + intros nm g L w rest. destruct (Hr rest) as (v' & Hv' & HR).
      exists v'. split; [|exact HR].
      cbn [resp_elem exec_line]. unfold consume. cbn [unread].
      rewrite Hv'. reflexivity.
Qed.

Ltac st_simpl :=
  unfold flags_var, consume, emit, set_unread in *;
  cbn [set_name get_name self_attrs locals written unread len_name] in *.

(** A guard that holds runs its block. *)
Lemma exec_guard_not_none (b : bool) nm body st v :
  get_name nm st = Some v -> v <> VNone ->
  run_stmts (guarded (LIfNotNone nm) b body) st = run_stmts body st.
Proof.
  intros Hget Hv. destruct b; [|reflexivity].
  unfold guarded. rewrite exec_stmts_single, exec_stmt_block.
  cbn [exec_block]. rewrite Hget, (is_none_false v Hv). reflexivity.
Qed.

Lemma exec_guard_flag (b : bool) i body st z :
  (b = true -> get_name flags_var st = Some (VInt z)
               /\ (Z.land z (Z.shiftl 1 (Z.of_nat i)) =? 0) = false) ->
  run_stmts (guarded (LIfFlag i) b body) st = run_stmts body st.
Proof.
  intros H. destruct b; [|reflexivity].
  destruct (H eq_refl) as (Hget & Hbit).
  unfold guarded. rewrite exec_stmts_single, exec_stmt_block.
  cbn [exec_block]. rewrite Hget, Hbit. reflexivity.
Qed.

(** A guard that fails skips its block. *)
Lemma exec_guard_none nm body st :
  get_name nm st = Some VNone ->
  run_stmts (guarded (LIfNotNone nm) true body) st = Some st.
Proof.
  intros Hget. unfold guarded. rewrite exec_stmts_single, exec_stmt_block.
  cbn [exec_block]. rewrite Hget. reflexivity.
Qed.

Lemma exec_guard_flag_clear i body st z :
  get_name flags_var st = Some (VInt z) ->
  (Z.land z (Z.shiftl 1 (Z.of_nat i)) =? 0) = true ->
  run_stmts (guarded (LIfFlag i) true body) st = Some st.
Proof.
  intros Hget Hbit. unfold guarded. rewrite exec_stmts_single, exec_stmt_block.
  cbn [exec_block]. rewrite Hget, Hbit. reflexivity.
Qed.

Lemma exec_flag_lines xs g L w u z :
  (forall a, a ∈ xs -> TLArg.is_flag a = true -> exists v, g !! TLArg.name a = Some v) ->
  L !! "flags" = Some (VInt z) ->
  run_stmts (flag_lines xs) (PyState g L w u)
  = Some (PyState g (<["flags" := VInt (foldl (flag_step g) z xs)]> L) w u).
Proof.
  revert L z. induction xs as [|a xs IH]; intros L z Hval HL.
  - simpl. now rewrite insert_id.
  - unfold flag_lines. cbn [flat_map]. fold (flag_lines xs).
    cbn [foldl]. unfold flag_step at 2.
    destruct (TLArg.is_flag a) eqn:Hf.
    + destruct (Hval a ltac:(left) Hf) as (v & Hv).
      cbn [app]. rewrite exec_stmts_cons.
      cbn [exec_stmt exec_line]. st_simpl.
      rewrite Hv, HL. st_simpl.
      rewrite (IH _ (Z.lor z (flag_bit g a))).
      * rewrite insert_insert_eq. unfold flag_bit. rewrite Hv. reflexivity.
      * intros b Hb. apply Hval. now right.
      * rewrite lookup_insert_eq. unfold flag_bit. rewrite Hv. reflexivity.
    + cbn [app]. apply IH; [|exact HL]. intros b Hb. apply Hval. now right.
Qed.

(** *** The flags word of an object *)

(** What the flags word needs: flag indices below 32, and a value
    ([None] or not) for every flag-gated argument. *)
Section FlagsWord.

Variable f : gmap string value.
Variable all : list TLArg.t.

Hypothesis Hidx : forall a, a ∈ all -> TLArg.is_flag a = true ->
  (TLArg.flag_index a < 32)%nat.
Hypothesis Hval : forall a, a ∈ all -> TLArg.is_flag a = true ->
  exists v, f !! TLArg.name a = Some v.

Lemma flags_word_bound : 0 <= flags_value f all < 2 ^ 32.
Proof.
  apply flags_fold_bound; [|lia].
  apply Forall_forall. intros a Ha Hf. now apply Hidx.
Qed.

(** A bit of the flags word is set exactly when a flag-gated argument
    of that index is present. *)
Lemma flags_word_bit i :
  0 <= i ->
  Z.testbit (flags_value f all) i = true
  <-> exists a v, a ∈ all /\ TLArg.is_flag a = true /\ Z.of_nat (TLArg.flag_index a) = i
                  /\ f !! TLArg.name a = Some v /\ v <> VNone.
Proof.
  intros Hi. unfold flags_value. rewrite flags_fold_testbit by exact Hi.
  rewrite Z.bits_0. cbn [orb]. rewrite existsb_exists. split.
  - intros (a & Ha & Hbit). apply andb_prop in Hbit as [Hf Hbit].
    rewrite flag_bit_testbit in Hbit by exact Hi.
    destruct (f !! TLArg.name a) as [v|] eqn:Hv; [|discriminate].
    apply andb_prop in Hbit as [Hp He]. apply Z.eqb_eq in He.
    exists a, v. split; [now apply list_elem_of_In|].
    repeat split; auto. intros ->. discriminate.
  - intros (a & v & Ha & Hf & He & Hv & Hn). exists a.
    split; [now apply list_elem_of_In|].
    rewrite Hf, flag_bit_testbit by exact Hi.
    rewrite Hv, (is_none_false v Hn), He. cbn. apply Z.eqb_refl.
Qed.

(** The flag indicator: the OR of the bits of the present arguments is
    written as one integer and read back into [flags]. *)
Lemma indicator_steps a :
  TLArg.flag_indicator a = true ->
  exists bs, List.length bs = 4%nat /\
    write_prim PInt (VInt (flags_value f all)) = Some bs /\
    (forall nm L w u,
       run_stmts (send_core a all nm) (PyState f L w u)
       = Some (PyState f (<["flags" := VInt (flags_value f all)]> L) (w ++ bs) u))
    /\ (forall nm g L w rest,
          run_stmts (resp_core a nm) (PyState g L w (bs ++ rest))
          = Some (PyState g (<["flags" := VInt (signed32 (flags_value f all))]> L) w rest)).
Proof.
  intros Hi.
  destruct (wire_word (flags_value f all) flags_word_bound) as (bs & Hw & Hlen & Hr).
  exists bs. split; [exact Hlen|]. split; [exact Hw|]. split.
  - intros nm L w u. unfold send_core. rewrite Hi.
    rewrite exec_stmts_app.
    cbn [exec_stmts exec_stmt exec_line]. st_simpl.
    rewrite exec_stmts_app.
    rewrite (exec_flag_lines all f _ w u 0).
    + cbn [exec_stmts exec_stmt exec_line]. st_simpl.
      rewrite lookup_insert_eq. fold (flags_value f all). rewrite Hw.
      rewrite insert_insert_eq. reflexivity.
    + exact Hval.
    + apply lookup_insert_eq.
  - intros nm g L w rest. unfold resp_core. rewrite Hi.
    cbn [exec_stmts exec_stmt exec_line]. st_simpl.
    rewrite Hr. reflexivity.
Qed.

Hypothesis Hcons : flags_consistent all f.

(** When the arguments that share a bit are present or absent
    together, the bit of a flag-gated argument is set in the flags word
    exactly when the argument is present. *)
Lemma flags_word_guard a :
  a ∈ all -> TLArg.is_flag a = true ->
  exists v, f !! TLArg.name a = Some v /\
    (Z.land (signed32 (flags_value f all)) (Z.shiftl 1 (Z.of_nat (TLArg.flag_index a))) =? 0)
    = is_none v.
Proof.
  intros Ha Hf. destruct (Hval a Ha Hf) as (v & Hv). exists v. split; [exact Hv|].
  pose proof (Hidx a Ha Hf) as Hlt.
  rewrite land_pow2_eqb by lia. rewrite signed32_testbit by lia.
  unfold flags_value. rewrite flags_fold_testbit by lia. rewrite Z.bits_0. simpl.
  destruct (is_none v) eqn:Hn; simpl.
  - apply negb_true_iff. apply not_true_is_false. intros Hex.
    apply existsb_exists in Hex as (b & Hb & Hbit).
    apply andb_prop in Hbit as [Hbf Hbit].
    rewrite flag_bit_testbit in Hbit by lia.
    apply list_elem_of_In in Hb.
    destruct (Hval b Hb Hbf) as (vb & Hvb). rewrite Hvb in Hbit.
    apply andb_prop in Hbit as [Hpres Hidxeq]. apply Z.eqb_eq in Hidxeq.
    assert (Hsame : TLArg.flag_index a = TLArg.flag_index b) by lia.
    destruct v; try discriminate.
    apply (Hcons a b Ha Hb Hf Hbf Hsame) in Hv. rewrite Hvb in Hv.
    inversion Hv; subst. discriminate.
  - apply negb_false_iff. apply existsb_exists. exists a. split.
    + now apply list_elem_of_In.
    + rewrite Hf. simpl. rewrite flag_bit_testbit by lia. rewrite Hv, Hn. simpl.
      apply Z.eqb_refl.
Qed.

End FlagsWord.

(** *** The arguments of one definition *)

Variable f : gmap string value.
Variable all : list TLArg.t.

Hypothesis Hwf : forallb (wf_arg all) all = true.
Hypothesis Hadm : Forall (adm_arg ok_object f) (init_attrs all).
Hypothesis Hcons : flags_consistent all f.

Lemma elem_of_init_attrs a : a ∈ init_attrs all <-> a ∈ all /\ is_attr a = true.
Proof.
  unfold init_attrs, is_attr. rewrite !list_elem_of_In, List.filter_In. reflexivity.
Qed.

Lemma wf_arg_of a :
  a ∈ all ->
  (TLArg.is_flag a = true ->
     (TLArg.flag_index a < 32)%nat /\ TLArg.generic_definition a = false
     /\ TLArg.flag_indicator a = false)
  /\ (TLArg.flag_indicator a = true ->
        TLArg.is_vector a = false /\ TLArg.generic_definition a = false)
  /\ (TLArg.flag_indicator a = false -> is_bytes (kind_of (TLArg.type a)) = false)
  /\ (forall c, c ∈ all -> TLArg.is_vector c = true ->
        TLArg.name a <> TLArg.name c +:+ "_len").
Proof.
  intros Ha. rewrite forallb_forall in Hwf.
  specialize (Hwf a (proj1 (list_elem_of_In _ _) Ha)).
  unfold wf_arg in Hwf.
  apply andb_prop in Hwf as [Hwf H3]. apply andb_prop in Hwf as [H1 H2].
  repeat split.
  - destruct (TLArg.is_flag a); [|discriminate].
    apply andb_prop in H1 as [H1 _]. apply andb_prop in H1 as [H1 _].
    now apply Nat.ltb_lt in H1.
  - destruct (TLArg.is_flag a); [|discriminate].
    apply andb_prop in H1 as [H1 _]. apply andb_prop in H1 as [_ H1].
    now apply negb_true_iff in H1.
  - destruct (TLArg.is_flag a); [|discriminate].
    apply andb_prop in H1 as [_ H1]. now apply negb_true_iff in H1.
  - rewrite H in H2. apply andb_prop in H2 as [H2 _]. now apply negb_true_iff in H2.
  - rewrite H in H2. apply andb_prop in H2 as [_ H2]. now apply negb_true_iff in H2.
  - intros Hi. rewrite Hi in H2. now apply negb_true_iff in H2.
  - intros c Hc Hv Heq. rewrite forallb_forall in H3.
    specialize (H3 c (proj1 (list_elem_of_In _ _) Hc)).
    rewrite Hv in H3. simpl in H3. apply negb_true_iff in H3.
    apply String.eqb_neq in H3. contradiction.
Qed.

Lemma flagged_value a :
  a ∈ all -> TLArg.is_flag a = true -> exists v, f !! TLArg.name a = Some v.
Proof.
  intros Ha Hf. destruct (wf_arg_of a Ha) as (H1 & _).
  destruct (H1 Hf) as (_ & Hg & Hi).
  rewrite Forall_forall in Hadm.
  destruct (Hadm a) as (v & Hv & _).
  - apply elem_of_init_attrs. split; [exact Ha|]. unfold is_attr. now rewrite Hg, Hi.
  - now exists v.
Qed.

Lemma flags_value_bound : 0 <= flags_value f all < 2 ^ 32.
Proof.
  apply flags_word_bound.
  intros a Ha Hf. now destruct (wf_arg_of a Ha) as (H1 & _); apply H1.
Qed.

(** The bit of a flag-gated argument is set in the flags word exactly
    when the argument is present. *)
Lemma flag_guard a :
  a ∈ all -> TLArg.is_flag a = true ->
  exists v, f !! TLArg.name a = Some v /\
    (Z.land (signed32 (flags_value f all)) (Z.shiftl 1 (Z.of_nat (TLArg.flag_index a))) =? 0)
    = is_none v.
Proof.
  apply flags_word_guard.
  - intros b Hb Hf. now destruct (wf_arg_of b Hb) as (H1 & _); apply H1.
  - exact flagged_value.
  - exact Hcons.
Qed.

Local Abbreviation F := (signed32 (flags_value f all)).

Lemma indicator_round_trip a :
  a ∈ all -> TLArg.flag_indicator a = true ->
  exists bs, List.length bs = 4%nat /\
    write_prim PInt (VInt (flags_value f all)) = Some bs /\
    (forall nm L w u, exists L',
       run_stmts (send_core a all nm) (PyState f L w u) = Some (PyState f L' (w ++ bs) u))
    /\ (forall nm g L w rest,
          run_stmts (resp_core a nm) (PyState g L w (bs ++ rest))
          = Some (PyState g (<["flags" := VInt F]> L) w rest)).
Proof.
  intros Ha Hi.
  destruct (indicator_steps f all) with (a := a) as (bs & Hlen & Hw & Hs & Hr).
  - intros b Hb Hf. now destruct (wf_arg_of b Hb) as (H1 & _); apply H1.
  - exact flagged_value.
  - exact Hi.
  - exists bs. split; [exact Hlen|]. split; [exact Hw|]. split; [|exact Hr].
    intros nm L w u. eexists. apply Hs.
Qed.

(** The two loops of a vector: every element is written in order, and
    as many are read back and appended in order. *)
Lemma vector_loops (s : string) k l (fl : bool) (i : nat) (z : Z) :
  Forall (elem_ok wobj robj R k) l ->
  let item := Local (s +:+ "_item") in
  exists ebs, Forall2 (elem_bytes wobj robj k) l ebs /\
    let bs := List.concat ebs in
    (forall g L w u, exists L',
       for_values l
         (fun x st' => run_stmts (guarded (LIfNotNone item) fl [Simple (send_elem k item)])
                         (set_name item x st'))
         (PyState g L w u)
       = Some (PyState g L' (w ++ bs) u))
    /\ (forall g L w rest nm acc,
          g !! nm = Some (VList acc) ->
          (fl = true -> L !! "flags" = Some (VInt z)
                        /\ (Z.land z (Z.shiftl 1 (Z.of_nat i)) =? 0) = false) ->
          exists l' L',
            repeat_body (List.length l)
              (run_stmts (guarded (LIfFlag i) fl [Simple (resp_elem k item)]
                           ++ [Simple (LAppend (SelfAttr nm) item)]))
              (PyState g L w (bs ++ rest))
            = Some (PyState (<[nm := VList (acc ++ l')]> g) L' w rest)
            /\ Forall2 (elem_rel R) l l'
            /\ L' !! "flags" = L !! "flags").
Proof.
  intros Hl item. induction Hl as [|x l Hx Hl IH].
  - exists []. split; [constructor|]. split.
    + intros g L w u. exists L. simpl. now rewrite app_nil_r.
    + intros g L w rest nm acc Hacc _. exists [], L. simpl.
      rewrite app_nil_r, insert_id by exact Hacc. auto.
  - destruct Hx as (Hxn & bs1 & Hw1 & Hr1).
    destruct IH as (ebs & Hebs & Hw2 & Hr2).
    exists (bs1 :: ebs). split; [now constructor|].
    cbn [List.concat]. set (bs2 := List.concat ebs) in *. split.
    + intros g L w u. cbn [for_values]. subst item. st_simpl.
      rewrite (exec_guard_not_none fl _ _ _ x); [| st_simpl; apply lookup_insert_eq | exact Hxn].
      rewrite exec_stmts_single. cbn [exec_stmt].
      rewrite Hw1 by (st_simpl; apply lookup_insert_eq).
      destruct (Hw2 g (<[s +:+ "_item" := x]> L) (w ++ bs1) u) as (L' & HL').
      exists L'. st_simpl. rewrite HL'. now rewrite app_assoc.
    + intros g L w rest nm acc Hacc Hfl. cbn [List.length repeat_body].
      rewrite exec_stmts_app.
      rewrite (exec_guard_flag fl i _ _ z) by (st_simpl; exact Hfl).
      rewrite exec_stmts_single. cbn [exec_stmt].
      rewrite <- app_assoc.
      destruct (Hr1 item g L w (bs2 ++ rest)) as (v' & Hv' & Hrel).
      rewrite Hv'. subst item. st_simpl.
      cbn [exec_stmts exec_stmt exec_line]. st_simpl.
      rewrite Hacc, lookup_insert_eq. st_simpl.
      destruct (Hr2 (<[nm := VList (acc ++ [v'])]> g) (<[s +:+ "_item" := v']> L) w rest nm
                    (acc ++ [v'])) as (l' & L' & Hrun & Hrels & HL').
      * apply lookup_insert_eq.
      * rewrite lookup_insert_ne by apply item_not_flags. exact Hfl.
      * exists (v' :: l'), L'. rewrite Hrun. split; [|split].
        -- rewrite insert_insert_eq, <- app_assoc. reflexivity.
        -- now constructor.
        -- rewrite HL'. apply lookup_insert_ne, item_not_flags.
Qed.

Lemma adm_elem_field_eq k v v' :
  is_bytes k = false -> adm_elem ok_object k v ->
  elem_rel R v v' -> field_eq (elem_rel R) v v'.
Proof.
  intros Hb Hadm' Hrel. destruct v; try exact Hrel.
  destruct k as [p| |]; simpl in Hadm'.
  - apply fits_plain in Hadm'. discriminate.
  - discriminate.
  - apply ok_object_shape in Hadm' as (d & f' & E). discriminate.
Qed.

Ltac step :=
  rewrite exec_stmts_cons; cbn [exec_stmt exec_line]; st_simpl.

(** One argument: what its write step emits, its read step reads back
    into the attribute of the same name. *)
Lemma arg_round_trip a :
  a ∈ all ->
  exists bs,
    (forall L w u, exists L',
       run_stmts (send_stmts a all None) (PyState f L w u)
       = Some (PyState f L' (w ++ bs) u))
    /\ (forall g L w rest,
          (TLArg.is_flag a = true -> L !! "flags" = Some (VInt F)) ->
          (is_attr a = true -> exists x', g !! TLArg.name a = Some x' /\
             (x' = VNone \/ exists x, f !! TLArg.name a = Some x /\ field_eq (elem_rel R) x x')) ->
          exists g' L',
            run_stmts (resp_stmts a None) (PyState g L w (bs ++ rest))
            = Some (PyState g' L' w rest)
            /\ L' !! "flags" = (if TLArg.flag_indicator a then Some (VInt F) else L !! "flags")
            /\ (forall n, n <> TLArg.name a ->
                  (TLArg.is_vector a = true -> n <> TLArg.name a +:+ "_len") ->
                  g' !! n = g !! n)
            /\ (is_attr a = false -> g' = g)
            /\ (is_attr a = true -> exists x x',
                  f !! TLArg.name a = Some x /\ g' !! TLArg.name a = Some x'
                  /\ field_eq (elem_rel R) x x')).
Proof.
  intros Ha. destruct (wf_arg_of a Ha) as (Hwf1 & Hwf2 & Hwf3 & Hwf4).
  unfold send_stmts, resp_stmts, is_attr.
  destruct (TLArg.generic_definition a) eqn:Hg.
  { (* a generic definition emits nothing *)
    exists []. split.
    - intros L w u. exists L. simpl. now rewrite app_nil_r.
    - intros g L w rest _ _. exists g, L. simpl.
      destruct (TLArg.flag_indicator a) eqn:Hi.
      + destruct (Hwf2 eq_refl). congruence.
      + repeat split; auto; try (rewrite andb_false_r; discriminate). }
  destruct (TLArg.flag_indicator a) eqn:Hi.
  { (* the flag indicator *)
    destruct (Hwf2 eq_refl) as (Hv & _).
    assert (Hf : TLArg.is_flag a = false).
    { destruct (TLArg.is_flag a) eqn:E; [|reflexivity].
      destruct (Hwf1 eq_refl) as (_ & _ & ?). congruence. }
    rewrite Hv, Hf. unfold guarded. cbn [default_name].
    destruct (indicator_round_trip a Ha Hi) as (bs & _ & _ & Hw & Hr).
    exists bs. split; [apply Hw|].
    intros g L w rest _ _. exists g, (<["flags" := VInt F]> L).
    rewrite Hr. simpl. repeat split; auto; try discriminate.
    apply lookup_insert_eq. }
  (* an argument that becomes an attribute *)
  simpl negb. cbn [andb default_name].
  unfold send_core, resp_core. rewrite Hi.
  specialize (Hwf3 eq_refl).
  assert (Hadm_a : adm_arg ok_object f a).
  { rewrite Forall_forall in Hadm. apply Hadm, elem_of_init_attrs.
    split; [exact Ha|]. unfold is_attr. now rewrite Hi, Hg. }
  destruct Hadm_a as (v & Hv & [(Hf & ->) | Hpresent]).
  { (* absent *)
    rewrite Hf. exists []. split.
    - intros L w u. exists L.
      rewrite exec_guard_none by (st_simpl; exact Hv). now rewrite app_nil_r.
    - intros g L w rest HF Hpre. exists g, L.
      destruct (flag_guard a Ha Hf) as (v0 & Hv0 & Hbit).
      rewrite Hv in Hv0. inversion Hv0; subst v0. simpl in Hbit.
      cbn [app].
      rewrite (exec_guard_flag_clear _ _ _ F) by (st_simpl; auto).
      repeat split; auto; try discriminate.
      intros _. destruct (Hpre eq_refl) as (x' & Hx' & [-> | (x & Hx & Hrel)]).
      + exists VNone, VNone. repeat split; auto.
      + exists x, x'. repeat split; auto. }
  (* present *)
  assert (Hguard : TLArg.is_flag a = true ->
            (Z.land F (Z.shiftl 1 (Z.of_nat (TLArg.flag_index a))) =? 0) = is_none v).
  { intros Hf. destruct (flag_guard a Ha Hf) as (v0 & Hv0 & Hbit).
    rewrite Hv in Hv0. now inversion Hv0; subst v0. }
  destruct (TLArg.is_vector a) eqn:Hvec.
  - (* a vector *)
    destruct Hpresent as (l & -> & Hlen & Hl).
    destruct (wire_word 0x1cb5c415 ltac:(lia)) as (mk & Hmk & _ & Hrmk).
    destruct (wire_word (Z.of_nat (List.length l)) ltac:(lia)) as (ln & Hln & _ & Hrln).
    assert (Hok : Forall (elem_ok wobj robj R (kind_of (TLArg.type a))) l).
    { eapply Forall_impl; [exact Hl|]. intros x Hx. now apply elem_round_trip. }
    destruct (vector_loops (TLArg.name a) (kind_of (TLArg.type a)) l (TLArg.is_flag a)
                (TLArg.flag_index a) F Hok) as (ebs & _ & Hw & Hr).
    set (bs := List.concat ebs) in *.
    exists (mk ++ ln ++ bs). split.
    + intros L w u.
      rewrite (exec_guard_not_none _ _ _ _ (VList l)) by (st_simpl; auto; discriminate).
      step. rewrite Hmk. step. rewrite Hv, Hln.
      rewrite exec_stmts_single, exec_stmt_block. cbn [exec_block]. st_simpl.
      rewrite Hv. unfold item_name.
      destruct (Hw f L ((w ++ mk) ++ ln) u) as (L' & HL').
      exists L'. st_simpl. rewrite HL'. now rewrite <- !app_assoc.
    + intros g L w rest HF Hpre.
      rewrite (exec_guard_flag _ _ _ _ F)
        by (st_simpl; intros Hf; split; [now apply HF | now rewrite (Hguard Hf)]).
      rewrite <- !app_assoc.
      step. rewrite Hrmk. step. step. rewrite Hrln.
      rewrite exec_stmts_single, exec_stmt_block. cbn [exec_block]. st_simpl.
      rewrite lookup_insert_eq.
      rewrite signed32_small by lia. rewrite Nat2Z.id. unfold item_name.
      destruct (Hr (<[TLArg.name a +:+ "_len" := VInt (Z.of_nat (List.length l))]>
                      (<[TLArg.name a := VList []]> g)) L w rest (TLArg.name a) [])
        as (l' & L' & Hrun & Hrel & HL').
      * rewrite lookup_insert_ne by apply len_name_neq. apply lookup_insert_eq.
      * intros Hf. split; [now apply HF | now rewrite (Hguard Hf)].
      * eexists _, L'. st_simpl. rewrite Hrun. split; [reflexivity|]. split; [exact HL'|].
        split; [|split].
        -- intros n Hn Hn'. specialize (Hn' eq_refl).
           rewrite !lookup_insert_ne by congruence. reflexivity.
        -- discriminate.
        -- intros _. exists (VList l), (VList l'). split; [exact Hv|].
           split; [apply lookup_insert_eq | exact Hrel].
  - (* a single value *)
    destruct (elem_round_trip _ v Hwf3 Hpresent) as (Hvn & bs & Hw & Hr).
    exists bs. split.
    + intros L w u. exists L.
      rewrite (exec_guard_not_none _ _ _ _ v) by (st_simpl; auto).
      rewrite exec_stmts_single. cbn [exec_stmt].
      apply Hw. st_simpl. exact Hv.
    + intros g L w rest HF Hpre.
      rewrite (exec_guard_flag _ _ _ _ F).
      2:{ st_simpl. intros Hf. split; [now apply HF|].
          rewrite (Hguard Hf). now apply is_none_false. }
      rewrite exec_stmts_single. cbn [exec_stmt].
      destruct (Hr (SelfAttr (TLArg.name a)) g L w rest) as (v' & Hv' & Hrel).
      rewrite Hv'. st_simpl. eexists _, L. split; [reflexivity|].
      split; [reflexivity|]. split; [|split].
      * intros n Hn _. now rewrite lookup_insert_ne by congruence.
      * discriminate.
      * intros _. exists v, v'. split; [exact Hv|]. split; [apply lookup_insert_eq|].
        now apply (adm_elem_field_eq (kind_of (TLArg.type a))).
Qed.

Lemma args_round_trip suf :
  forall pre, all = pre ++ suf ->
  indicator_first (existsb TLArg.flag_indicator pre) suf = true ->
  exists bs,
    (forall L w u, exists L',
       run_stmts (flat_map (fun a => send_stmts a all None) suf) (PyState f L w u)
       = Some (PyState f L' (w ++ bs) u))
    /\ (forall g L w rest,
          (existsb TLArg.flag_indicator pre = true -> L !! "flags" = Some (VInt F)) ->
          read_so_far R f all pre g ->
          exists g' L',
            run_stmts (flat_map (fun a => resp_stmts a None) suf) (PyState g L w (bs ++ rest))
            = Some (PyState g' L' w rest)
            /\ read_so_far R f all all g').
Proof.
  induction suf as [|a suf IH]; intros pre Hall Hind.
  - exists []. split.
    + intros L w u. exists L. simpl. now rewrite app_nil_r.
    + intros g L w rest _ Hinv. exists g, L. simpl. split; [reflexivity|].
      rewrite app_nil_r in Hall. now subst pre.
  - assert (Ha : a ∈ all).
    { rewrite Hall. apply elem_of_app. right. now left. }
    destruct (arg_round_trip a Ha) as (bs1 & Hw1 & Hr1).
    simpl in Hind. apply andb_prop in Hind as [Hseen Hind].
    destruct (IH (pre ++ [a])) as (bs2 & Hw2 & Hr2).
    { now rewrite <- app_assoc. }
    { rewrite existsb_app. simpl. now rewrite orb_false_r. }
    exists (bs1 ++ bs2). split.
    + intros L w u. cbn [flat_map]. rewrite exec_stmts_app.
      destruct (Hw1 L w u) as (L1 & HL1). rewrite HL1.
      destruct (Hw2 L1 (w ++ bs1) u) as (L2 & HL2). rewrite HL2.
      exists L2. now rewrite app_assoc.
    + intros g L w rest HF Hinv. cbn [flat_map]. rewrite exec_stmts_app, <- app_assoc.
      destruct (Hr1 g L w (bs2 ++ rest)) as (g1 & L1 & Hrun1 & HL1 & Hframe & Hsame & Hnew).
      { intros Hf. rewrite Hf in Hseen. now apply HF. }
      { intros Hattr. destruct (Hinv a Ha Hattr) as (x & x' & Hx & Hx' & Hor & _).
        exists x'. split; [exact Hx'|]. destruct Hor; [now left | right; eauto]. }
      rewrite Hrun1.
      destruct (Hr2 g1 L1 w rest) as (g2 & L2 & Hrun2 & Hinv2).
      { rewrite existsb_app. simpl. rewrite orb_false_r. rewrite HL1.
        destruct (TLArg.flag_indicator a); [reflexivity|].
        rewrite orb_false_r. exact HF. }
      { intros b Hb Hattr.
        destruct (Hinv b Hb Hattr) as (x & x' & Hx & Hx' & Hor & Hpre).
        destruct (decide (TLArg.name b = TLArg.name a)) as [Heq|Hne].
        - destruct (is_attr a) eqn:Hattr_a.
          + destruct (Hnew eq_refl) as (xa & xa' & Hxa & Hxa' & Hrel).
            exists xa, xa'. rewrite Heq. repeat split; auto.
          + rewrite (Hsame eq_refl). exists x, x'. repeat split; auto.
            intros Hin. apply elem_of_app in Hin as [Hin|Hin]; [auto|].
            apply list_elem_of_singleton in Hin. subst b. congruence.
        - exists x, x'. split; [exact Hx|]. split.
          + rewrite Hframe; [exact Hx' | exact Hne |].
            intros Hvec. destruct (wf_arg_of b Hb) as (_ & _ & _ & H4). now apply H4.
          + split; [exact Hor|].
            intros Hin. apply elem_of_app in Hin as [Hin|Hin]; [auto|].
            apply list_elem_of_singleton in Hin. subst b. congruence. }
      exists g2, L2. split; [exact Hrun2 | exact Hinv2].
Qed.

(** All the arguments of a definition: what the write steps emit, the
    read steps read back into a new object, field for field. *)
Lemma fields_round_trip :
  indicator_first false all = true ->
  exists bs,
    (forall L w u, exists L',
       run_stmts (flat_map (fun a => send_stmts a all None) all) (PyState f L w u)
       = Some (PyState f L' (w ++ bs) u))
    /\ (forall g L w rest,
          (forall a, a ∈ init_attrs all -> g !! TLArg.name a = Some VNone) ->
          exists g' L',
            run_stmts (flat_map (fun a => resp_stmts a None) all) (PyState g L w (bs ++ rest))
            = Some (PyState g' L' w rest)
            /\ forall a, a ∈ init_attrs all ->
                 exists x x', f !! TLArg.name a = Some x /\ g' !! TLArg.name a = Some x'
                              /\ field_eq (elem_rel R) x x').
Proof.
  intros Hind.
  destruct (args_round_trip all [] eq_refl Hind) as (bs & Hw & Hr).
  exists bs. split; [exact Hw|].
  intros g L w rest Hinit.
  destruct (Hr g L w rest) as (g' & L' & Hrun & Hinv).
  - discriminate.
  - intros a Ha Hattr.
    assert (Hin : a ∈ init_attrs all) by (apply elem_of_init_attrs; auto).
    rewrite Forall_forall in Hadm. destruct (Hadm a Hin) as (x & Hx & _).
    exists x, VNone. repeat split; auto.
    intros Hnil. inversion Hnil.
  - exists g', L'. split; [exact Hrun|].
    intros a Ha. apply elem_of_init_attrs in Ha as (Ha & Hattr).
    destruct (Hinv a Ha Hattr) as (x & x' & Hx & Hx' & _ & Hall).
    exists x, x'. auto.
Qed.
(** A vector argument on its own: the marker, the count and the elements
    in order are written; the marker, the count and as many elements
    are read back, in order. *)
Lemma vector_arg_round_trip a all0 (fv : gmap string value) l z :
  TLArg.is_vector a = true -> TLArg.generic_definition a = false ->
  TLArg.flag_indicator a = false ->
  fv !! TLArg.name a = Some (VList l) ->
  Z.of_nat (List.length l) < 2 ^ 31 ->
  Forall (elem_ok wobj robj R (kind_of (TLArg.type a))) l ->
  exists mk ln ebs,
    write_prim PInt (VInt 0x1cb5c415) = Some mk
    /\ write_prim PInt (VInt (Z.of_nat (List.length l))) = Some ln
    /\ Forall2 (elem_bytes wobj robj (kind_of (TLArg.type a))) l ebs
    /\ (forall L w u, exists L',
          run_stmts (send_stmts a all0 None) (PyState fv L w u)
          = Some (PyState fv L' (w ++ mk ++ ln ++ List.concat ebs) u))
    /\ (forall g L w rest,
          (TLArg.is_flag a = true ->
             L !! "flags" = Some (VInt z)
             /\ (Z.land z (Z.shiftl 1 (Z.of_nat (TLArg.flag_index a))) =? 0) = false) ->
          exists l' L',
            run_stmts (resp_stmts a None)
              (PyState g L w (mk ++ ln ++ List.concat ebs ++ rest))
            = Some (PyState
                      (<[TLArg.name a := VList l']>
                         (<[TLArg.name a +:+ "_len" := VInt (Z.of_nat (List.length l))]>
                            (<[TLArg.name a := VList []]> g)))
                      L' w rest)
            /\ Forall2 (elem_rel R) l l').
Proof.
  intros Hvec Hg Hi Hv Hlen Hl.
  destruct (wire_word 0x1cb5c415 ltac:(lia)) as (mk & Hmk & _ & Hrmk).
  destruct (wire_word (Z.of_nat (List.length l)) ltac:(lia)) as (ln & Hln & _ & Hrln).
  destruct (vector_loops (TLArg.name a) (kind_of (TLArg.type a)) l (TLArg.is_flag a)
              (TLArg.flag_index a) z Hl) as (ebs & Hebs & Hw & Hr).
  set (bs := List.concat ebs) in *.
  exists mk, ln, ebs. split; [exact Hmk|]. split; [exact Hln|]. split; [exact Hebs|].
  unfold send_stmts, resp_stmts. rewrite Hg, Hvec. cbn [default_name].
  unfold send_core, resp_core. rewrite Hi. fold bs. split.
  - intros L w u.
    rewrite (exec_guard_not_none _ _ _ _ (VList l)) by (st_simpl; auto; discriminate).
    step. rewrite Hmk. step. rewrite Hv, Hln.
    rewrite exec_stmts_single, exec_stmt_block. cbn [exec_block]. st_simpl.
    rewrite Hv. unfold item_name.
    destruct (Hw fv L ((w ++ mk) ++ ln) u) as (L' & HL').
    exists L'. st_simpl. rewrite HL'. now rewrite <- !app_assoc.
  - intros g L w rest HF.
    rewrite (exec_guard_flag _ _ _ _ z) by (st_simpl; exact HF).
    step. rewrite Hrmk. step. step. rewrite Hrln.
    rewrite exec_stmts_single, exec_stmt_block. cbn [exec_block]. st_simpl.
    rewrite lookup_insert_eq.
    rewrite signed32_small by lia. rewrite Nat2Z.id. unfold item_name.
    destruct (Hr (<[TLArg.name a +:+ "_len" := VInt (Z.of_nat (List.length l))]>
                    (<[TLArg.name a := VList []]> g)) L w rest (TLArg.name a) [])
      as (l' & L' & Hrun & Hrel & HL').
    + rewrite lookup_insert_ne by apply len_name_neq. apply lookup_insert_eq.
    + exact HF.
    + exists l', L'. st_simpl. rewrite Hrun. split; [reflexivity | exact Hrel].
Qed.

End RoundTrip.
(** ** A new object, and the round trip of whole objects *)

Lemma init_locals_lookup (attrs : list TLArg.t) a :
  a ∈ attrs ->
  foldr (fun a m => <[TLArg.name a := VNone]> m) (∅ : gmap string value) attrs
    !! TLArg.name a = Some VNone.
Proof.
  induction attrs as [|b attrs IH]; intros Ha.
  - inversion Ha.
  - simpl. destruct (decide (TLArg.name b = TLArg.name a)) as [->|Hne].
    + apply lookup_insert_eq.
    + rewrite lookup_insert_ne by exact Hne. apply IH.
      apply elem_of_cons in Ha as [->|Ha]; [congruence | exact Ha].
Qed.

Section Instantiate.

Context {W : Wire}.

Lemma exec_assigns (attrs : list TLArg.t) g L w u :
  (forall a, a ∈ attrs -> L !! TLArg.name a = Some VNone) ->
  exists g',
    exec_stmts (fun _ => None) (fun _ => None)
      (map (fun arg => Simple (LAssignAttr (TLArg.name arg))) attrs) (PyState g L w u)
    = Some (PyState g' L w u)
    /\ forall n, (exists a, a ∈ attrs /\ TLArg.name a = n) \/ g !! n = Some VNone ->
                 g' !! n = Some VNone.
Proof.
  revert g. induction attrs as [|b attrs IH]; intros g HL.
  - exists g. split; [reflexivity|]. intros n [(a & Ha & _)|Hn]; [inversion Ha | exact Hn].
  - cbn [map]. rewrite exec_stmts_cons. cbn [exec_stmt exec_line get_name locals].
    rewrite (HL b) by now left. cbn [set_name self_attrs locals written unread].
    destruct (IH (<[TLArg.name b := VNone]> g)) as (g' & Hrun & Hg').
    { intros a Ha. apply HL. now right. }
    exists g'. split; [exact Hrun|].
    intros n [(a & Ha & Hn)|Hn].
    + apply Hg'. apply elem_of_cons in Ha as [->|Ha].
      * right. subst n. apply lookup_insert_eq.
      * left. eauto.
    + apply Hg'. right. destruct (decide (TLArg.name b = n)) as [->|Hne].
      * apply lookup_insert_eq.
      * now rewrite lookup_insert_ne.
Qed.

(** [__init__] with every parameter [None] sets every attribute to [None]. *)
Lemma instantiate_eq (d : TLObject.t) :
  exists g0, instantiate d = Some g0
    /\ forall a, a ∈ init_attrs (TLObject.args d) -> g0 !! TLArg.name a = Some VNone.
Proof.
  unfold instantiate. rewrite class_program_eq.
  cbn [mbind option_bind method_body init_block is_init].
  set (attrs := init_attrs (TLObject.args d)).
  assert (HL : forall a, a ∈ attrs -> init_locals d !! TLArg.name a = Some VNone).
  { intros a Ha. now apply init_locals_lookup. }
  assert (Hblank : forall st, exec_stmts (fun _ => None) (fun _ => None)
                     (if nonempty attrs then [Simple LBlank] else []) st = Some st).
  { intros st. now destruct (nonempty attrs). }
  rewrite exec_stmts_app, exec_stmts_single. cbn [exec_stmt exec_line].
  rewrite exec_stmts_app.
  destruct (TLObject.is_function d).
  - rewrite exec_stmts_single.
    cbn [exec_stmt exec_line set_name self_attrs locals written unread].
    rewrite exec_stmts_app, Hblank.
    destruct (exec_assigns attrs (<["result" := VNone]> ∅) (init_locals d) [] [] HL)
      as (g' & Hrun & Hg').
    rewrite Hrun. exists g'. split; [reflexivity|].
    intros a Ha. apply Hg'. left. eauto.
  - cbn [exec_stmts]. rewrite exec_stmts_app, Hblank.
    destruct (exec_assigns attrs ∅ (init_locals d) [] [] HL) as (g' & Hrun & Hg').
    rewrite Hrun. exists g'. split; [reflexivity|].
    intros a Ha. apply Hg'. left. eauto.
Qed.

End Instantiate.

Section ObjectRoundTrip.

Context {W : Wire}.
Variable reg : gmap Z TLObject.t.

Lemma admissible_shape n v :
  admissible reg n v -> exists d f, v = VObject d f.
Proof. destruct n, v; simpl; try contradiction. eauto. Qed.

Lemma elem_rel_same_fields n v v' :
  elem_rel (same_fields n) v v' -> same_fields n v v'.
Proof. destruct n, v; simpl; auto. Qed.

Lemma field_eq_same_fields n x x' :
  field_eq (elem_rel (same_fields n)) x x' -> field_eq (same_fields n) x x'.
Proof.
  unfold field_eq. destruct x; try apply elem_rel_same_fields.
  destruct x'; try apply elem_rel_same_fields.
  intros H. eapply Forall2_impl; [exact H|]. intros v v'. apply elem_rel_same_fields.
Qed.

Lemma wf_def_of d :
  wf_def d = true ->
  forallb (wf_arg (TLObject.args d)) (TLObject.args d) = true
  /\ indicator_first false (TLObject.args d) = true
  /\ class_loads d = true.
Proof.
  unfold wf_def. intros H.
  apply andb_prop in H as [H H3]. apply andb_prop in H as [H1 H2]. auto.
Qed.

(** Every admissible object is written, and what was written is read
    back as an object equal to it field for field. *)
Lemma object_round_trip n :
  forall v, admissible reg n v ->
    exists bs, write_object reg n v = Some bs /\
      forall rest, exists v',
        tgread_object reg n (bs ++ rest) = Some (v', rest)
        /\ same_fields n v v'.
Proof.
  induction n as [|n IH]; intros v Hv; [contradiction|].
  destruct v as [| | | | | | |d f]; try contradiction.
  destruct Hv as (Hwf & Hfun & Hid & Hreg & Hadm & Hcons).
  destruct (wf_def_of d Hwf) as (Hargs & Hind & Hloads).
  destruct (fields_round_trip (write_object reg n) (tgread_object reg n)
              (admissible reg n) (same_fields n)
              (admissible_shape n) IH f (TLObject.args d) Hargs Hadm Hcons Hind)
    as (bs & Hw & Hr).
  destruct (wire_word (TLObject.id d) Hid) as (ib & Hib & _ & Hrib).
  exists (ib ++ bs). split.
  - unfold write_object. cbn [object_codec fst]. rewrite Hloads, on_send_eq.
    cbn [mbind option_bind]. unfold on_send_body.
    rewrite exec_stmts_cons. cbn [exec_stmt exec_line]. rewrite Hib. cbn [emit].
    cbn [self_attrs locals written unread app].
    fold (write_object reg n). fold (tgread_object reg n).
    destruct (Hw ∅ ib []) as (L' & HL'). rewrite HL'. reflexivity.
  - intros rest. unfold tgread_object. cbn [object_codec snd].
    rewrite <- app_assoc, Hrib.
    rewrite signed32_mod, Z.mod_small by exact Hid.
    rewrite Hreg. cbn [mbind option_bind]. rewrite Hloads.
    destruct (instantiate_eq d) as (g0 & Hg0 & Hnone). rewrite Hg0.
    cbn [mbind option_bind]. rewrite on_response_eq. cbn [mbind option_bind].
    unfold on_response_body. rewrite Hfun.
    fold (write_object reg n). fold (tgread_object reg n).
    destruct (Hr g0 ∅ [] rest Hnone) as (g' & L' & Hrun & Hrel).
    destruct (TLObject.args d) as [|a0 args0] eqn:Hargs0.
    + cbn [nonempty]. simpl in Hrun. injection Hrun as Hg' HL' Hrest.
      cbn [exec_stmts exec_stmt exec_line]. cbn [self_attrs unread]. rewrite Hrest.
      eexists. split; [reflexivity|].
      exists g0. split; [reflexivity|]. intros a Ha. rewrite Hargs0 in Ha. inversion Ha.
    + cbn [nonempty]. rewrite Hrun. cbn [self_attrs unread].
      eexists. split; [reflexivity|].
      exists g'. split; [reflexivity|].
      intros a Ha. rewrite Hargs0 in Ha.
      destruct (Hrel a Ha) as (x & x' & Hx & Hx' & Hxx).
      exists x, x'. repeat split; auto. now apply field_eq_same_fields.
Qed.

End ObjectRoundTrip.
(** ** The byte-level reader and writer satisfy the laws *)

Lemma Z_of_byte_of_Z z : 0 <= z < 256 -> Z_of_byte (byte_of_Z z) = z.
Proof.
  intros Hz. unfold Z_of_byte, byte_of_Z.
  destruct (Byte.of_N (Z.to_N z)) as [b|] eqn:E.
  - apply Byte.to_of_N in E. rewrite E. lia.
  - apply Byte.of_N_None_iff in E. lia.
Qed.

Lemma length_le_bytes n z : List.length (le_bytes n z) = n.
Proof. revert z. induction n as [|n IH]; intros z; simpl; [reflexivity | now rewrite IH]. Qed.

Lemma le_value_le_bytes n z : le_value (le_bytes n z) = z mod 2 ^ (8 * Z.of_nat n).
Proof.
  revert z. induction n as [|n IH]; intros z.
  - simpl. now rewrite Z.mod_1_r.
  - cbn [le_bytes le_value]. rewrite Z_of_byte_of_Z by (apply Z.mod_pos_bound; lia).
    rewrite IH.
    replace (8 * Z.of_nat (S n)) with (8 + 8 * Z.of_nat n) by lia.
    rewrite Z.pow_add_r by lia. change (2 ^ 8) with 256.
    rewrite Z.rem_mul_r by (try apply Z.pow_nonzero; lia). lia.
Qed.

Lemma split_bytes_app n (w rest : list byte) :
  List.length w = n -> split_bytes n (w ++ rest) = Some (w, rest).
Proof.
  intros <-. unfold split_bytes. rewrite length_app.
  rewrite (proj2 (Nat.leb_le _ _)) by lia.
  now rewrite take_app_length, drop_app_length.
Qed.

Lemma split_bytes_inv n s w rest :
  split_bytes n s = Some (w, rest) -> s = w ++ rest /\ List.length w = n.
Proof.
  unfold split_bytes. destruct (Nat.leb_spec n (List.length s)); [|discriminate].
  intros E. inversion E; subst. split.
  - symmetry. apply take_drop.
  - rewrite length_take. lia.
Qed.

Lemma signed_mod n z :
  (0 < n)%nat ->
  - 2 ^ (8 * Z.of_nat n - 1) <= z < 2 ^ (8 * Z.of_nat n - 1) ->
  signed n (z mod 2 ^ (8 * Z.of_nat n)) = z.
Proof.
  intros Hn Hz. unfold signed.
  set (h := 2 ^ (8 * Z.of_nat n - 1)) in *.
  assert (Hh : 2 ^ (8 * Z.of_nat n) = 2 * h).
  { unfold h. rewrite <- Z.pow_succ_r by lia. f_equal. lia. }
  rewrite Hh. rewrite Zplus_mod_idemp_l. rewrite Z.mod_small by lia. lia.
Qed.

Lemma signed_4 z : signed 4 (z mod 2 ^ 32) = signed32 z.
Proof.
  unfold signed, signed32. change (2 ^ (8 * Z.of_nat 4 - 1)) with (2 ^ 31).
  change (2 * 2 ^ 31) with (2 ^ 32). now rewrite Zplus_mod_idemp_l.
Qed.

Lemma write_signed_ok n lo hi z :
  lo <= z < hi -> write_signed n lo hi (VInt z) = Some (le_bytes n z).
Proof.
  intros Hz. unfold write_signed.
  now rewrite (proj2 (Z.leb_le _ _)), (proj2 (Z.ltb_lt _ _)) by lia.
Qed.

Lemma read_signed_le_bytes n z rest :
  read_signed n (le_bytes n z ++ rest)
  = Some (VInt (signed n (z mod 2 ^ (8 * Z.of_nat n))), rest).
Proof.
  unfold read_signed. rewrite split_bytes_app by apply length_le_bytes.
  now rewrite le_value_le_bytes.
Qed.

Lemma signed_round_trip n lo hi z :
  (0 < n)%nat ->
  - 2 ^ (8 * Z.of_nat n - 1) <= z < 2 ^ (8 * Z.of_nat n - 1) ->
  lo <= z < hi ->
  exists bs, write_signed n lo hi (VInt z) = Some bs /\
    forall rest, read_signed n (bs ++ rest) = Some (VInt z, rest).
Proof.
  intros Hn Hz Hr. exists (le_bytes n z). split; [now apply write_signed_ok|].
  intros rest. now rewrite read_signed_le_bytes, signed_mod.
Qed.

Lemma byte_wire_round_trip p v :
  p <> PBytes -> byte_fits p v ->
  exists bs, byte_write_prim p v = Some bs /\
    forall rest, byte_read_prim p (bs ++ rest) = Some (v, rest).
Proof.
  intros Hp Hfit.
  destruct p; try congruence; destruct v; simpl in Hfit; try contradiction;
    cbn [byte_write_prim byte_read_prim].
  - apply signed_round_trip; simpl; lia.
  - apply signed_round_trip; simpl; lia.
  - apply signed_round_trip; simpl; lia.
  - apply signed_round_trip; simpl; lia.
  - rewrite (proj2 (Z.leb_le _ _)), (proj2 (Z.ltb_lt _ _)) by lia. cbn [andb].
    eexists. split; [reflexivity|]. intros rest.
    rewrite split_bytes_app by apply length_le_bytes.
    rewrite le_value_le_bytes. change (2 ^ (8 * Z.of_nat 8)) with (2 ^ 64).
    now rewrite Z.mod_small by lia.
  - rewrite (proj2 (Z.ltb_lt _ _)) by lia.
    eexists. split; [reflexivity|]. intros rest.
    rewrite <- app_assoc. rewrite split_bytes_app by apply length_le_bytes.
    rewrite le_value_le_bytes. change (2 ^ (8 * Z.of_nat 4)) with (2 ^ 32).
    rewrite Z.mod_small by lia.
    rewrite Nat2Z.id. rewrite split_bytes_app by reflexivity.
    now rewrite string_of_list_byte_of_string.
  - eexists. split; [reflexivity|]. intros rest.
    rewrite split_bytes_app by apply length_le_bytes.
    rewrite le_value_le_bytes. change (2 ^ (8 * Z.of_nat 4)) with (2 ^ 32).
    destruct b; reflexivity.
Qed.

Lemma byte_fits_plain p v : byte_fits p v -> plain v = true.
Proof. destruct p, v; simpl; try contradiction; reflexivity. Qed.

Lemma byte_fits_int z : - 2 ^ 31 <= z < 2 ^ 31 -> byte_fits PInt (VInt z).
Proof. intros H. exact H. Qed.

Lemma byte_wire_word z :
  0 <= z < 2 ^ 32 ->
  exists bs, byte_write_prim PInt (VInt z) = Some bs /\ List.length bs = 4%nat /\
    forall rest, byte_read_prim PInt (bs ++ rest) = Some (VInt (signed32 z), rest).
Proof.
  intros Hz. exists (le_bytes 4 z). split; [|split].
  - cbn [byte_write_prim]. apply write_signed_ok. lia.
  - apply length_le_bytes.
  - intros rest. cbn [byte_read_prim]. rewrite read_signed_le_bytes.
    change (2 ^ (8 * Z.of_nat 4)) with (2 ^ 32). now rewrite signed_4.
Qed.

Lemma byte_read_int_width s v rest :
  byte_read_prim PInt s = Some (v, rest) ->
  exists w z, v = VInt z /\ s = w ++ rest /\ List.length w = 4%nat.
Proof.
  cbn [byte_read_prim]. unfold read_signed.
  destruct (split_bytes 4 s) as [[w r]|] eqn:E; [|discriminate].
  intros H. inversion H; subst. apply split_bytes_inv in E as (Hs & Hl).
  eauto.
Qed.

(** The reader and writer over little-endian bytes. *)
#[global] Instance byte_wire : Wire := {|
  write_prim := byte_write_prim;
  read_prim := byte_read_prim;
  fits := byte_fits;
  wire_round_trip := byte_wire_round_trip;
  fits_plain := byte_fits_plain;
  fits_int := byte_fits_int;
  wire_word := byte_wire_word;
  read_int_width := byte_read_int_width
|}.
(** ** The parameters of [__init__] *)

Lemma insert_sorted_false {A} (key : A -> bool) x l :
  key x = false -> insert_sorted key x l = x :: l.
Proof. intros H. destruct l; simpl; [reflexivity | now rewrite H]. Qed.

Lemma insert_sorted_true {A} (key : A -> bool) x l1 l2 :
  key x = true ->
  Forall (fun y => key y = false) l1 -> Forall (fun y => key y = true) l2 ->
  insert_sorted key x (l1 ++ l2) = l1 ++ x :: l2.
Proof.
  intros Hx H1 H2. induction H1 as [|y l1 Hy _ IH]; simpl.
  - destruct H2 as [|z l2 Hz _]; simpl; [reflexivity | now rewrite Hx, Hz].
  - rewrite Hx, Hy. simpl. now rewrite IH.
Qed.

(** Python's stable sort on a boolean key keeps the [False] elements in
    order, then the [True] ones in order. *)
Lemma sorted_bool {A} (key : A -> bool) (l : list A) :
  sorted key l
  = List.filter (fun x => negb (key x)) l ++ List.filter key l.
Proof.
  unfold sorted. induction l as [|x l IH]; simpl; [reflexivity|].
  rewrite IH. destruct (key x) eqn:Hx; simpl.
  - apply insert_sorted_true; [exact Hx | |].
    + apply List.Forall_forall. intros y Hy. apply List.filter_In in Hy as [_ Hy].
      now apply negb_true_iff in Hy.
    + apply List.Forall_forall. intros y Hy. now apply List.filter_In in Hy as [_ Hy].
  - now apply insert_sorted_false.
Qed.

Lemma filter_filter {A} (p q : A -> bool) (l : list A) :
  List.filter p (List.filter q l) = List.filter (fun x => q x && p x) l.
Proof.
  induction l as [|x l IH]; simpl; [reflexivity|].
  destruct (q x); simpl; [destruct (p x); simpl; now rewrite IH | exact IH].
Qed.

Lemma map_filter_ext {A B} (f g : A -> B) (p q : A -> bool) (l : list A) :
  (forall x, p x = q x) -> (forall x, q x = true -> f x = g x) ->
  map f (List.filter p l) = map g (List.filter q l).
Proof.
  intros Hpq Hfg. induction l as [|x l IH]; simpl; [reflexivity|].
  rewrite Hpq. destruct (q x) eqn:Hq; simpl; [|exact IH].
  now rewrite IH, Hfg.
Qed.

Lemma init_params_eq (args : list TLArg.t) :
  init_params args
  = map TLArg.name
      (List.filter (fun a => negb (TLArg.is_flag a) && negb (TLArg.flag_indicator a)
                             && negb (TLArg.generic_definition a)) args)
    ++ map (fun a => TLArg.name a +:+ "=None")
         (List.filter (fun a => TLArg.is_flag a && negb (TLArg.flag_indicator a)
                                && negb (TLArg.generic_definition a)) args).
Proof.
  unfold init_params. rewrite sorted_bool, List.filter_app, map_app, !filter_filter.
  f_equal; apply map_filter_ext.
  - intros a. destruct (TLArg.is_flag a), (TLArg.flag_indicator a),
      (TLArg.generic_definition a); reflexivity.
  - intros a Ha. destruct (TLArg.is_flag a); [discriminate | reflexivity].
  - intros a. destruct (TLArg.is_flag a), (TLArg.flag_indicator a),
      (TLArg.generic_definition a); reflexivity.
  - intros a Ha. destruct (TLArg.is_flag a); [reflexivity | discriminate].
Qed.

(** C9. The parameters of the generated constructor leave out the flag
    indicator and the generic definitions, and list the arguments that
    are not flag-gated first, in declaration order, then the flag-gated
    ones, in declaration order, each with the default [None]; the steps
    of [on_send] and [on_response] follow the declaration order of all
    arguments. *)
Theorem C9_constructor_parameters (d : TLObject.t) :
  let args := TLObject.args d in
  let required :=
    List.filter (fun a => negb (TLArg.is_flag a) && negb (TLArg.flag_indicator a)
                          && negb (TLArg.generic_definition a)) args in
  let optional :=
    List.filter (fun a => TLArg.is_flag a && negb (TLArg.flag_indicator a)
                          && negb (TLArg.generic_definition a)) args in
  exists init_body,
    class_program d
    = Some [Block (LDefInit (map TLArg.name required
                             ++ map (fun a => TLArg.name a +:+ "=None") optional))
              init_body;
            Block LDefOnSend
              (Simple (LWriteConstructorId (TLObject.id d) (TLObject.name d))
               :: flat_map (fun a => send_stmts a args None) args);
            Block LDefOnResponse
              (if TLObject.is_function d then [Simple LReadResult]
               else if nonempty args
                    then flat_map (fun a => resp_stmts a None) args
                    else [Simple LPass])].
Proof.
  intros args required optional. rewrite class_program_eq.
  unfold init_block. rewrite init_params_eq. eexists. reflexivity.
Qed.
(** ** The constructor id, and the two kinds of read routine *)

(** C2. The write routine of every definition is the write of the
    definition's own constructor id, outside any guard, followed by the
    write steps of the arguments.  The read routine of a function is
    the one statement [self.result = reader.tgread_object()]: it reads
    none of the function's arguments, and what it does is the reader's
    registry dispatch, whose result goes to [self.result]; with the
    reader of section 4.2 of the specification that is: read a
    constructor id, look it up in the registry, decode an object of
    that class.  The read routine of any other definition is, with
    nothing before them (so without a read of the id), the read steps
    of its arguments in declaration order: every argument that is not
    a generic definition has a step that reads from the reader, a step
    other than the flag indicator's assigns the attribute of the
    argument's name, and the step of a plain argument of a primitive
    type is the one read of that primitive into [self.<name>]. *)
Theorem C2_constructor_id_first (d : TLObject.t) :
  on_send d
  = Some (Simple (LWriteConstructorId (TLObject.id d) (TLObject.name d))
          :: flat_map (fun a => send_stmts a (TLObject.args d) None) (TLObject.args d))
  /\ (forall (W : Wire) wobj robj rest st,
        exec_stmts wobj robj
          (Simple (LWriteConstructorId (TLObject.id d) (TLObject.name d)) :: rest) st
        = match emit (write_prim PInt (VInt (TLObject.id d))) st with
          | Some st' => exec_stmts wobj robj rest st'
          | None => None
          end)
  /\ on_response d
     = Some (if TLObject.is_function d then [Simple LReadResult]
             else if nonempty (TLObject.args d)
                  then flat_map (fun a => resp_stmts a None) (TLObject.args d)
                  else [Simple LPass])
  /\ read_steps d = Some (flat_map (fun a => resp_stmts a None) (TLObject.args d))
  /\ render_line LReadResult = "self.result = reader.tgread_object()"%string
  /\ (forall (W : Wire) wobj robj st,
        exec_stmts wobj robj [Simple LReadResult] st
        = match robj (unread st) with
          | Some (v, rest) => Some (set_name (SelfAttr "result") v (set_unread rest st))
          | None => None
          end)
  /\ (forall (W : Wire) (reg : gmap Z TLObject.t) (n : nat) wobj st,
        exec_stmts wobj (tgread_object reg (S n)) [Simple LReadResult] st
        = match read_prim PInt (unread st) with
          | Some (VInt z, rest) =>
              match reg !! (z mod 2 ^ 32) with
              | Some cls =>
                  if class_loads cls then
                    match instantiate cls, on_response cls with
                    | Some attrs, Some body =>
                        match exec_stmts (write_object reg n) (tgread_object reg n) body
                                (PyState attrs ∅ [] rest) with
                        | Some st' =>
                            Some (set_name (SelfAttr "result")
                                    (VObject cls (self_attrs st'))
                                    (set_unread (unread st') st))
                        | None => None
                        end
                    | _, _ => None
                    end
                  else None
              | None => None
              end
          | _ => None
          end)
  /\ (forall a, a ∈ TLObject.args d -> TLArg.generic_definition a = false ->
        existsb reads (resp_stmts a None) = true
        /\ ~ In (Simple LReadResult) (resp_stmts a None)
        /\ (TLArg.flag_indicator a = false ->
            TLArg.name a ∈ flat_map assigns (resp_stmts a None))
        /\ (forall p, TLArg.flag_indicator a = false -> TLArg.is_flag a = false ->
            TLArg.is_vector a = false -> kind_of (TLArg.type a) = KPrim p ->
            resp_stmts a None = [Simple (LReadPrim p (SelfAttr (TLArg.name a)))]
            /\ forall (W : Wire) wobj robj st,
                 exec_stmts wobj robj (resp_stmts a None) st
                 = match read_prim p (unread st) with
                   | Some (v, rest) =>
                       Some (set_name (SelfAttr (TLArg.name a)) v (set_unread rest st))
                   | None => None
                   end)).
Proof.
  split; [apply on_send_eq|]. split; [reflexivity|].
  split; [apply on_response_eq|]. split; [apply read_steps_eq|].
  split; [reflexivity|]. split; [intros W wobj robj st; apply exec_stmts_single|].
  split.
  - intros W reg n wobj st. rewrite exec_stmts_single.
    cbn [exec_stmt exec_line]. unfold consume, tgread_object. cbn [object_codec snd].
    destruct (read_prim PInt (unread st)) as [[[] rest]|]; try reflexivity.
    destruct (reg !! (z mod 2 ^ 32)) as [cls|]; [|reflexivity].
    cbn [mbind option_bind]. destruct (class_loads cls); [|reflexivity].
    destruct (instantiate cls) as [attrs|]; [|reflexivity].
    cbn [mbind option_bind]. destruct (on_response cls) as [body|]; [|reflexivity].
    cbn [mbind option_bind].
    fold (write_object reg n). fold (tgread_object reg n).
    destruct (exec_stmts (write_object reg n) (tgread_object reg n) body
                (PyState attrs ∅ [] rest)) as [st'|]; reflexivity.
  - intros a _ Hg. unfold resp_stmts. rewrite Hg. cbn zeta.
    unfold default_name, guarded, resp_core.
    split; [|split; [|split]].
    + destruct (TLArg.is_flag a), (TLArg.is_vector a), (TLArg.flag_indicator a),
        (kind_of (TLArg.type a)); reflexivity.
    + destruct (TLArg.is_flag a), (TLArg.is_vector a), (TLArg.flag_indicator a),
        (kind_of (TLArg.type a)); cbn; intuition discriminate.
    + intros Hi. rewrite Hi. apply list_elem_of_In.
      destruct (TLArg.is_flag a), (TLArg.is_vector a), (kind_of (TLArg.type a));
        cbn; auto.
    + intros p Hi Hf Hv Hk. rewrite Hi, Hf, Hv, Hk. split; [reflexivity|].
      intros W wobj robj st. rewrite exec_stmts_single.
      cbn [exec_stmt resp_elem exec_line]. unfold consume.
      now destruct (read_prim p (unread st)) as [[v rest]|].
Qed.

(** C10. A definition that is not a function and has no arguments: the
    read routine is [pass] and leaves the reader and the object as they
    are; the write routine writes the constructor id, four bytes, and
    nothing else. *)
Theorem C10_no_arguments (W : Wire) (d : TLObject.t) wobj robj :
  TLObject.args d = [] ->
  TLObject.is_function d = false ->
  0 <= TLObject.id d < 2 ^ 32 ->
  exists send resp,
    on_send d = Some send /\ on_response d = Some resp
    /\ resp = [Simple LPass]
    /\ (forall st, exec_stmts wobj robj resp st = Some st)
    /\ exists bs, write_prim PInt (VInt (TLObject.id d)) = Some bs
         /\ List.length bs = 4%nat
         /\ forall st, exec_stmts wobj robj send st
                       = Some (PyState (self_attrs st) (locals st) (written st ++ bs)
                                       (unread st)).
Proof.
  intros Hargs Hfun Hid.
  rewrite on_send_eq, on_response_eq. unfold on_send_body, on_response_body.
  rewrite Hargs, Hfun. cbn [flat_map nonempty].
  eexists _, _. split; [reflexivity|]. split; [reflexivity|]. split; [reflexivity|].
  split; [reflexivity|].
  destruct (wire_word (TLObject.id d) Hid) as (bs & Hw & Hlen & _).
  exists bs. split; [exact Hw|]. split; [exact Hlen|].
  intros st. cbn [exec_stmts exec_stmt exec_line]. rewrite Hw. reflexivity.
Qed.
(** ** The registry *)

Lemma registry_entries (tlobjects : list TLObject.t) :
  List.filter is_entry (generate_registry tlobjects)
  = map (fun d => RDictEntry (TLObject.id d) d) tlobjects.
Proof.
  unfold generate_registry. simpl.
  rewrite List.filter_app. simpl. rewrite List.filter_app. simpl.
  assert (H1 : List.filter is_entry (map RImport tlobjects) = []).
  { induction tlobjects; simpl; auto. }
  assert (H2 : forall l, List.filter is_entry
                 (map (fun d => RDictEntry (TLObject.id d) d) l)
               = map (fun d => RDictEntry (TLObject.id d) d) l).
  { induction l as [|x l IH]; simpl; [reflexivity | now rewrite IH]. }
  rewrite H1, H2. simpl. now rewrite app_nil_r.
Qed.

Lemma registry_text_eq (tlobjects : list TLObject.t) :
  registry_text tlobjects
  = [triple_quote +:+ "File generated by TLObjects' generator. All changes will be ERASED"
     +:+ triple_quote; ""%string]
    ++ map (fun t => "import " +:+ get_full_file_name t) tlobjects
    ++ [""%string; "tlobjects = {"%string]
    ++ map (fun t => hex (TLObject.id t) +:+ ": " +:+ get_full_file_name t +:+ "."
                     +:+ get_class_name t +:+ ",") tlobjects
    ++ ["}"%string].
Proof.
  assert (Hi : forall l, omap render_registry_call (map RImport l)
                         = map (fun t => "import " +:+ get_full_file_name t) l).
  { induction l as [|t l IH]; [reflexivity|]. cbn. now rewrite IH. }
  assert (He : forall l,
             omap render_registry_call (map (fun t => RDictEntry (TLObject.id t) t) l)
             = map (fun t => hex (TLObject.id t) +:+ ": " +:+ get_full_file_name t +:+ "."
                             +:+ get_class_name t +:+ ",") l).
  { induction l as [|t l IH]; [reflexivity|]. cbn. now rewrite IH. }
  unfold registry_text, generate_registry.
  rewrite !omap_app, Hi, He. reflexivity.
Qed.

Lemma append_inj_r (p s1 s2 : string) : p +:+ s1 = p +:+ s2 -> s1 = s2.
Proof.
  induction p as [|c p IH]; [trivial|].
  change (String c p +:+ s1) with (String c (p +:+ s1)).
  change (String c p +:+ s2) with (String c (p +:+ s2)).
  intros H. injection H as H'. now apply IH.
Qed.

Lemma hex_digits_inj (n m : N) :
  HexadecimalString.NilZero.string_of_uint (N.to_hex_uint n)
  = HexadecimalString.NilZero.string_of_uint (N.to_hex_uint m) -> n = m.
Proof.
  assert (Hnil : forall k, N.to_hex_uint k <> Hexadecimal.Nil).
  { intros k E. pose proof (HexadecimalN.Unsigned.of_to k) as Hk.
    rewrite E in Hk. cbn in Hk. subst k. discriminate E. }
  intros H. apply HexadecimalN.Unsigned.to_uint_inj.
  pose proof (HexadecimalString.NilZero.usu _ (Hnil n)) as Hn.
  pose proof (HexadecimalString.NilZero.usu _ (Hnil m)) as Hm.
  rewrite H in Hn. congruence.
Qed.

(** [hex] gives different texts for different integers. *)
Lemma hex_inj (z1 z2 : Z) : hex z1 = hex z2 -> z1 = z2.
Proof.
  unfold hex.
  destruct (Z.ltb_spec z1 0) as [H1|H1], (Z.ltb_spec z2 0) as [H2|H2]; intros E.
  - apply (append_inj_r "-0x") in E. apply hex_digits_inj in E. lia.
  - discriminate E.
  - discriminate E.
  - apply (append_inj_r "0x") in E. apply hex_digits_inj in E. lia.
Qed.

(** C5, as stated, fails: two definitions with one constructor id, and
    the registry is emitted, with both entries. *)
Lemma C5_counterexample :
  TLObject.id dup_first = TLObject.id dup_second
  /\ ~ registry_rejected [dup_first; dup_second]
  /\ List.filter is_entry (snd (generate_tlobjecs [dup_first; dup_second]))
     = [RDictEntry 1 dup_first; RDictEntry 1 dup_second]
  /\ registry_text [dup_first; dup_second]
     = [triple_quote +:+ "File generated by TLObjects' generator. All changes will be ERASED"
        +:+ triple_quote; ""; "import tl.types.first"; "import tl.types.second"; "";
        "tlobjects = {"; "0x1: tl.types.first.First,"; "0x1: tl.types.second.Second,";
        "}"]%string.
Proof.
  split; [reflexivity|]. split; [|split; reflexivity].
  unfold registry_rejected. simpl. discriminate.
Qed.

(** C5, amended. The registry builder checks nothing and never fails:
    for every list of definitions, with or without a repeated
    constructor id, the registry file is emitted, and between
    [tlobjects = {] and [}] it holds exactly one entry
    [hex(id): module.Class,] per definition, keyed by the constructor
    id, in declaration order.  When no two definitions share an id, the
    keys of the entries are pairwise distinct. *)
Theorem C5_registry_entries (tlobjects : list TLObject.t) :
  ~ registry_rejected tlobjects
  /\ List.filter is_entry (snd (generate_tlobjecs tlobjects))
     = map (fun d => RDictEntry (TLObject.id d) d) tlobjects
  /\ registry_text tlobjects
     = [triple_quote +:+ "File generated by TLObjects' generator. All changes will be ERASED"
        +:+ triple_quote; ""%string]
       ++ map (fun t => "import " +:+ get_full_file_name t) tlobjects
       ++ [""%string; "tlobjects = {"%string]
       ++ map (fun t => hex (TLObject.id t) +:+ ": " +:+ get_full_file_name t +:+ "."
                        +:+ get_class_name t +:+ ",") tlobjects
       ++ ["}"%string]
  /\ (NoDup (map TLObject.id tlobjects) ->
      NoDup (map (fun t => hex (TLObject.id t)) tlobjects)).
Proof.
  split; [|split; [apply registry_entries|split; [apply registry_text_eq|]]].
  - unfold registry_rejected. cbn [generate_tlobjecs snd generate_registry app].
    discriminate.
  - intros Hnd.
    replace (map (fun t => hex (TLObject.id t)) tlobjects)
      with (map hex (map TLObject.id tlobjects)) by apply List.map_map.
    assert (Hinj : Inj eq eq hex) by (intros x y; apply hex_inj).
    now apply (NoDup_fmap_2 hex).
Qed.

(** A run of the theorem: two definitions with distinct ids. *)
Lemma C5_registry_entries_witness :
  NoDup (map TLObject.id [dup_first; TLObject.mk None "other" 0x2 [] false])
  /\ NoDup (map (fun t => hex (TLObject.id t))
              [dup_first; TLObject.mk None "other" 0x2 [] false]).
Proof.
  assert (H : NoDup (map TLObject.id [dup_first; TLObject.mk None "other" 0x2 [] false])).
  { apply (bool_decide_unpack _). vm_compute. exact I. }
  split; [exact H|].
  exact (proj2 (proj2 (proj2 (C5_registry_entries _))) H).
Defined.
(** ** Definitions the specification calls erroneous *)

(** C6, as stated, fails: a definition with all three errors, and its
    class is emitted in full. *)
Lemma C6_counterexample :
  generation_error [bad_def] bad_def = true
  /\ fst (generate_tlobjecs [bad_def])
     = [Some ([Writeln (LDefInit ["x=None"]); Writeln LSuperInit; Writeln LBlank;
               Writeln (LAssignAttr "x"); EndBlock;
               Writeln LDefOnSend; Writeln (LWriteConstructorId 1 "bad");
               Writeln (LIfNotNone (SelfAttr "x")); Writeln (LWriteObject (SelfAttr "x"));
               EndBlock; EndBlock;
               Writeln LDefOnResponse; Writeln (LIfFlag 40);
               Writeln (LReadObject (SelfAttr "x")); EndBlock; EndBlock],
              [bad_arg])].
Proof. split; reflexivity. Qed.

(** C6, amended. The generator validates nothing and cannot fail: for
    every definition, also one with a flag index outside [0,31], a
    flag-gated argument before its indicator or a type name that does
    not resolve, it emits the whole class, with a complete [on_send] and
    a complete [on_response]. *)
Theorem C6_generation_total (tlobjects : list TLObject.t) :
  fst (generate_tlobjecs tlobjects)
  = map (fun d => Some (flatten [init_block d;
                                 Block LDefOnSend (on_send_body d);
                                 Block LDefOnResponse (on_response_body d)],
                        TLObject.args d)) tlobjects
  /\ Forall (fun d => class_program d
                      = Some [init_block d; Block LDefOnSend (on_send_body d);
                              Block LDefOnResponse (on_response_body d)]
                      /\ on_send d = Some (on_send_body d)
                      /\ on_response d = Some (on_response_body d)) tlobjects.
Proof.
  split.
  - cbn [generate_tlobjecs fst]. apply map_ext. intros d. apply run_generate_class_eq.
  - apply Forall_forall. intros d _.
    split; [apply class_program_eq|]. split; [apply on_send_eq | apply on_response_eq].
Qed.
(** ** The recursion on a vector *)

Lemma no_frame_flag_lines all :
  forallb (fun c => negb (is_vector_frame c)) (flatten (flag_lines all)) = true.
Proof.
  unfold flatten, flag_lines. induction all as [|x all IH]; simpl; [reflexivity|].
  rewrite flat_map_app, forallb_app, IH. now destruct (TLArg.is_flag x).
Qed.

Lemma no_frame_send a all name :
  TLArg.is_vector a = false ->
  forallb (fun c => negb (is_vector_frame c)) (flatten (send_stmts a all name)) = true.
Proof.
  intros Hv. unfold send_stmts, send_core, guarded. rewrite Hv.
  destruct (TLArg.generic_definition a); [reflexivity|].
  destruct (TLArg.is_flag a), (TLArg.flag_indicator a); unfold flatten; simpl;
    rewrite ?flat_map_app, ?app_nil_r, ?forallb_app;
    fold (flatten (flag_lines all)); rewrite ?no_frame_flag_lines;
    try reflexivity; destruct (kind_of (TLArg.type a)); reflexivity.
Qed.

Lemma no_frame_resp a name :
  TLArg.is_vector a = false ->
  forallb (fun c => negb (is_vector_frame c)) (flatten (resp_stmts a name)) = true.
Proof.
  intros Hv. unfold resp_stmts, resp_core, guarded. rewrite Hv.
  destruct (TLArg.generic_definition a); [reflexivity|].
  destruct (TLArg.is_flag a), (TLArg.flag_indicator a); unfold flatten; simpl;
    try reflexivity; destruct (kind_of (TLArg.type a)); reflexivity.
Qed.

Lemma write_onsend_code_depth_1 arg args name b st a :
  st !! arg = Some a -> TLArg.is_vector a = true -> TLArg.generic_definition a = false ->
  write_onsend_code 1 arg args name (GenState b st) = None.
Proof.
  intros Ha Hv Hg. cbn [write_onsend_code].
  rewrite bind_run, (load_run _ _ _ a) by exact Ha. rewrite Hg, Hv.
  destruct (TLArg.is_flag a);
    repeat first [ gen_step | rewrite (assign_is_vector_run _ _ _ _ _ Ha) ];
    reflexivity.
Qed.

Lemma write_onresponse_code_depth_1 arg args name b st a :
  st !! arg = Some a -> TLArg.is_vector a = true -> TLArg.generic_definition a = false ->
  write_onresponse_code 1 arg args name (GenState b st) = None.
Proof.
  intros Ha Hv Hg. cbn [write_onresponse_code].
  rewrite bind_run, (load_run _ _ _ a) by exact Ha. rewrite Hg, Hv.
  destruct (TLArg.is_flag a);
    repeat first [ gen_step | rewrite (assign_is_vector_run _ _ _ _ _ Ha) ];
    reflexivity.
Qed.

(** C8. On a vector argument [write_onsend_code] and
    [write_onresponse_code] each call themselves once: one level of
    recursion is needed (with a bound of one call the run does not
    finish) and one suffices.  The nested call runs with [is_vector]
    disabled and everything else as it was, it emits the step of the
    element with no vector framing of its own, and it completes within
    a bound of one call, so it calls no further.  When the outer call
    returns, every argument object is as it was on entry. *)
Theorem C8_vector_recursion arg args name b (st : list TLArg.t) a all :
  st !! arg = Some a ->
  TLArg.is_vector a = true ->
  TLArg.generic_definition a = false ->
  (TLArg.flag_indicator a = true -> refs_hold st args all) ->
  let inner := <[arg := TLArg.set_is_vector false a]> st in
  let nm := default_name a name in
  let opened := fun h : line => if TLArg.is_flag a then [Writeln h] else [] in
  let closed := if TLArg.is_flag a then [EndBlock] else [] in
  (write_onsend_code 1 arg args name (GenState b st) = None
   /\ exists elem,
        write_onsend_code 1 arg args (Some (item_name a)) (GenState [] inner)
        = Some (tt, GenState elem inner)
        /\ forallb (fun c => negb (is_vector_frame c)) elem = true
        /\ write_onsend_code 2 arg args name (GenState b st)
           = Some (tt, GenState
                         (b ++ opened (LIfNotNone nm)
                            ++ [Writeln LWriteVectorId; Writeln (LWriteLen nm);
                                Writeln (LForIn (item_name a) nm)]
                            ++ elem ++ [EndBlock] ++ closed)
                         st))
  /\ (write_onresponse_code 1 arg args name (GenState b st) = None
      /\ exists elem,
           write_onresponse_code 1 arg args (Some (item_name a)) (GenState [] inner)
           = Some (tt, GenState elem inner)
           /\ forallb (fun c => negb (is_vector_frame c)) elem = true
           /\ write_onresponse_code 2 arg args name (GenState b st)
              = Some (tt, GenState
                            (b ++ opened (LIfFlag (TLArg.flag_index a))
                               ++ [Writeln LReadVectorId; Writeln (LInitList nm);
                                   Writeln (LReadLen nm); Writeln (LForRange nm)]
                               ++ elem ++ [Writeln (LAppend nm (item_name a)); EndBlock]
                               ++ closed)
                            st)).
Proof.
  intros Ha Hv Hg Hall inner nm opened closed.
  assert (Ha' : inner !! arg = Some (TLArg.set_is_vector false a)).
  { apply list_lookup_insert_eq. now apply lookup_lt_Some in Ha. }
  assert (exists all',
            (TLArg.flag_indicator (TLArg.set_is_vector false a) = true ->
             refs_hold inner args all')
            /\ flag_lines all' = flag_lines all) as (all' & Hall' & Hfl).
  { destruct (TLArg.flag_indicator a) eqn:Hi.
    - destruct (refs_hold_insert st args all arg false a Ha (Hall eq_refl))
        as (all' & H1 & H2).
      exists all'. split; [intros _; exact H1 | exact H2].
    - exists all. split; [|reflexivity]. destruct a; simpl in *. congruence. }
  split.
  - split; [now apply (write_onsend_code_depth_1 arg args name b st a)|].
    exists (flatten (send_stmts (TLArg.set_is_vector false a) all' (Some (item_name a)))).
    split; [|split].
    + now rewrite (write_onsend_code_scalar 0 arg args _ (GenState [] inner) _ all' Ha'
                     eq_refl Hall').
    + now apply no_frame_send.
    + rewrite (write_onsend_code_run 0 arg args name b st a all Ha Hall).
      rewrite (send_stmts_element a all all' Hg Hfl).
      unfold send_stmts, guarded, opened, closed. rewrite Hg, Hv. fold nm.
      destruct (TLArg.is_flag a); f_equal; f_equal; f_equal; list_eq.
  - split; [now apply (write_onresponse_code_depth_1 arg args name b st a)|].
    exists (flatten (resp_stmts (TLArg.set_is_vector false a) (Some (item_name a)))).
    split; [|split].
    + now rewrite (write_onresponse_code_scalar 0 arg args _ (GenState [] inner) _ Ha'
                     eq_refl).
    + now apply no_frame_resp.
    + rewrite (write_onresponse_code_run 0 arg args name b st a Ha).
      rewrite (resp_stmts_element a Hg).
      unfold resp_stmts, guarded, opened, closed. rewrite Hg, Hv. fold nm.
      destruct (TLArg.is_flag a); f_equal; f_equal; f_equal; list_eq.
Qed.
(** ** The [true] marker *)

Lemma signed32_marker z :
  0 <= z < 2 ^ 32 -> (signed32 z =? 0x3fedd339) = (z =? 0x3fedd339).
Proof.
  intros Hz. unfold signed32.
  destruct (Z.ltb_spec z (2 ^ 31)).
  - rewrite Z.mod_small by lia. f_equal. lia.
  - replace ((z + 2 ^ 31) mod 2 ^ 32) with (z - 2 ^ 31).
    + destruct (Z.eqb_spec (z - 2 ^ 31 - 2 ^ 31) 0x3fedd339),
               (Z.eqb_spec z 0x3fedd339); try reflexivity; lia.
    + apply (Z.mod_unique _ _ 1); lia.
Qed.

(** C7. An argument of the pseudo-type [true]: the write step is the
    write of the constant [0x3fedd339], four bytes, whatever the value
    of the argument (it reads no name at all).  The read step reads one
    integer, four bytes, and assigns the argument the boolean that
    tells whether that very integer equals the constant, and changes
    nothing else: on the four bytes of the constant it assigns [True],
    on the four bytes of any other 32-bit word it assigns [False].
    Both steps stand under the guard of a flag-gated argument. *)
Theorem C7_true_marker (W : Wire) wobj robj arg args name b (st : list TLArg.t) a :
  st !! arg = Some a ->
  TLArg.type a = "true"%string ->
  TLArg.is_vector a = false ->
  TLArg.flag_indicator a = false ->
  TLArg.generic_definition a = false ->
  let nm := default_name a name in
  write_onsend_code code_depth arg args name (GenState b st)
  = Some (tt, GenState (b ++ flatten (guarded (LIfNotNone nm) (TLArg.is_flag a)
                                        [Simple LWriteTrue])) st)
  /\ write_onresponse_code code_depth arg args name (GenState b st)
     = Some (tt, GenState (b ++ flatten (guarded (LIfFlag (TLArg.flag_index a))
                                           (TLArg.is_flag a) [Simple (LReadTrue nm)])) st)
  /\ (exists bs,
        write_prim PInt (VInt 0x3fedd339) = Some bs /\ List.length bs = 4%nat
        /\ (forall s, exec_line wobj robj LWriteTrue s
                      = Some (PyState (self_attrs s) (locals s) (written s ++ bs) (unread s)))
        /\ (forall s rest, unread s = bs ++ rest ->
              exec_line wobj robj (LReadTrue nm) s
              = Some (set_name nm (VBool true) (set_unread rest s))))
  /\ (forall s,
        exec_line wobj robj (LReadTrue nm) s
        = match read_prim PInt (unread s) with
          | Some (VInt z, rest) =>
              Some (set_name nm (VBool (z =? 0x3fedd339)) (set_unread rest s))
          | _ => None
          end)
  /\ (forall s s', exec_line wobj robj (LReadTrue nm) s = Some s' ->
        exists w z rest,
          unread s = w ++ rest /\ List.length w = 4%nat
          /\ read_prim PInt (unread s) = Some (VInt z, rest)
          /\ s' = set_name nm (VBool (z =? 0x3fedd339)) (set_unread rest s))
  /\ (forall z, 0 <= z < 2 ^ 32 ->
        exists w,
          write_prim PInt (VInt z) = Some w /\ List.length w = 4%nat
          /\ forall s rest, unread s = w ++ rest ->
               exec_line wobj robj (LReadTrue nm) s
               = Some (set_name nm (VBool (z =? 0x3fedd339)) (set_unread rest s))).
Proof.
  intros Ha Hty Hv Hi Hg nm.
  assert (Hk : kind_of (TLArg.type a) = KTrue) by now rewrite Hty.
  assert (Hexec : forall s,
    exec_line wobj robj (LReadTrue nm) s
    = match read_prim PInt (unread s) with
      | Some (VInt z, rest) =>
          Some (set_name nm (VBool (z =? 0x3fedd339)) (set_unread rest s))
      | _ => None
      end).
  { intros s. cbn [exec_line]. unfold consume.
    destruct (read_prim PInt (unread s)) as [[[] rest]|]; reflexivity. }
  assert (Hword : forall z, 0 <= z < 2 ^ 32 ->
    exists w,
      write_prim PInt (VInt z) = Some w /\ List.length w = 4%nat
      /\ forall s rest, unread s = w ++ rest ->
           exec_line wobj robj (LReadTrue nm) s
           = Some (set_name nm (VBool (z =? 0x3fedd339)) (set_unread rest s))).
  { intros z Hz. destruct (wire_word z Hz) as (w & Hw & Hlen & Hr).
    exists w. split; [exact Hw|]. split; [exact Hlen|].
    intros s rest Hs. rewrite Hexec, Hs, Hr. now rewrite signed32_marker. }
  split; [|split; [|split; [|split; [|split]]]].
  - unfold code_depth.
    rewrite (write_onsend_code_run 0 arg args name b st a []) by (auto; congruence).
    unfold send_stmts, send_core. now rewrite Hg, Hv, Hi, Hk.
  - unfold code_depth. rewrite (write_onresponse_code_run 0 arg args name b st a) by auto.
    unfold resp_stmts, resp_core. now rewrite Hg, Hv, Hi, Hk.
  - destruct (Hword 0x3fedd339 ltac:(lia)) as (bs & Hw & Hlen & Hr).
    exists bs. split; [exact Hw|]. split; [exact Hlen|]. split.
    + intros s. cbn [exec_line]. rewrite Hw. reflexivity.
    + exact Hr.
  - exact Hexec.
  - intros s s' Hrun. rewrite Hexec in Hrun.
    destruct (read_prim PInt (unread s)) as [[v rest]|] eqn:Hrd; [|discriminate].
    destruct (read_int_width _ _ _ Hrd) as (w & z & -> & Hs & Hlen).
    inversion Hrun; subst s'. exists w, z, rest. auto.
  - exact Hword.
Qed.
(** ** Vector framing *)

(** C4. A vector argument holding a list [l] of values at which the
    steps of the element are inverse.  What [write_onsend_code] emits
    writes the vector marker [0x1cb5c415], then the length of [l], then
    the encoding of every element of [l], in order.  What
    [write_onresponse_code] emits reads these bytes back: the marker,
    the count, and as many elements by the read step of the element,
    which it appends in order; the attribute then holds a list of the
    same length whose elements equal those of [l], one by one.  This
    holds for every length below [2^31], the range of the count, so for
    the empty list, for one element and for many. *)
Theorem C4_vector_framing (W : Wire) wobj robj (R : value -> value -> Prop)
    arg args (st : list TLArg.t) a (fv : gmap string value) (l : list value) (z : Z) :
  st !! arg = Some a ->
  TLArg.is_vector a = true -> TLArg.generic_definition a = false ->
  TLArg.flag_indicator a = false ->
  fv !! TLArg.name a = Some (VList l) ->
  Z.of_nat (List.length l) < 2 ^ 31 ->
  Forall (elem_ok wobj robj R (kind_of (TLArg.type a))) l ->
  exists send resp mk ln ebs,
    write_onsend_code code_depth arg args None (GenState [] st)
    = Some (tt, GenState (flatten send) st)
    /\ write_onresponse_code code_depth arg args None (GenState [] st)
       = Some (tt, GenState (flatten resp) st)
    /\ program (flatten send) = Some send /\ program (flatten resp) = Some resp
    /\ write_prim PInt (VInt 0x1cb5c415) = Some mk
    /\ write_prim PInt (VInt (Z.of_nat (List.length l))) = Some ln
    /\ Forall2 (elem_bytes wobj robj (kind_of (TLArg.type a))) l ebs
    /\ (forall L w u, exists L',
          exec_stmts wobj robj send (PyState fv L w u)
          = Some (PyState fv L' (w ++ mk ++ ln ++ List.concat ebs) u))
    /\ (forall g L w rest,
          (TLArg.is_flag a = true ->
             L !! "flags" = Some (VInt z)
             /\ (Z.land z (Z.shiftl 1 (Z.of_nat (TLArg.flag_index a))) =? 0) = false) ->
          exists g' l' L',
            exec_stmts wobj robj resp (PyState g L w (mk ++ ln ++ List.concat ebs ++ rest))
            = Some (PyState g' L' w rest)
            /\ g' !! TLArg.name a = Some (VList l')
            /\ List.length l' = List.length l
            /\ Forall2 (elem_rel R) l l').
Proof.
  intros Ha Hv Hg Hi Hfv Hlen Hl.
  destruct (vector_arg_round_trip wobj robj R a [] fv l z Hv Hg Hi Hfv Hlen Hl)
    as (mk & ln & ebs & Hmk & Hln & Hebs & Hw & Hr).
  exists (send_stmts a [] None), (resp_stmts a None), mk, ln, ebs.
  split; [|split; [|split; [|split]]].
  - unfold code_depth.
    rewrite (write_onsend_code_run 0 arg args None [] st a []) by (auto; congruence).
    reflexivity.
  - unfold code_depth. rewrite (write_onresponse_code_run 0 arg args None [] st a) by auto.
    reflexivity.
  - apply program_flatten, wf_send_stmts.
  - apply program_flatten, wf_resp_stmts.
  - split; [exact Hmk|]. split; [exact Hln|]. split; [exact Hebs|]. split; [exact Hw|].
    intros g L w rest HF. destruct (Hr g L w rest HF) as (l' & L' & Hrun & Hrel).
    eexists _, l', L'. split; [exact Hrun|]. split; [apply lookup_insert_eq|].
    split; [|exact Hrel]. symmetry. eapply Forall2_length, Hrel.
Qed.

Lemma ints_elem_ok :
  Forall (elem_ok (W := byte_wire) (fun _ => None) (fun _ => None) eq (KPrim PInt))
    [VInt 1; VInt 2; VInt 3].
Proof.
  repeat constructor;
    apply (elem_round_trip (fun _ => None) (fun _ => None) (fun _ => False) eq
             ltac:(intros v []) ltac:(intros v []) (KPrim PInt) _ eq_refl);
    simpl; lia.
Qed.

(** A run of the theorem: [items:Vector<int>] holding [[1, 2, 3]], over
    the byte-level reader and writer. *)
Lemma C4_vector_framing_witness :
  [items_arg] !! 0%nat = Some items_arg
  /\ Z.of_nat (List.length [VInt 1; VInt 2; VInt 3]) < 2 ^ 31
  /\ exists send resp,
       write_onsend_code code_depth 0 [0%nat] None (GenState [] [items_arg])
       = Some (tt, GenState (flatten send) [items_arg])
       /\ write_onresponse_code code_depth 0 [0%nat] None (GenState [] [items_arg])
          = Some (tt, GenState (flatten resp) [items_arg])
       /\ forall rest, exists bs g' l' L1 L2,
            exec_stmts (fun _ => None) (fun _ => None) send
              (PyState (<["items" := VList [VInt 1; VInt 2; VInt 3]]> ∅) ∅ [] [])
            = Some (PyState (<["items" := VList [VInt 1; VInt 2; VInt 3]]> ∅) L1 bs [])
            /\ exec_stmts (fun _ => None) (fun _ => None) resp (PyState ∅ ∅ [] (bs ++ rest))
               = Some (PyState g' L2 [] rest)
            /\ g' !! "items" = Some (VList l')
            /\ Forall2 (elem_rel eq) [VInt 1; VInt 2; VInt 3] l'.
Proof.
  assert (Hlen : Z.of_nat (List.length [VInt 1; VInt 2; VInt 3]) < 2 ^ 31)
    by (vm_compute; reflexivity).
  assert (Hfv : (<["items" := VList [VInt 1; VInt 2; VInt 3]]> ∅ : gmap string value)
                  !! TLArg.name items_arg = Some (VList [VInt 1; VInt 2; VInt 3]))
    by (vm_compute; reflexivity).
  split; [reflexivity|]. split; [exact Hlen|].
  destruct (C4_vector_framing byte_wire (fun _ => None) (fun _ => None) eq
              0%nat [0%nat] [items_arg] items_arg
              (<["items" := VList [VInt 1; VInt 2; VInt 3]]> ∅)
              [VInt 1; VInt 2; VInt 3] 0
              eq_refl eq_refl eq_refl eq_refl Hfv Hlen ints_elem_ok)
    as (send & resp & mk & ln & ebs & Hs & Hr & _ & _ & _ & _ & _ & Hw & Hrd).
  exists send, resp. split; [exact Hs|]. split; [exact Hr|].
  intros rest.
  destruct (Hw ∅ [] []) as (L1 & HL1).
  destruct (Hrd ∅ ∅ [] rest) as (g' & l' & L2 & Hrun & Hg' & _ & Hrel).
  { discriminate. }
  exists (mk ++ ln ++ List.concat ebs), g', l', L1, L2.
  rewrite <- !app_assoc. auto.
Defined.

(** ** The round trip *)

(** The write steps and the read steps of a definition invert each
    other, given that the steps of nested objects do. *)
Lemma steps_round_trip (W : Wire) wobj robj (ok_object : value -> Prop)
    (R : value -> value -> Prop) (d : TLObject.t) (f : gmap string value) :
  (forall v, ok_object v -> exists cls attrs, v = VObject cls attrs) ->
  (forall v, ok_object v ->
     exists bs, wobj v = Some bs /\
       forall rest, exists v', robj (bs ++ rest) = Some (v', rest) /\ R v v') ->
  wf_def d = true ->
  adm_fields ok_object d f ->
  exists bs,
    (forall L w u, exists L',
       exec_stmts wobj robj
         (flat_map (fun a => send_stmts a (TLObject.args d) None) (TLObject.args d))
         (PyState f L w u)
       = Some (PyState f L' (w ++ bs) u))
    /\ (forall g L w rest,
          (forall a, a ∈ init_attrs (TLObject.args d) -> g !! TLArg.name a = Some VNone) ->
          exists g' L',
            exec_stmts wobj robj
              (flat_map (fun a => resp_stmts a None) (TLObject.args d))
              (PyState g L w (bs ++ rest))
            = Some (PyState g' L' w rest)
            /\ forall a, a ∈ init_attrs (TLObject.args d) ->
                 exists x x', f !! TLArg.name a = Some x /\ g' !! TLArg.name a = Some x'
                              /\ field_eq (elem_rel R) x x').
Proof.
  intros Hshape Hnested Hwf (Hadm & Hcons).
  destruct (wf_def_of d Hwf) as (Hargs & Hind & _).
  exact (fields_round_trip wobj robj ok_object R Hshape Hnested f (TLObject.args d)
           Hargs Hadm Hcons Hind).
Qed.

(** From the steps to the two runs. *)
Lemma round_trips_of (W : Wire) wobj robj (R : value -> value -> Prop)
    (d : TLObject.t) (f : gmap string value) bs :
  (forall L w u, exists L',
     exec_stmts wobj robj
       (flat_map (fun a => send_stmts a (TLObject.args d) None) (TLObject.args d))
       (PyState f L w u)
     = Some (PyState f L' (w ++ bs) u)) ->
  (forall g L w rest,
     (forall a, a ∈ init_attrs (TLObject.args d) -> g !! TLArg.name a = Some VNone) ->
     exists g' L',
       exec_stmts wobj robj
         (flat_map (fun a => resp_stmts a None) (TLObject.args d))
         (PyState g L w (bs ++ rest))
       = Some (PyState g' L' w rest)
       /\ forall a, a ∈ init_attrs (TLObject.args d) ->
            exists x x', f !! TLArg.name a = Some x /\ g' !! TLArg.name a = Some x'
                         /\ field_eq (elem_rel R) x x') ->
  round_trips wobj robj R d f.
Proof.
  intros Hw Hr. exists bs. split.
  - unfold run_write. rewrite write_steps_eq. cbn [mbind option_bind].
    destruct (Hw ∅ [] []) as (L' & HL'). rewrite HL'. reflexivity.
  - intros rest. unfold run_read. rewrite read_steps_eq. cbn [mbind option_bind].
    destruct (instantiate_eq d) as (g0 & Hg0 & Hnone). rewrite Hg0.
    cbn [mbind option_bind].
    destruct (Hr g0 ∅ [] rest Hnone) as (g' & L' & Hrun & Hrel).
    rewrite Hrun. exists g'. split; [reflexivity | exact Hrel].
Qed.

(** C1, as stated, fails: [shared] with [a = 5] and [b] absent, an
    assignment of present and absent flag-gated fields.  The write
    steps write the flags word [1] and [a]; the read steps find bit 0
    set, read [a], and read [b] too, for which no bytes are left. *)
Lemma C1_counterexample :
  ~ round_trips (W := byte_wire) (fun _ => None) (fun _ => None) (fun _ _ => True)
      shared_def shared_fields
  /\ run_write (W := byte_wire) (fun _ => None) (fun _ => None) shared_def shared_fields
     = Some (le_bytes 4 1 ++ le_bytes 4 5)
  /\ run_read (W := byte_wire) (fun _ => None) (fun _ => None) shared_def
       (le_bytes 4 1 ++ le_bytes 4 5)
     = None.
Proof.
  assert (Hw : run_write (W := byte_wire) (fun _ => None) (fun _ => None)
                 shared_def shared_fields
               = Some (le_bytes 4 1 ++ le_bytes 4 5)) by (vm_compute; reflexivity).
  assert (Hr : run_read (W := byte_wire) (fun _ => None) (fun _ => None) shared_def
                 (le_bytes 4 1 ++ le_bytes 4 5) = None) by (vm_compute; reflexivity).
  split; [|split; [exact Hw | exact Hr]].
  intros (bs & Hbs & Hread). rewrite Hw in Hbs. injection Hbs as <-.
  destruct (Hread []) as (g & Hg & _). vm_compute in Hg. discriminate Hg.
Qed.

(** C1, amended.  Take a definition [d], function or not, whose class
    Python accepts (every block holds a statement, the class and the
    parameters have names, no parameter twice: [class_loads]), whose
    flag indices are below 32, whose flag-gated arguments follow a flag
    indicator and are no generic definition and no flag indicator
    themselves, whose flag indicator is no vector and no generic
    definition, that has no [bytes] argument and no argument named as
    the length attribute [<name>_len] of one of its vectors
    ([wf_def]).  Take fields [f] that give each argument that becomes an
    attribute a value of its type ([adm_fields]): a flag-gated one may
    be [None], a [true] argument holds [True], a vector holds a list of
    fewer than [2^31] values of its element type, arguments that share
    a flag bit are present or absent together, and a value of a custom
    type is an object whose own write and read invert each other (the
    runtime that does these is not in the sources).  Then the steps
    that [write_onsend_code] emits for the arguments write bytes [bs],
    and the steps that [write_onresponse_code] emits, run on a new
    object (every attribute [None]) with [bs] at the front of the
    reader, consume exactly [bs] and leave in every declared attribute
    a value equal to that of [f]. *)
Theorem C1_round_trip (W : Wire) wobj robj (ok_object : value -> Prop)
    (R : value -> value -> Prop) (d : TLObject.t) (f : gmap string value) :
  (forall v, ok_object v -> exists cls attrs, v = VObject cls attrs) ->
  (forall v, ok_object v ->
     exists bs, wobj v = Some bs /\
       forall rest, exists v', robj (bs ++ rest) = Some (v', rest) /\ R v v') ->
  wf_def d = true ->
  adm_fields ok_object d f ->
  exists send resp bs,
    write_steps d = Some send /\ read_steps d = Some resp
    /\ (forall L w u, exists L',
          exec_stmts wobj robj send (PyState f L w u) = Some (PyState f L' (w ++ bs) u))
    /\ (forall g L w rest,
          (forall a, a ∈ init_attrs (TLObject.args d) -> g !! TLArg.name a = Some VNone) ->
          exists g' L',
            exec_stmts wobj robj resp (PyState g L w (bs ++ rest))
            = Some (PyState g' L' w rest)
            /\ forall a, a ∈ init_attrs (TLObject.args d) ->
                 exists x x', f !! TLArg.name a = Some x /\ g' !! TLArg.name a = Some x'
                              /\ field_eq (elem_rel R) x x')
    /\ round_trips wobj robj R d f.
Proof.
  intros Hshape Hnested Hwf Hadm.
  destruct (steps_round_trip W wobj robj ok_object R d f Hshape Hnested Hwf Hadm)
    as (bs & Hw & Hr).
  exists (flat_map (fun a => send_stmts a (TLObject.args d) None) (TLObject.args d)),
         (flat_map (fun a => resp_stmts a None) (TLObject.args d)), bs.
  split; [apply write_steps_eq|]. split; [apply read_steps_eq|].
  split; [exact Hw|]. split; [exact Hr|].
  now apply (round_trips_of W wobj robj R d f bs).
Qed.

Ltac in_list H :=
  apply list_elem_of_In in H; simpl in H;
  repeat (destruct H as [<-|H]; [|]); try contradiction.

Lemma example_value_admissible :
  admissible (W := byte_wire) example_registry 1 example_value.
Proof.
  split; [vm_compute; reflexivity|]. split; [reflexivity|].
  split; [simpl; lia|]. split; [vm_compute; reflexivity|]. split.
  - change (init_attrs (TLObject.args example_def)) with [n_arg].
    constructor; [|constructor].
    exists (VInt 5). split; [reflexivity|]. right. simpl. lia.
  - intros a b Ha Hb Hfa Hfb _. in_list Ha; in_list Hb; try discriminate. reflexivity.
Qed.

Lemma holder_fields_admissible :
  adm_fields (W := byte_wire) (admissible example_registry 1) holder_def holder_fields.
Proof.
  split.
  - change (init_attrs (TLObject.args holder_def)) with [inner_arg; items_arg].
    constructor; [|constructor; [|constructor]].
    + exists example_value. split; [reflexivity|]. right.
      exact example_value_admissible.
    + exists (VList [VInt 1; VInt 2; VInt 3]). split; [reflexivity|]. right.
      exists [VInt 1; VInt 2; VInt 3]. split; [reflexivity|].
      split; [vm_compute; reflexivity|].
      repeat constructor; simpl; lia.
  - intros a b Ha Hb Hfa Hfb _. in_list Ha; in_list Hb; try discriminate. reflexivity.
Qed.

(** A run of the theorem: an object with a flags word, a present
    optional nested object and a vector; the nested object is written
    and read by the runtime of section 4.2 over a registry that holds
    its class. *)
Lemma C1_round_trip_witness :
  wf_def holder_def = true
  /\ adm_fields (W := byte_wire) (admissible example_registry 1) holder_def holder_fields
  /\ round_trips (W := byte_wire) (write_object example_registry 1)
       (tgread_object example_registry 1) (same_fields 1) holder_def holder_fields.
Proof.
  assert (Hwf : wf_def holder_def = true) by (vm_compute; reflexivity).
  split; [exact Hwf|]. split; [exact holder_fields_admissible|].
  destruct (C1_round_trip byte_wire (write_object example_registry 1)
              (tgread_object example_registry 1) (admissible example_registry 1)
              (same_fields 1) holder_def holder_fields
              (admissible_shape example_registry 1)
              (object_round_trip example_registry 1) Hwf holder_fields_admissible)
    as (send & resp & bs & _ & _ & _ & _ & H).
  exact H.
Defined.

(** ** The flags word *)

(** C3, as stated, fails: two optional arguments on one flag bit, [a]
    present and [b] absent, one of the four combinations.  Bit 0 is
    set and only [a] is written; the read routine reads both: it runs
    out of bytes, and with four more bytes in the stream it reads them
    as [b], which was not written. *)
Lemma C3_counterexample :
  ~ presence_preserved (W := byte_wire) (fun _ => None) (fun _ => None)
      shared_def shared_fields
  /\ option_map (fun r => (fst r !! "a"%string, fst r !! "b"%string, snd r))
       (run_read (W := byte_wire) (fun _ => None) (fun _ => None) shared_def
          (le_bytes 4 1 ++ le_bytes 4 5 ++ le_bytes 4 7))
     = Some (Some (VInt 5), Some (VInt 7), []).
Proof.
  split; [|vm_compute; reflexivity].
  assert (Hw : run_write (W := byte_wire) (fun _ => None) (fun _ => None)
                 shared_def shared_fields
               = Some (le_bytes 4 1 ++ le_bytes 4 5)) by (vm_compute; reflexivity).
  intros (bs & Hbs & Hread). rewrite Hw in Hbs. injection Hbs as <-.
  destruct (Hread []) as (g & Hg & _). vm_compute in Hg. discriminate Hg.
Qed.

Lemma field_eq_presence (R : value -> value -> Prop) x x' :
  (forall v v', R v v' -> v' <> VNone) ->
  field_eq (elem_rel R) x x' -> (x' = VNone <-> x = VNone).
Proof.
  intros HR. unfold field_eq, elem_rel.
  destruct x; try (intros <-; tauto).
  - destruct x'; try (intros E; discriminate E). intros _. split; discriminate.
  - intros H. apply HR in H. split; [contradiction | discriminate].
Qed.

(** C3, amended.  For a definition whose flag indices are below 32 and
    fields that give every flag-gated argument a value or [None]:
    the flags word is the OR of [1 << flag_index] over the flag-gated
    arguments that are not [None] (a bit is set exactly when an
    argument of that index is present), it fits 32 bits, the write step
    of the flag indicator writes it as one 32-bit integer and the read
    step of the flag indicator reads it into [flags].  When moreover
    the arguments that share a flag index are present or absent
    together, the bit of every flag-gated argument is set exactly when
    the argument is present: its write step runs the inner write
    exactly then, and its read step, under the guard on that bit of
    the word read back, runs the inner read exactly then.  For a
    definition and fields that also meet the conditions of the amended
    C1, the whole read routine leaves [None] exactly the flag-gated
    arguments that were [None] when written. *)
Theorem C3_flag_symmetry (W : Wire) wobj robj (d : TLObject.t) (f : gmap string value) :
  let all := TLObject.args d in
  let mask := flags_value f all in
  (forall a, a ∈ all -> TLArg.is_flag a = true -> (TLArg.flag_index a < 32)%nat) ->
  (forall a, a ∈ all -> TLArg.is_flag a = true -> exists v, f !! TLArg.name a = Some v) ->
  write_steps d = Some (flat_map (fun a => send_stmts a all None) all)
  /\ read_steps d = Some (flat_map (fun a => resp_stmts a None) all)
  /\ 0 <= mask < 2 ^ 32
  /\ (forall i, 0 <= i ->
        Z.testbit mask i = true
        <-> exists a v, a ∈ all /\ TLArg.is_flag a = true
                        /\ Z.of_nat (TLArg.flag_index a) = i
                        /\ f !! TLArg.name a = Some v /\ v <> VNone)
  /\ (exists bs,
        List.length bs = 4%nat /\ write_prim PInt (VInt mask) = Some bs
        /\ forall ind,
             TLArg.flag_indicator ind = true -> TLArg.is_vector ind = false ->
             TLArg.generic_definition ind = false -> TLArg.is_flag ind = false ->
             (forall L w u,
                exec_stmts wobj robj (send_stmts ind all None) (PyState f L w u)
                = Some (PyState f (<["flags" := VInt mask]> L) (w ++ bs) u))
             /\ (forall g L w rest,
                   exec_stmts wobj robj (resp_stmts ind None) (PyState g L w (bs ++ rest))
                   = Some (PyState g (<["flags" := VInt (signed32 mask)]> L) w rest)))
  /\ (flags_consistent all f ->
      forall a, a ∈ all -> TLArg.is_flag a = true ->
        exists v wbody rbody,
          f !! TLArg.name a = Some v
          /\ Z.testbit mask (Z.of_nat (TLArg.flag_index a)) = negb (is_none v)
          /\ (TLArg.generic_definition a = false ->
              send_stmts a all None = [Block (LIfNotNone (SelfAttr (TLArg.name a))) wbody]
              /\ resp_stmts a None = [Block (LIfFlag (TLArg.flag_index a)) rbody]
              /\ (forall L w u,
                    exec_stmts wobj robj (send_stmts a all None) (PyState f L w u)
                    = if is_none v then Some (PyState f L w u)
                      else exec_stmts wobj robj wbody (PyState f L w u))
              /\ (forall st, locals st !! "flags"%string = Some (VInt (signed32 mask)) ->
                    exec_stmts wobj robj (resp_stmts a None) st
                    = if is_none v then Some st else exec_stmts wobj robj rbody st)))
  /\ (forall ok_object : value -> Prop,
        (forall v, ok_object v -> exists cls attrs, v = VObject cls attrs) ->
        (forall v, ok_object v ->
           exists bs, wobj v = Some bs /\
             forall rest, exists cls attrs, robj (bs ++ rest) = Some (VObject cls attrs, rest)) ->
        wf_def d = true ->
        adm_fields ok_object d f ->
        presence_preserved wobj robj d f).
Proof.
  intros all mask Hidx Hval.
  split; [apply write_steps_eq|]. split; [apply read_steps_eq|].
  split; [now apply flags_word_bound|].
  split; [intros i Hi; now apply flags_word_bit|].
  split; [|split].
  - destruct (wire_word mask (flags_word_bound f all Hidx)) as (bs & Hw & Hlen & _).
    exists bs. split; [exact Hlen|]. split; [exact Hw|].
    intros ind Hi Hv Hg Hf.
    destruct (indicator_steps wobj robj f all Hidx Hval ind Hi)
      as (bs' & _ & Hw' & Hs & Hr).
    fold mask in Hw'. rewrite Hw in Hw'. inversion Hw'; subst bs'.
    unfold send_stmts, resp_stmts, guarded. rewrite Hg, Hv, Hf.
    split; [intros L w u; apply Hs | intros g L w rest; apply Hr].
  - intros Hcons a Ha Hf.
    destruct (flags_word_guard f all Hidx Hval Hcons a Ha Hf) as (v & Hv & Hbit).
    pose proof (Hidx a Ha Hf) as Hlt.
    unfold send_stmts, resp_stmts, guarded, default_name. rewrite Hf.
    eexists v, _, _. split; [exact Hv|]. split.
    { rewrite land_pow2_eqb, signed32_testbit in Hbit by lia.
      fold mask. rewrite <- Hbit. now rewrite negb_involutive. }
    intros Hg. rewrite Hg. split; [reflexivity|]. split; [reflexivity|]. split.
    + intros L w u. rewrite exec_stmts_single, exec_stmt_block.
      cbn [exec_block get_name self_attrs]. rewrite Hv.
      destruct (is_none v); reflexivity.
    + intros st Hst. rewrite exec_stmts_single, exec_stmt_block.
      cbn [exec_block]. unfold flags_var. cbn [get_name]. rewrite Hst.
      fold mask in Hbit. rewrite Hbit. destruct (is_none v); reflexivity.
  - intros ok_object Hshape Hnested Hwf Hadm.
    set (R := fun (_ v' : value) => v' <> VNone).
    destruct (steps_round_trip W wobj robj ok_object R d f Hshape) as (bs & Hw & Hr);
      [|exact Hwf|exact Hadm|].
    { intros v Hv. destruct (Hnested v Hv) as (bs & Hbs & Hrd).
      exists bs. split; [exact Hbs|]. intros rest.
      destruct (Hrd rest) as (cls & attrs & E). eexists. split; [exact E|].
      unfold R. discriminate. }
    destruct (round_trips_of W wobj robj R d f bs Hw Hr) as (bs' & Hrun & Hread).
    exists bs'. split; [exact Hrun|].
    intros rest. destruct (Hread rest) as (g & Hg & Hfields).
    exists g. split; [exact Hg|].
    intros a Ha Hf.
    destruct (wf_def_of d Hwf) as (Hargs & _ & _).
    destruct (wf_arg_of (TLObject.args d) Hargs a Ha) as (H1 & _).
    destruct (H1 Hf) as (_ & Hgd & Hi).
    destruct (Hfields a) as (x & x' & Hx & Hx' & Hrel).
    { apply elem_of_init_attrs. split; [exact Ha|]. unfold is_attr. now rewrite Hgd, Hi. }
    rewrite Hx, Hx'. apply (field_eq_presence R) in Hrel; [|auto].
    split; intros E; inversion E; subst; f_equal; tauto.
Qed.

Lemma holder_flags_ok :
  (forall a, a ∈ TLObject.args holder_def -> TLArg.is_flag a = true ->
     (TLArg.flag_index a < 32)%nat)
  /\ (forall a, a ∈ TLObject.args holder_def -> TLArg.is_flag a = true ->
        exists v, holder_fields !! TLArg.name a = Some v)
  /\ flags_consistent (TLObject.args holder_def) holder_fields.
Proof.
  split; [|split].
  - intros a Ha Hf. in_list Ha; try discriminate. simpl. lia.
  - intros a Ha Hf. in_list Ha; try discriminate. now exists example_value.
  - intros a b Ha Hb Hfa Hfb _. in_list Ha; in_list Hb; try discriminate. reflexivity.
Qed.

(** A run of the theorem: the holder object, whose optional [inner] is
    present; bit 1 of the flags word is set. *)
Lemma C3_flag_symmetry_witness :
  flags_value holder_fields (TLObject.args holder_def) = 2
  /\ exists v, holder_fields !! "inner"%string = Some v
       /\ Z.testbit (flags_value holder_fields (TLObject.args holder_def)) 1
          = negb (is_none v).
Proof.
  split; [reflexivity|].
  destruct holder_flags_ok as (Hidx & Hval & Hcons).
  destruct (C3_flag_symmetry byte_wire (fun _ => None) (fun _ => None)
              holder_def holder_fields Hidx Hval)
    as (_ & _ & _ & _ & _ & Hguard & _).
  destruct (Hguard Hcons inner_arg) as (v & _ & _ & Hv & Hbit & _).
  - apply list_elem_of_In. simpl. auto.
  - reflexivity.
  - exists v. split; [exact Hv | exact Hbit].
Defined.
(** ** Runs of the theorems with hypotheses *)

(** A run of C2: [clash#8 items_len:int items:Vector<int>], whose read
    routine starts with the read of [items_len]. *)
Lemma C2_constructor_id_first_witness :
  items_len_arg ∈ TLObject.args clash_def
  /\ on_send clash_def
     = Some (Simple (LWriteConstructorId 8 "clash")
             :: flat_map (fun a => send_stmts a (TLObject.args clash_def) None)
                  (TLObject.args clash_def))
  /\ resp_stmts items_len_arg None = [Simple (LReadPrim PInt (SelfAttr "items_len"))]
  /\ existsb reads (resp_stmts items_len_arg None) = true.
Proof.
  assert (Hin : items_len_arg ∈ TLObject.args clash_def).
  { apply list_elem_of_In. left. reflexivity. }
  destruct (C2_constructor_id_first clash_def)
    as (Hsend & _ & _ & _ & _ & _ & _ & Hargs).
  destruct (Hargs items_len_arg Hin eq_refl) as (Hreads & _ & _ & Hprim).
  destruct (Hprim PInt eq_refl eq_refl eq_refl eq_refl) as (Hstep & _).
  split; [exact Hin|]. split; [exact Hsend|]. split; [exact Hstep | exact Hreads].
Defined.

(** A run of C7: [silent:flags.5?true]; over the byte-level reader the
    bytes of the word 7 are read as [False]. *)
Lemma C7_true_marker_witness :
  [silent_arg] !! 0%nat = Some silent_arg
  /\ TLArg.type silent_arg = "true"%string
  /\ write_onsend_code code_depth 0 [0%nat] None (GenState [] [silent_arg])
     = Some (tt, GenState [Writeln (LIfNotNone (SelfAttr "silent")); Writeln LWriteTrue;
                           EndBlock] [silent_arg])
  /\ write_onresponse_code code_depth 0 [0%nat] None (GenState [] [silent_arg])
     = Some (tt, GenState [Writeln (LIfFlag 5); Writeln (LReadTrue (SelfAttr "silent"));
                           EndBlock] [silent_arg])
  /\ exec_line (W := byte_wire) (fun _ => None) (fun _ => None)
       (LReadTrue (SelfAttr "silent")) (PyState ∅ ∅ [] (le_bytes 4 7 ++ []))
     = Some (PyState (<["silent" := VBool false]> ∅) ∅ [] []).
Proof.
  split; [reflexivity|]. split; [reflexivity|].
  destruct (C7_true_marker byte_wire (fun _ => None) (fun _ => None) 0%nat [0%nat] None []
              [silent_arg] silent_arg eq_refl eq_refl eq_refl eq_refl eq_refl)
    as (Hs & Hr & _ & _ & _ & Hword).
  split; [exact Hs|]. split; [exact Hr|].
  destruct (Hword 7 ltac:(lia)) as (w & Hw & _ & Hread).
  assert (E' : Some w = Some (le_bytes 4 7)) by (rewrite <- Hw; reflexivity).
  assert (E : w = le_bytes 4 7) by congruence.
  subst w. exact (Hread (PyState ∅ ∅ [] (le_bytes 4 7 ++ [])) [] eq_refl).
Defined.

(** A run of C8: [items:Vector<int>]. *)
Lemma C8_vector_recursion_witness :
  [items_arg] !! 0%nat = Some items_arg
  /\ TLArg.is_vector items_arg = true
  /\ write_onsend_code 1 0 [0%nat] None (GenState [] [items_arg]) = None
  /\ write_onresponse_code 1 0 [0%nat] None (GenState [] [items_arg]) = None.
Proof.
  split; [reflexivity|]. split; [reflexivity|].
  destruct (C8_vector_recursion 0%nat [0%nat] None [] [items_arg] items_arg [items_arg]
              eq_refl eq_refl eq_refl ltac:(discriminate))
    as ((Hs & _) & (Hr & _)).
  split; [exact Hs | exact Hr].
Defined.

(** A run of C10: [empty#7 = Empty]. *)
Lemma C10_no_arguments_witness :
  TLObject.args empty_def = [] /\ TLObject.is_function empty_def = false
  /\ 0 <= TLObject.id empty_def < 2 ^ 32
  /\ on_send empty_def = Some [Simple (LWriteConstructorId 7 "empty")]
  /\ on_response empty_def = Some [Simple LPass].
Proof.
  assert (Hid : 0 <= TLObject.id empty_def < 2 ^ 32) by (simpl; lia).
  split; [reflexivity|]. split; [reflexivity|]. split; [exact Hid|].
  destruct (C10_no_arguments byte_wire empty_def (fun _ => None) (fun _ => None)
              eq_refl eq_refl Hid) as (send & resp & Hs & Hr & -> & _).
  split; [reflexivity | exact Hr].
Defined.

(** The lines of the class of [example#1a2b3c4d flags:# n:flags.0?int]
    from [__init__] on, without the docstring of the parameters (lines
    68-79). *)
Example example_class_text :
  option_map (fun r => map (fun c => match c with
                                     | Writeln l => render_line l
                                     | EndBlock => "<end_block>"%string
                                     end) (fst r))
             (run_generate_class example_def)
  = Some ["def __init__(self, n=None):"; "super().__init__()"; ""; "self.n = n";
          "<end_block>";
          "def on_send(self, writer):";
          "writer.write_int(0x1a2b3c4d)  # example's constructor ID";
          "# Calculate the flags. This equals to those flag arguments which are NOT None";
          "flags = 0"; "flags |= (1 << 0) if self.n is not None else 0";
          "writer.write_int(flags)"; "";
          "if self.n is not None:"; "writer.write_int(self.n)"; "<end_block>";
          "<end_block>";
          "def on_response(self, reader):";
          "flags = reader.read_int()"; "";
          "if (flags & (1 << 0)) != 0:"; "self.n = reader.read_int()"; "<end_block>";
          "<end_block>"]%string.
Proof. reflexivity. Qed.

(** The scenarios of section 8 of the specification, over the byte-level
    reader and writer: [n = None] and [n = 5], written with the
    constructor id in front and read back through a registry that
    holds the class. *)
Example example_none_bytes :
  write_object (W := byte_wire) example_registry 1
    (VObject example_def (<["n" := VNone]> ∅))
  = Some (le_bytes 4 0x1a2b3c4d ++ le_bytes 4 0)
  /\ tgread_object (W := byte_wire) example_registry 1
       (le_bytes 4 0x1a2b3c4d ++ le_bytes 4 0)
     = Some (VObject example_def (<["n" := VNone]> ∅), []).
Proof. split; vm_compute; reflexivity. Qed.

Example example_five_bytes :
  write_object (W := byte_wire) example_registry 1 example_value
  = Some (le_bytes 4 0x1a2b3c4d ++ le_bytes 4 1 ++ le_bytes 4 5)
  /\ tgread_object (W := byte_wire) example_registry 1
       (le_bytes 4 0x1a2b3c4d ++ le_bytes 4 1 ++ le_bytes 4 5)
     = Some (example_value, []).
Proof. split; vm_compute; reflexivity. Qed.

(** The steps of the arguments of a function invert each other like
    those of any definition; it is the function's [on_response] that
    does not hold them. *)
Example function_steps :
  run_write (W := byte_wire) (fun _ => None) (fun _ => None) fn_def (<["x" := VInt 5]> ∅)
  = Some (le_bytes 4 5)
  /\ option_map (fun r => (fst r !! "x"%string, snd r))
       (run_read (W := byte_wire) (fun _ => None) (fun _ => None) fn_def (le_bytes 4 5))
     = Some (Some (VInt 5), [])
  /\ on_response fn_def = Some [Simple LReadResult].
Proof. repeat split; vm_compute; reflexivity. Qed.

(** Objects the round trip fails for, which the conditions of the
    amended C1 leave out: an argument named as the length attribute of
    a vector is overwritten by the count; a [true] argument that holds
    [False] is read back as [True]; and the class of a definition whose
    arguments are all generic definitions has an [on_response] without
    a body. *)
Example length_attribute_clash :
  wf_def clash_def = false
  /\ run_write (W := byte_wire) (fun _ => None) (fun _ => None) clash_def clash_fields
     = Some (le_bytes 4 7 ++ le_bytes 4 0x1cb5c415 ++ le_bytes 4 2 ++ le_bytes 4 1
             ++ le_bytes 4 2)
  /\ option_map (fun r => (fst r !! "items_len"%string, fst r !! "items"%string, snd r))
       (run_read (W := byte_wire) (fun _ => None) (fun _ => None) clash_def
          (le_bytes 4 7 ++ le_bytes 4 0x1cb5c415 ++ le_bytes 4 2 ++ le_bytes 4 1
           ++ le_bytes 4 2))
     = Some (Some (VInt 2), Some (VList [VInt 1; VInt 2]), []).
Proof. repeat split; vm_compute; reflexivity. Qed.

Example true_marker_false :
  run_write (W := byte_wire) (fun _ => None) (fun _ => None) quiet_def quiet_fields
  = Some (le_bytes 4 (2 ^ 5) ++ le_bytes 4 0x3fedd339)
  /\ option_map (fun r => (fst r !! "silent"%string, snd r))
       (run_read (W := byte_wire) (fun _ => None) (fun _ => None) quiet_def
          (le_bytes 4 (2 ^ 5) ++ le_bytes 4 0x3fedd339))
     = Some (Some (VBool true), []).
Proof. split; vm_compute; reflexivity. Qed.

Example generic_only_class :
  on_response gen_def = Some []
  /\ class_loads gen_def = false
  /\ wf_def gen_def = false.
Proof. repeat split; vm_compute; reflexivity. Qed.

(** A flag named [self], as the schema of Telegram has one: [__init__]
    would take [self] twice, which Python refuses. *)
Example self_parameter :
  init_params [flags_arg; TLArg.mk "self" "true" false true 10 false false false]
  = ["self=None"%string]
  /\ class_loads (TLObject.mk None "user" 0x1
                    [flags_arg; TLArg.mk "self" "true" false true 10 false false false]
                    false)
     = false.
Proof. split; vm_compute; reflexivity. Qed.

(** * Further properties: names, files and the shape of the code *)

(** ** Class names and file names *)

Ltac by_chars c :=
  destruct c as [[] [] [] [] [] [] [] []]; vm_compute; try reflexivity; try discriminate;
  try tauto.

Lemma lower_char_not_upper c : is_upper (lower_char c) = false.
Proof. by_chars c. Qed.

Lemma lower_char_underscore c : Ascii.eqb (lower_char c) "_" = Ascii.eqb c "_".
Proof. by_chars c. Qed.

Lemma upper_char_underscore c : Ascii.eqb (upper_char c) "_" = Ascii.eqb c "_".
Proof. by_chars c. Qed.

Lemma lower_upper_char c : lower_char (upper_char c) = lower_char c.
Proof. by_chars c. Qed.

Lemma is_lower_not_underscore c : is_lower c = true -> Ascii.eqb c "_" = false.
Proof. by_chars c. Qed.

Lemma is_upper_not_underscore c : is_upper c = true -> Ascii.eqb c "_" = false.
Proof. by_chars c. Qed.

Lemma lower_char_fixed c : is_upper c = false -> lower_char c = c.
Proof. unfold lower_char. now intros ->. Qed.

Lemma string_length_ind (P : string -> Prop) :
  (forall s, (forall s', (String.length s' < String.length s)%nat -> P s') -> P s) ->
  forall s, P s.
Proof.
  intros H s. remember (String.length s) as n eqn:Hn.
  revert s Hn. induction n as [n IH] using lt_wf_ind. intros s ->.
  apply H. intros s' Hs'. now apply (IH _ Hs').
Qed.

(** The equations of the substitutions. *)
Lemma sub_word_eq inside c s' :
  sub_word inside (String c s')
  = if inside && is_lower c then String c (sub_word true s')
    else match s' with
         | String u (String l s'') =>
             if negb (Ascii.eqb c "010") && is_upper u && is_lower l
             then String c (String "_" (String u (String l (sub_word true s''))))
             else String c (sub_word false s')
         | _ => String c (sub_word false s')
         end.
Proof. reflexivity. Qed.

Lemma sub_hump_eq c u s'' :
  sub_hump (String c (String u s''))
  = if (is_lower c || is_digit c) && is_upper u
    then String c (String "_" (String u (sub_hump s'')))
    else String c (sub_hump (String u s'')).
Proof. reflexivity. Qed.

Lemma sub_underscore_eq c d s'' :
  sub_underscore (String c (String d s''))
  = if Ascii.eqb c "_" && is_lower d
    then String (upper_char d) (sub_underscore s'')
    else String c (sub_underscore (String d s'')).
Proof. reflexivity. Qed.

Lemma remove_char_app c s1 s2 :
  remove_char c (s1 +:+ s2) = remove_char c s1 +:+ remove_char c s2.
Proof.
  induction s1 as [|x s1 IH]; simpl; [reflexivity|].
  destruct (Ascii.eqb x c); simpl; now rewrite IH.
Qed.

Lemma remove_lower s : remove_char "_" (lower s) = lower (remove_char "_" s).
Proof.
  unfold lower. induction s as [|c s IH]; simpl; [reflexivity|].
  rewrite lower_char_underscore. destruct (Ascii.eqb c "_"); simpl; now rewrite IH.
Qed.

Lemma remove_sub_word s : forall inside,
  remove_char "_" (sub_word inside s) = remove_char "_" s.
Proof.
  induction s as [s IH] using string_length_ind. intros inside.
  destruct s as [|c s']; [reflexivity|].
  rewrite sub_word_eq.
  destruct (inside && is_lower c).
  { cbn [remove_char]. rewrite IH by (simpl; lia). reflexivity. }
  destruct s' as [|u [|l s'']].
  - reflexivity.
  - cbn [remove_char]. rewrite IH by (simpl; lia). reflexivity.
  - destruct (negb (Ascii.eqb c "010") && is_upper u && is_lower l) eqn:Hm.
    + cbn [remove_char]. rewrite (IH s'') by (simpl; lia).
      change (Ascii.eqb "_" "_") with true. cbv iota. reflexivity.
    + change (remove_char "_" (String c (sub_word false (String u (String l s'')))))
        with (if Ascii.eqb c "_" then remove_char "_" (sub_word false (String u (String l s'')))
              else String c (remove_char "_" (sub_word false (String u (String l s''))))).
      rewrite (IH (String u (String l s''))) by (simpl; lia).
      reflexivity.
Qed.

Lemma remove_sub_hump s : remove_char "_" (sub_hump s) = remove_char "_" s.
Proof.
  induction s as [s IH] using string_length_ind.
  destruct s as [|c [|u s'']]; [reflexivity| reflexivity|].
  rewrite sub_hump_eq.
  destruct ((is_lower c || is_digit c) && is_upper u).
  - cbn [remove_char]. rewrite (IH s'') by (simpl; lia).
    change (Ascii.eqb "_" "_") with true. cbv iota. reflexivity.
  - change (remove_char "_" (String c (sub_hump (String u s''))))
      with (if Ascii.eqb c "_" then remove_char "_" (sub_hump (String u s''))
            else String c (remove_char "_" (sub_hump (String u s'')))).
    rewrite (IH (String u s'')) by (simpl; lia). reflexivity.
Qed.

Lemma lower_no_upper s : all_chars (fun c => negb (is_upper c)) (lower s) = true.
Proof.
  unfold lower. induction s as [|c s IH]; simpl; [reflexivity|].
  now rewrite lower_char_not_upper, IH.
Qed.

Lemma remove_get_file_name (tlobject : TLObject.t) :
  remove_char "_" (get_file_name tlobject false)
  = lower (remove_char "_" (TLObject.name tlobject)).
Proof.
  unfold get_file_name. now rewrite remove_lower, remove_sub_hump, remove_sub_word.
Qed.

(** X1. The file name of a definition with an ASCII name holds no
    upper-case letter, and it spells the definition's name: without its
    underscores it is the name in lower case without the name's
    underscores.  The two substitutions add underscores and change
    nothing else. *)
Theorem get_file_name_spelling (tlobject : TLObject.t) :
  ascii_only (TLObject.name tlobject) = true ->
  all_chars (fun c => negb (is_upper c)) (get_file_name tlobject false) = true
  /\ remove_char "_" (get_file_name tlobject false)
     = lower (remove_char "_" (TLObject.name tlobject))
  /\ get_file_name tlobject true = get_file_name tlobject false +:+ ".py".
Proof.
  intros _.
  split; [apply lower_no_upper|]. split; [apply remove_get_file_name | reflexivity].
Qed.

Lemma sub_word_fixed s : forall inside,
  all_chars (fun c => negb (is_upper c)) s = true -> sub_word inside s = s.
Proof.
  induction s as [s IH] using string_length_ind. intros inside Hs.
  destruct s as [|c s']; [reflexivity|].
  cbn [all_chars] in Hs. apply andb_prop in Hs as [Hc Hs'].
  rewrite sub_word_eq.
  destruct (inside && is_lower c).
  { rewrite IH by (simpl; auto with lia). reflexivity. }
  destruct s' as [|u [|l s'']].
  - reflexivity.
  - rewrite IH by (simpl; auto with lia). reflexivity.
  - cbn [all_chars] in Hs'. pose proof Hs' as Hs''. apply andb_prop in Hs'' as [Hu _].
    apply negb_true_iff in Hu. rewrite Hu, andb_false_r. cbn [andb].
    rewrite IH by (simpl; auto with lia). reflexivity.
Qed.

Lemma sub_hump_fixed s :
  all_chars (fun c => negb (is_upper c)) s = true -> sub_hump s = s.
Proof.
  induction s as [s IH] using string_length_ind. intros Hs.
  destruct s as [|c [|u s'']]; [reflexivity| reflexivity|].
  cbn [all_chars] in Hs. apply andb_prop in Hs as [Hc Hs'].
  pose proof Hs' as Hs''. cbn [all_chars] in Hs''. apply andb_prop in Hs'' as [Hu _].
  apply negb_true_iff in Hu.
  rewrite sub_hump_eq, Hu, andb_false_r.
  rewrite (IH (String u s'')) by (simpl; auto with lia). reflexivity.
Qed.

Lemma lower_fixed s :
  all_chars (fun c => negb (is_upper c)) s = true -> lower s = s.
Proof.
  unfold lower. induction s as [|c s IH]; simpl; [reflexivity|].
  intros H. apply andb_prop in H as [Hc Hs]. apply negb_true_iff in Hc.
  now rewrite lower_char_fixed, IH.
Qed.

(** X2. An ASCII name without upper-case letters is its own file name:
    the patterns match at an upper-case letter only. *)
Theorem get_file_name_lower_case (tlobject : TLObject.t) :
  ascii_only (TLObject.name tlobject) = true ->
  all_chars (fun c => negb (is_upper c)) (TLObject.name tlobject) = true ->
  get_file_name tlobject false = TLObject.name tlobject
  /\ get_file_name tlobject true = TLObject.name tlobject +:+ ".py".
Proof.
  intros _ H. unfold get_file_name.
  rewrite (sub_word_fixed _ _ H), (sub_hump_fixed _ H), (lower_fixed _ H). auto.
Qed.

Lemma substring_all s : substring 0 (String.length s) s = s.
Proof. induction s as [|c s IH]; simpl; [reflexivity|]. now rewrite IH. Qed.

Lemma slice_from_1 c s : slice_from 1 (String c s) = s.
Proof.
  unfold slice_from. cbn [String.length].
  replace (S (String.length s) - 1)%nat with (String.length s) by lia.
  cbn [substring]. apply substring_all.
Qed.

Lemma slice_to_1 c s : slice_to 1 (String c s) = String c EmptyString.
Proof. unfold slice_to. simpl. now destruct s. Qed.

(** The class name, by the first character of the substituted name. *)
Lemma get_class_name_eq (tlobject : TLObject.t) :
  get_class_name tlobject
  = match sub_underscore (TLObject.name tlobject) with
    | EmptyString => EmptyString
    | String c r => String (upper_char c) (remove_char "_" r)
    end.
Proof.
  unfold get_class_name. destruct (sub_underscore (TLObject.name tlobject)) as [|c r].
  - reflexivity.
  - now rewrite slice_to_1, slice_from_1.
Qed.

Lemma has_char_remove c s : has_char c (remove_char c s) = false.
Proof.
  unfold has_char. apply negb_false_iff.
  induction s as [|x s IH]; simpl; [reflexivity|].
  destruct (Ascii.eqb x c) eqn:Hx; [exact IH|]. simpl. now rewrite Hx, IH.
Qed.

Lemma has_char_cons c x s : has_char c (String x s) = Ascii.eqb x c || has_char c s.
Proof. unfold has_char. simpl. now rewrite negb_andb, negb_involutive. Qed.

Lemma upper_char_lower_underscore d :
  is_lower d = true -> Ascii.eqb (upper_char d) "_" = false.
Proof. intros H. rewrite upper_char_underscore. now apply is_lower_not_underscore. Qed.

(** The first character of the substituted name. *)
Lemma sub_underscore_head s :
  starts_with "_" (sub_underscore s)
  = match s with
    | String c (String d _) => Ascii.eqb c "_" && negb (is_lower d)
    | String c EmptyString => Ascii.eqb c "_"
    | EmptyString => false
    end.
Proof.
  destruct s as [|c [|d s'']]; [reflexivity| reflexivity|].
  rewrite sub_underscore_eq.
  destruct (Ascii.eqb c "_") eqn:Hc, (is_lower d) eqn:Hd; cbn [andb negb starts_with].
  - now apply upper_char_lower_underscore.
  - exact Hc.
  - exact Hc.
  - exact Hc.
Qed.

(** X3. A class name holds no underscore behind its first character.
    Its first character is an underscore exactly when the definition's
    name starts with an underscore that no letter of [a-z] follows: the
    final [replace] leaves the first character out. *)
Theorem get_class_name_underscores (tlobject : TLObject.t) :
  has_char "_" (slice_from 1 (get_class_name tlobject)) = false
  /\ (has_char "_" (get_class_name tlobject) = true
      <-> exists rest, TLObject.name tlobject = String "_" rest
                       /\ forall d r, rest = String d r -> is_lower d = false).
Proof.
  rewrite get_class_name_eq.
  pose proof (sub_underscore_head (TLObject.name tlobject)) as Hh.
  destruct (sub_underscore (TLObject.name tlobject)) as [|c r] eqn:Hr.
  - split; [reflexivity|]. split; [discriminate|].
    intros (rest & Hn & Hrest). rewrite Hn in Hh.
    destruct rest as [|d r']; [discriminate|].
    cbn in Hh. rewrite (Hrest d r' eq_refl) in Hh. discriminate.
  - rewrite slice_from_1. split; [apply has_char_remove|].
    rewrite has_char_cons, has_char_remove, orb_false_r, upper_char_underscore.
    cbn [starts_with] in Hh. rewrite Hh.
    destruct (TLObject.name tlobject) as [|c0 [|d s'']].
    + split; [discriminate|]. intros (rest & Hn & _). discriminate.
    + split.
      * intros Hc. apply Ascii.eqb_eq in Hc as ->. exists EmptyString.
        split; [reflexivity|]. discriminate.
      * intros (rest & Hn & _). injection Hn as -> _. reflexivity.
    + split.
      * intros Hc. apply andb_prop in Hc as [Hc Hd]. apply Ascii.eqb_eq in Hc as ->.
        exists (String d s''). split; [reflexivity|].
        intros d' r' Heq. injection Heq as <- _. now apply negb_true_iff.
      * intros (rest & Hn & Hrest). injection Hn as -> <-.
        now rewrite (Hrest d s'' eq_refl).
Qed.

Lemma has_char_false_cons c x s :
  has_char c (String x s) = false -> Ascii.eqb x c = false /\ has_char c s = false.
Proof. rewrite has_char_cons. apply orb_false_elim. Qed.

Lemma sub_underscore_fixed s : has_char "_" s = false -> sub_underscore s = s.
Proof.
  induction s as [|c s IH]; [reflexivity|]. intros H.
  apply has_char_false_cons in H as [Hc Hs].
  destruct s as [|d s'']; [reflexivity|].
  rewrite sub_underscore_eq, Hc. cbn [andb]. now rewrite IH.
Qed.

Lemma remove_char_fixed c s : has_char c s = false -> remove_char c s = s.
Proof.
  induction s as [|x s IH]; [reflexivity|]. intros H.
  apply has_char_false_cons in H as [Hc Hs]. simpl. now rewrite Hc, IH.
Qed.

(** X4. The class name of a name without underscores is the name with
    its first character in upper case. *)
Theorem get_class_name_capitalises (tlobject : TLObject.t) :
  has_char "_" (TLObject.name tlobject) = false ->
  get_class_name tlobject
  = upper (slice_to 1 (TLObject.name tlobject)) +:+ slice_from 1 (TLObject.name tlobject).
Proof.
  intros H. unfold get_class_name. rewrite (sub_underscore_fixed _ H).
  destruct (TLObject.name tlobject) as [|c s]; [reflexivity|].
  rewrite slice_from_1. apply has_char_false_cons in H as [_ Hs].
  now rewrite (remove_char_fixed _ _ Hs).
Qed.

Lemma remove_char_idem c s : remove_char c (remove_char c s) = remove_char c s.
Proof. apply remove_char_fixed, has_char_remove. Qed.

Lemma lower_remove_sub_underscore s :
  lower (remove_char "_" (sub_underscore s)) = lower (remove_char "_" s).
Proof.
  induction s as [s IH] using string_length_ind.
  destruct s as [|c [|d s'']]; [reflexivity| reflexivity|].
  rewrite sub_underscore_eq.
  destruct (Ascii.eqb c "_") eqn:Hc, (is_lower d) eqn:Hd; cbn [andb].
  - cbn [remove_char]. rewrite Hc, (upper_char_lower_underscore _ Hd),
      (is_lower_not_underscore _ Hd).
    unfold lower in *. cbn [map_chars]. rewrite lower_upper_char.
    now rewrite (IH s'') by (simpl; lia).
  - change (remove_char "_" (String c (sub_underscore (String d s''))))
      with (if Ascii.eqb c "_" then remove_char "_" (sub_underscore (String d s''))
            else String c (remove_char "_" (sub_underscore (String d s'')))).
    change (remove_char "_" (String c (String d s'')))
      with (if Ascii.eqb c "_" then remove_char "_" (String d s'')
            else String c (remove_char "_" (String d s''))).
    rewrite Hc. apply IH. simpl; lia.
  - change (remove_char "_" (String c (sub_underscore (String d s''))))
      with (if Ascii.eqb c "_" then remove_char "_" (sub_underscore (String d s''))
            else String c (remove_char "_" (sub_underscore (String d s'')))).
    change (remove_char "_" (String c (String d s'')))
      with (if Ascii.eqb c "_" then remove_char "_" (String d s'')
            else String c (remove_char "_" (String d s''))).
    rewrite Hc. unfold lower in *. cbn [map_chars]. f_equal. apply IH. simpl; lia.
  - change (remove_char "_" (String c (sub_underscore (String d s''))))
      with (if Ascii.eqb c "_" then remove_char "_" (sub_underscore (String d s''))
            else String c (remove_char "_" (sub_underscore (String d s'')))).
    change (remove_char "_" (String c (String d s'')))
      with (if Ascii.eqb c "_" then remove_char "_" (String d s'')
            else String c (remove_char "_" (String d s''))).
    rewrite Hc. unfold lower in *. cbn [map_chars]. f_equal. apply IH. simpl; lia.
Qed.

(** X5. The class name of a definition with an ASCII name spells the
    definition's name: without underscores and in lower case the two
    are equal.  So the class name and the file name of such a
    definition agree up to case and underscores. *)
Theorem get_class_name_spelling (tlobject : TLObject.t) :
  ascii_only (TLObject.name tlobject) = true ->
  lower (remove_char "_" (get_class_name tlobject))
  = lower (remove_char "_" (TLObject.name tlobject))
  /\ remove_char "_" (get_file_name tlobject false)
     = lower (remove_char "_" (get_class_name tlobject)).
Proof.
  intros _.
  assert (H : lower (remove_char "_" (get_class_name tlobject))
              = lower (remove_char "_" (TLObject.name tlobject))).
  { rewrite get_class_name_eq, <- (lower_remove_sub_underscore (TLObject.name tlobject)).
    destruct (sub_underscore (TLObject.name tlobject)) as [|c r]; [reflexivity|].
    cbn [remove_char]. rewrite upper_char_underscore, remove_char_idem.
    destruct (Ascii.eqb c "_"); [reflexivity|].
    unfold lower. cbn [map_chars]. now rewrite lower_upper_char. }
  split; [exact H|]. rewrite H. apply remove_get_file_name.
Qed.

Lemma get_file_name_fixed (tlobject : TLObject.t) :
  all_chars (fun c => negb (is_upper c)) (TLObject.name tlobject) = true ->
  get_file_name tlobject false = TLObject.name tlobject.
Proof.
  intros H. unfold get_file_name.
  now rewrite (sub_word_fixed _ _ H), (sub_hump_fixed _ H), (lower_fixed _ H).
Qed.

Lemma all_chars_false_neq p s1 s2 :
  all_chars p s1 = true -> all_chars p s2 = false -> s1 <> s2.
Proof. intros H1 H2 ->. congruence. Qed.

(** X6. Spelling a definition's name as its file name gives a
    definition with the same file name, the same module and the same
    file; if the name holds an upper-case letter, this is another name.
    Two definitions of one kind and namespace whose names differ in
    this way are written to one file. *)
Theorem file_name_collision (tlobject : TLObject.t) :
  let snake := rename tlobject (get_file_name tlobject false) in
  get_file_name snake true = get_file_name tlobject true
  /\ get_full_file_name snake = get_full_file_name tlobject
  /\ class_filename snake = class_filename tlobject
  /\ (all_chars (fun c => negb (is_upper c)) (TLObject.name tlobject) = false ->
      TLObject.name snake <> TLObject.name tlobject).
Proof.
  intros snake.
  assert (H : forall b, get_file_name snake b = get_file_name tlobject b).
  { assert (H0 : get_file_name snake false = get_file_name tlobject false).
    { apply get_file_name_fixed. apply lower_no_upper. }
    intros []; [|exact H0].
    change (get_file_name snake true) with (get_file_name snake false +:+ ".py").
    now rewrite H0. }
  split; [apply H|]. split; [|split].
  - unfold get_full_file_name. now rewrite H.
  - unfold class_filename. now rewrite H.
  - intros Hu. apply (all_chars_false_neq (fun c => negb (is_upper c))); [|exact Hu].
    apply lower_no_upper.
Qed.

Lemma class_files_snoc l t :
  class_files (l ++ [t]) = <[class_filename t := t]> (class_files l).
Proof. unfold class_files. now rewrite foldl_app. Qed.

(** ** The registry imports the files that were written *)

Lemma str_app_cons c (s1 s2 : string) : String c s1 +:+ s2 = String c (s1 +:+ s2).
Proof. reflexivity. Qed.

Lemma str_app_assoc (s1 s2 s3 : string) : (s1 +:+ s2) +:+ s3 = s1 +:+ (s2 +:+ s3).
Proof.
  induction s1 as [|c s1 IH]; [reflexivity|]. rewrite !str_app_cons. now f_equal.
Qed.

Lemma map_chars_app f s1 s2 :
  map_chars f (s1 +:+ s2) = map_chars f s1 +:+ map_chars f s2.
Proof.
  induction s1 as [|c s1 IH]; [reflexivity|].
  rewrite str_app_cons. cbn [map_chars]. rewrite str_app_cons. now f_equal.
Qed.

Lemma all_chars_app p s1 s2 :
  all_chars p (s1 +:+ s2) = all_chars p s1 && all_chars p s2.
Proof.
  induction s1 as [|c s1 IH]; [reflexivity|].
  rewrite str_app_cons. cbn [all_chars]. now rewrite IH, andb_assoc.
Qed.

Lemma all_chars_sub_word p s : forall inside,
  p "_"%char = true -> all_chars p s = true -> all_chars p (sub_word inside s) = true.
Proof.
  induction s as [s IH] using string_length_ind. intros inside Hp Hs.
  destruct s as [|c s']; [reflexivity|].
  pose proof Hs as Hs0. cbn [all_chars] in Hs0. apply andb_prop in Hs0 as [Hc Hs'].
  rewrite sub_word_eq.
  destruct (inside && is_lower c).
  { cbn [all_chars]. rewrite Hc. apply IH; [simpl; lia | exact Hp | exact Hs']. }
  destruct s' as [|u [|l s'']].
  - exact Hs.
  - cbn [all_chars]. rewrite Hc. apply IH; [simpl; lia | exact Hp | exact Hs'].
  - destruct (negb (Ascii.eqb c "010") && is_upper u && is_lower l).
    + cbn [all_chars] in *. apply andb_prop in Hs' as [Hu Hs']. apply andb_prop in Hs' as [Hl Hs'].
      rewrite Hc, Hp, Hu, Hl. apply IH; [simpl; lia | exact Hp | exact Hs'].
    + change (all_chars p (String c (sub_word false (String u (String l s'')))))
        with (p c && all_chars p (sub_word false (String u (String l s'')))).
      rewrite Hc. apply IH; [simpl; lia | exact Hp | exact Hs'].
Qed.

Lemma all_chars_sub_hump p s :
  p "_"%char = true -> all_chars p s = true -> all_chars p (sub_hump s) = true.
Proof.
  induction s as [s IH] using string_length_ind. intros Hp Hs.
  destruct s as [|c [|u s'']]; [reflexivity| exact Hs|].
  pose proof Hs as Hs0. cbn [all_chars] in Hs0. apply andb_prop in Hs0 as [Hc Hs'].
  rewrite sub_hump_eq.
  destruct ((is_lower c || is_digit c) && is_upper u).
  - apply andb_prop in Hs' as [Hu Hs']. cbn [all_chars]. rewrite Hc, Hp, Hu.
    apply IH; [simpl; lia | exact Hp | exact Hs'].
  - change (all_chars p (String c (sub_hump (String u s''))))
      with (p c && all_chars p (sub_hump (String u s''))).
    rewrite Hc. apply IH; [simpl; lia | exact Hp |].
    exact Hs'.
Qed.

Lemma part_char_lower c : part_char (lower_char c) = part_char c.
Proof. by_chars c. Qed.

Lemma plain_part_lower s : plain_part (lower s) = plain_part s.
Proof.
  unfold plain_part, lower. induction s as [|c s IH]; simpl; [reflexivity|].
  now rewrite part_char_lower, IH.
Qed.

Lemma plain_part_file_name (tlobject : TLObject.t) :
  plain_part (TLObject.name tlobject) = true ->
  plain_part (get_file_name tlobject false) = true.
Proof.
  intros H. unfold get_file_name. rewrite plain_part_lower.
  apply all_chars_sub_hump; [reflexivity|]. apply all_chars_sub_word; [reflexivity|].
  exact H.
Qed.

Definition dots_to_slashes (s : string) : string :=
  map_chars (fun c => if Ascii.eqb c "." then "/"%char else c) s.

Lemma dots_to_slashes_plain s : plain_part s = true -> dots_to_slashes s = s.
Proof.
  unfold plain_part, dots_to_slashes. induction s as [|c s IH]; simpl; [reflexivity|].
  intros H. apply andb_prop in H as [Hc Hs]. unfold part_char in Hc.
  apply andb_prop in Hc as [_ Hc]. apply negb_true_iff in Hc. now rewrite Hc, IH.
Qed.

Lemma plain_part_starts s : plain_part s = true -> starts_with "/" s = false.
Proof.
  destruct s as [|c s]; [reflexivity|]. unfold plain_part. simpl.
  intros H. apply andb_prop in H as [Hc _]. unfold part_char in Hc.
  apply andb_prop in Hc as [Hc _]. now apply negb_true_iff in Hc.
Qed.

Lemma ends_with_app c s1 s2 :
  s2 <> EmptyString -> ends_with c (s1 +:+ s2) = ends_with c s2.
Proof.
  intros H2. induction s1 as [|x s1 IH]; [reflexivity|].
  rewrite str_app_cons. cbn [ends_with]. rewrite IH.
  destruct (s1 +:+ s2) eqn:E; [|reflexivity].
  destruct s1; [|discriminate]. now destruct s2.
Qed.

Lemma plain_part_ends s : plain_part s = true -> ends_with "/" s = false.
Proof.
  unfold plain_part. induction s as [|c s IH]; [reflexivity|].
  simpl. intros H. apply andb_prop in H as [Hc Hs]. unfold part_char in Hc.
  apply andb_prop in Hc as [Hc _]. apply negb_true_iff in Hc.
  destruct s; [exact Hc | now apply IH].
Qed.

Lemma path_join_plain path b :
  path <> EmptyString -> ends_with "/" path = false -> starts_with "/" b = false ->
  path_join path b = path +:+ "/" +:+ b.
Proof.
  intros Hp He Hs. unfold path_join. rewrite Hs, He.
  destruct (String.eqb path "") eqn:E; [|reflexivity].
  now apply String.eqb_eq in E.
Qed.

Lemma class_filename_plain (tlobject : TLObject.t) :
  plain_part (TLObject.name tlobject) = true ->
  plain_namespace (TLObject.namespace tlobject) = true ->
  module_file (get_full_file_name tlobject) = class_filename tlobject.
Proof.
  intros Hn Hns. pose proof (plain_part_file_name _ Hn) as Hf.
  unfold module_file. fold (dots_to_slashes (get_full_file_name tlobject)).
  unfold class_filename, out_dir, get_full_file_name.
  change (get_file_name tlobject true) with (get_file_name tlobject false +:+ ".py").
  set (file := get_file_name tlobject false) in *.
  assert (Hfile : starts_with "/" (file +:+ ".py") = false).
  { destruct file as [|c f]; [reflexivity|]. apply (plain_part_starts (String c f) Hf). }
  set (kind := if TLObject.is_function tlobject then "functions"%string else "types"%string).
  assert (Hk : path_join "tl" kind = "tl/" +:+ kind /\ plain_part kind = true
               /\ kind <> EmptyString
               /\ (if TLObject.is_function tlobject
                   then "tl.functions."%string else "tl.types."%string)
                  = "tl." +:+ kind +:+ ".").
  { unfold kind. destruct (TLObject.is_function tlobject); repeat split; discriminate. }
  destruct Hk as (-> & Hkp & Hkn & Hkd).
  assert (Hroot : forall s, dots_to_slashes ("tl." +:+ kind +:+ "." +:+ s)
                            = "tl/" +:+ kind +:+ "/" +:+ dots_to_slashes s).
  { intros s. unfold dots_to_slashes. rewrite !map_chars_app.
    fold (dots_to_slashes kind). now rewrite (dots_to_slashes_plain _ Hkp). }
  assert (Hdir : ends_with "/" ("tl/" +:+ kind) = false).
  { rewrite ends_with_app by exact Hkn. now apply plain_part_ends. }
  destruct (TLObject.namespace tlobject) as [ns|].
  - cbn [plain_namespace] in Hns. apply andb_prop in Hns as [Hne Hnp].
    apply negb_true_iff, String.eqb_neq in Hne.
    rewrite (path_join_plain ("tl/" +:+ kind) ns);
      [| discriminate | exact Hdir | now apply plain_part_starts].
    rewrite path_join_plain; [| discriminate | | exact Hfile].
    + replace (match TLObject.is_function tlobject with
               | true => "tl.functions." +:+ (ns +:+ "." +:+ file)
               | false => "tl.types." +:+ (ns +:+ "." +:+ file)
               end)
        with (("tl." +:+ kind +:+ ".") +:+ (ns +:+ "." +:+ file))
        by (rewrite <- Hkd; now destruct (TLObject.is_function tlobject)).
      rewrite !str_app_assoc. cbn [String.append]. rewrite <- !str_app_assoc.
      rewrite (str_app_assoc ("tl." +:+ kind +:+ ".") ns), !str_app_assoc.
      change ("tl." +:+ (kind +:+ ("." +:+ (ns +:+ ("." +:+ file)))))
        with ("tl." +:+ kind +:+ "." +:+ (ns +:+ "." +:+ file)).
      rewrite Hroot. unfold dots_to_slashes at 1. rewrite !map_chars_app.
      fold (dots_to_slashes ns) (dots_to_slashes file).
      rewrite (dots_to_slashes_plain _ Hnp), (dots_to_slashes_plain _ Hf).
      cbn [map_chars Ascii.eqb]. rewrite !str_app_assoc. reflexivity.
    + replace (("tl/" +:+ kind) +:+ "/" +:+ ns) with ((("tl/" +:+ kind) +:+ "/") +:+ ns)
        by now rewrite !str_app_assoc.
      rewrite ends_with_app by exact Hne. now apply plain_part_ends.
  - rewrite path_join_plain; [| discriminate | exact Hdir | exact Hfile].
    replace (match TLObject.is_function tlobject with
             | true => "tl.functions." +:+ file
             | false => "tl.types." +:+ file
             end)
      with (("tl." +:+ kind +:+ ".") +:+ file)
      by (rewrite <- Hkd; now destruct (TLObject.is_function tlobject)).
    rewrite !str_app_assoc.
    change ("tl." +:+ (kind +:+ ("." +:+ file))) with ("tl." +:+ kind +:+ "." +:+ file).
    rewrite Hroot, (dots_to_slashes_plain _ Hf), !str_app_assoc. reflexivity.
Qed.

(** X8. For every definition the registry file holds its [import] and
    its dictionary entry [hex(id): module.Class,].  For a definition
    whose name and namespace hold no slash and no dot (the namespace, if
    there is one, not empty), the module that is imported and that the
    entry names is the file the class was written to. *)
Theorem registry_imports_class_file (tlobjects : list TLObject.t) (tlobject : TLObject.t) :
  tlobject ∈ tlobjects ->
  plain_part (TLObject.name tlobject) = true ->
  plain_namespace (TLObject.namespace tlobject) = true ->
  let module := get_full_file_name tlobject in
  ("import " +:+ module) ∈ registry_text tlobjects
  /\ (hex (TLObject.id tlobject) +:+ ": " +:+ module +:+ "." +:+ get_class_name tlobject
      +:+ ",") ∈ registry_text tlobjects
  /\ module_file module = class_filename tlobject.
Proof.
  intros Hin Hn Hns module. rewrite registry_text_eq.
  split; [|split].
  - apply elem_of_app. right. apply elem_of_app. left.
    apply (list_elem_of_fmap_2 (fun t => "import " +:+ get_full_file_name t) _ _ Hin).
  - apply elem_of_app. right. apply elem_of_app. right. apply elem_of_app. right.
    apply elem_of_app. left.
    apply (list_elem_of_fmap_2
             (fun t => hex (TLObject.id t) +:+ ": " +:+ get_full_file_name t +:+ "."
                       +:+ get_class_name t +:+ ",") _ _ Hin).
  - now apply class_filename_plain.
Qed.

(** ** Camel case becomes snake case *)

(** The first substitution of [get_file_name] as a search for matches:
    where the pattern matches, the replacement is written and the search
    goes on behind the match; elsewhere the character is copied. *)
Lemma sub_word_inside w rest :
  all_chars is_lower w = true -> starts_with_lower rest = false ->
  sub_word true (w +:+ rest) = w +:+ sub_word false rest.
Proof.
  intros Hw Hrest. induction w as [|c w IH].
  - change (EmptyString +:+ rest) with rest.
    change (EmptyString +:+ sub_word false rest) with (sub_word false rest).
    destruct rest as [|c s']; [reflexivity|].
    rewrite !sub_word_eq.
    cbn [starts_with_lower] in Hrest. now rewrite Hrest, !andb_false_r.
  - cbn [all_chars] in Hw. apply andb_prop in Hw as [Hc Hw].
    rewrite str_app_cons, sub_word_eq, Hc. cbn [andb]. now rewrite IH.
Qed.

Lemma sub_word_match c u l w rest :
  Ascii.eqb c "010" = false -> is_upper u = true ->
  all_chars is_lower (String l w) = true -> starts_with_lower rest = false ->
  sub_word false (String c (String u (String l (w +:+ rest))))
  = String c (String "_" (String u (String l (w +:+ sub_word false rest)))).
Proof.
  intros Hc Hu Hw Hrest. pose proof Hw as Hw'.
  cbn [all_chars] in Hw'. apply andb_prop in Hw' as [Hl Hw'].
  rewrite sub_word_eq. cbn [andb]. rewrite Hc, Hu, Hl. cbn [negb andb].
  now rewrite (sub_word_inside w rest Hw' Hrest).
Qed.

Lemma sub_word_no_match c s :
  match s with
  | String u (String l _) => negb (Ascii.eqb c "010") && is_upper u && is_lower l
  | _ => false
  end = false ->
  sub_word false (String c s) = String c (sub_word false s).
Proof.
  intros H. rewrite sub_word_eq. cbn [andb].
  destruct s as [|u [|l s'']]; try reflexivity. now rewrite H.
Qed.

Lemma str_app_nil_r (s : string) : s +:+ "" = s.
Proof. induction s as [|c s IH]; [reflexivity|]. rewrite str_app_cons. now f_equal. Qed.

Lemma is_lower_not_upper c : is_lower c = true -> is_upper c = false.
Proof. by_chars c. Qed.

Lemma is_lower_not_newline c : is_lower c = true -> Ascii.eqb c "010" = false.
Proof. by_chars c. Qed.

Lemma is_upper_not_lower c : is_upper c = true -> is_lower c = false.
Proof. by_chars c. Qed.

Lemma is_upper_not_digit c : is_upper c = true -> is_digit c = false.
Proof. by_chars c. Qed.

Lemma all_lower_no_upper s :
  all_chars is_lower s = true -> all_chars (fun c => negb (is_upper c)) s = true.
Proof.
  induction s as [|c s IH]; [reflexivity|]. cbn [all_chars]. intros H.
  apply andb_prop in H as [Hc Hs]. now rewrite (is_lower_not_upper _ Hc), IH.
Qed.

Lemma camel_word_spec w :
  camel_word w = true ->
  is_upper (fst w) = true
  /\ exists l v, snd w = String l v /\ is_lower l = true /\ all_chars is_lower v = true.
Proof.
  unfold camel_word. intros H. apply andb_prop in H as [H Hv]. apply andb_prop in H as [Hu Hn].
  split; [exact Hu|]. destruct (snd w) as [|l v]; [discriminate|].
  cbn [all_chars] in Hv. apply andb_prop in Hv as [Hl Hv]. now exists l, v.
Qed.

Lemma alternate_starts b words :
  forallb camel_word words = true -> starts_with_lower (alternate b words) = false.
Proof.
  destruct words as [|w rest]; [reflexivity|]. cbn [forallb alternate]. intros H.
  apply andb_prop in H as [Hw _]. apply camel_word_spec in Hw as [Hu _].
  destruct b; [reflexivity|]. cbn. now apply is_upper_not_lower.
Qed.

Lemma run_of_cons u v rest :
  run_of ((u, v) :: rest) = String u (v +:+ run_of rest).
Proof. reflexivity. Qed.

Lemma run_of_starts words :
  forallb camel_word words = true -> starts_with_lower (run_of words) = false.
Proof.
  destruct words as [|[u v] rest]; [reflexivity|]. cbn [forallb]. intros H.
  apply andb_prop in H as [Hw _]. apply camel_word_spec in Hw as [Hu _].
  rewrite run_of_cons. cbn. now apply is_upper_not_lower.
Qed.

Lemma alternate_cons b u v rest :
  alternate b ((u, v) :: rest)
  = if b then String "_" (String u (v +:+ alternate false rest))
    else String u (v +:+ alternate true rest).
Proof. now destruct b. Qed.

Lemma sub_word_words words :
  forallb camel_word words = true ->
  sub_word false (run_of words) = alternate false words
  /\ forall w, w <> EmptyString -> all_chars is_lower w = true ->
       sub_word false (w +:+ run_of words) = w +:+ alternate true words.
Proof.
  induction words as [|[u v] rest IH]; intros Hw.
  - split; [reflexivity|]. intros w _ Hl. cbn [run_of map cat alternate].
    rewrite str_app_nil_r. now apply sub_word_fixed, all_lower_no_upper.
  - cbn [forallb] in Hw. apply andb_prop in Hw as [Hx Hrest].
    destruct (IH Hrest) as [IHb IHa].
    apply camel_word_spec in Hx as (Hu & l & v' & Hv & Hl & Hv'). cbn [fst snd] in Hu, Hv.
    subst v. rewrite run_of_cons, !alternate_cons. split.
    + rewrite sub_word_no_match.
      * f_equal. apply IHa; [discriminate|]. cbn [all_chars]. now rewrite Hl, Hv'.
      * rewrite str_app_cons. rewrite (is_lower_not_upper _ Hl).
        match goal with
        | |- match ?x with _ => _ end = false =>
            destruct x; [reflexivity | now rewrite andb_false_r]
        end.
    + intros w Hne Hw. induction w as [|c w IHw]; [congruence|].
      cbn [all_chars] in Hw. apply andb_prop in Hw as [Hc Hw].
      rewrite !str_app_cons. destruct w as [|c' w''].
      * change (EmptyString +:+ ?x) with x.
        rewrite (sub_word_match c u l v' (run_of rest));
          [ | now apply is_lower_not_newline | exact Hu
            | cbn [all_chars]; now rewrite Hl, Hv' | now apply run_of_starts ].
        now rewrite IHb.
      * rewrite sub_word_no_match.
        -- f_equal. apply IHw; [discriminate | exact Hw].
        -- rewrite str_app_cons. cbn [all_chars] in Hw. apply andb_prop in Hw as [Hc' _].
           rewrite (is_lower_not_upper _ Hc').
           match goal with
           | |- match ?x with _ => _ end = false =>
               destruct x; [reflexivity | now rewrite andb_false_r]
           end.
Qed.

Lemma sub_hump_cons_plain c s :
  starts_with_upper s = false -> sub_hump (String c s) = String c (sub_hump s).
Proof.
  destruct s as [|u s'']; [reflexivity|]. cbn [starts_with_upper]. intros Hu.
  now rewrite sub_hump_eq, Hu, andb_false_r.
Qed.

Lemma sub_hump_run_plain w s :
  all_chars is_lower w = true -> starts_with_upper s = false ->
  sub_hump (w +:+ s) = w +:+ sub_hump s.
Proof.
  intros Hw Hs. induction w as [|c w IH]; [reflexivity|].
  cbn [all_chars] in Hw. apply andb_prop in Hw as [Hc Hw].
  rewrite !str_app_cons, sub_hump_cons_plain; [now rewrite IH|].
  destruct w as [|c' w'']; [exact Hs|].
  cbn [all_chars] in Hw. apply andb_prop in Hw as [Hc' _].
  rewrite str_app_cons. cbn. now apply is_lower_not_upper.
Qed.

Lemma sub_hump_run_upper w u s :
  w <> EmptyString -> all_chars is_lower w = true -> is_upper u = true ->
  sub_hump (w +:+ String u s) = w +:+ String "_" (String u (sub_hump s)).
Proof.
  intros Hne Hw Hu. induction w as [|c w IH]; [congruence|].
  cbn [all_chars] in Hw. apply andb_prop in Hw as [Hc Hw].
  rewrite !str_app_cons. destruct w as [|c' w''].
  - change (EmptyString +:+ ?x) with x. now rewrite sub_hump_eq, Hc, Hu.
  - rewrite sub_hump_cons_plain; [f_equal; apply IH; [discriminate | exact Hw]|].
    cbn [all_chars] in Hw. apply andb_prop in Hw as [Hc' _].
    rewrite str_app_cons. cbn. now apply is_lower_not_upper.
Qed.

Lemma sub_hump_words words :
  forallb camel_word words = true ->
  forall b w, w <> EmptyString -> all_chars is_lower w = true ->
    sub_hump (w +:+ alternate b words) = w +:+ snake_upper words.
Proof.
  induction words as [|[u v] rest IH]; intros Hws b w Hne Hw.
  - cbn [alternate snake_upper map cat]. rewrite str_app_nil_r.
    now apply sub_hump_fixed, all_lower_no_upper.
  - cbn [forallb] in Hws. apply andb_prop in Hws as [Hx Hrest].
    apply camel_word_spec in Hx as (Hu & l & v' & Hv & Hl & Hv'). cbn [fst snd] in Hu, Hv.
    assert (Hvl : all_chars is_lower v = true) by (subst v; cbn [all_chars]; now rewrite Hl, Hv').
    assert (Hvn : v <> EmptyString) by (subst v; discriminate).
    rewrite alternate_cons.
    change (snake_upper ((u, v) :: rest))
      with (String "_" (String u (v +:+ snake_upper rest))).
    destruct b.
    + rewrite sub_hump_run_plain by first [exact Hw | reflexivity].
      f_equal. rewrite sub_hump_eq. cbn [is_lower is_digit in_range nat_of_ascii].
      change ((is_lower "_" || is_digit "_") && is_upper u) with false. cbv iota.
      f_equal. rewrite sub_hump_cons_plain.
      * f_equal. apply IH; assumption.
      * subst v. rewrite str_app_cons. cbn. now apply is_lower_not_upper.
    + rewrite sub_hump_run_upper by assumption.
      do 3 f_equal. apply IH; assumption.
Qed.

Lemma lower_app s1 s2 : lower (s1 +:+ s2) = lower s1 +:+ lower s2.
Proof. apply map_chars_app. Qed.

Lemma lower_snake_upper words :
  forallb camel_word words = true ->
  lower (snake_upper words)
  = cat (map (fun w => String "_" (String (lower_char (fst w)) (snd w))) words).
Proof.
  induction words as [|[u v] rest IH]; [reflexivity|]. cbn [forallb]. intros H.
  apply andb_prop in H as [Hx Hrest].
  apply camel_word_spec in Hx as (Hu & l & v' & Hv & Hl & Hv'). cbn [fst snd] in Hu, Hv.
  assert (Hvl : all_chars is_lower v = true) by (subst v; cbn [all_chars]; now rewrite Hl, Hv').
  change (snake_upper ((u, v) :: rest))
    with (String "_" (String u (v +:+ snake_upper rest))).
  cbn [map cat fst snd]. rewrite !str_app_cons.
  unfold lower in *. cbn [map_chars]. rewrite map_chars_app, (IH Hrest).
  fold (lower v). rewrite (lower_fixed v (all_lower_no_upper v Hvl)).
  reflexivity.
Qed.

(** X9. A name in camel case gets the file name in snake case: for a
    first word of lower-case letters followed by words of an upper-case
    letter and lower-case letters, the file name is the first word and
    then each word in lower case behind an underscore.  The first
    substitution puts the underscore in front of every second word and
    the second one in front of the others. *)
Theorem get_file_name_camel_case (tlobject : TLObject.t) (first : string)
    (words : list (ascii * string)) :
  first <> EmptyString -> all_chars is_lower first = true ->
  forallb camel_word words = true ->
  TLObject.name tlobject = camel first words ->
  get_file_name tlobject false = snake first words.
Proof.
  intros Hne Hf Hw Hname. unfold get_file_name, camel, snake in *. rewrite Hname.
  fold (run_of words).
  rewrite (proj2 (sub_word_words words Hw) first Hne Hf).
  rewrite (sub_hump_words words Hw true first Hne Hf).
  rewrite lower_app, (lower_fixed first (all_lower_no_upper first Hf)).
  now rewrite lower_snake_upper.
Qed.

(** ** Snake case becomes the class name *)

Lemma lower_word_spec w :
  lower_word w = true ->
  exists l v, w = String l v /\ is_lower l = true /\ all_chars is_lower v = true.
Proof.
  unfold lower_word. intros H. apply andb_prop in H as [Hn Hw].
  destruct w as [|l v]; [discriminate|].
  cbn [all_chars] in Hw. apply andb_prop in Hw as [Hl Hv]. now exists l, v.
Qed.

Lemma sub_underscore_words words :
  forallb lower_word words = true ->
  forall w, all_chars is_lower w = true ->
    sub_underscore (w +:+ cat (map (fun x => String "_" x) words))
    = w +:+ cat (map capitalise words).
Proof.
  induction words as [|x rest IH]; intros Hws w Hw.
  - cbn [map cat]. rewrite str_app_nil_r. apply sub_underscore_fixed.
    unfold has_char. apply negb_false_iff.
    clear -Hw. induction w as [|c w IHw]; [reflexivity|].
    cbn [all_chars] in *. apply andb_prop in Hw as [Hc Hw].
    now rewrite (is_lower_not_underscore _ Hc), IHw.
  - cbn [forallb] in Hws. apply andb_prop in Hws as [Hx Hrest].
    apply lower_word_spec in Hx as (l & v & -> & Hl & Hv).
    cbn [map cat capitalise]. rewrite !str_app_cons.
    induction w as [|c w IHw].
    + change (EmptyString +:+ ?s) with s.
      rewrite sub_underscore_eq, Hl. cbn [Ascii.eqb Bool.eqb andb].
      f_equal. now apply IH.
    + cbn [all_chars] in Hw. apply andb_prop in Hw as [Hc Hw].
      rewrite !str_app_cons.
      assert (E : exists d s'', w +:+ String "_" (String l (v +:+ cat (map (fun x => String "_" x) rest)))
                            = String d s'').
      { destruct w as [|d w']; [now eexists _, _ | rewrite str_app_cons; now eexists _, _]. }
      destruct E as (d & s'' & E). rewrite E, sub_underscore_eq.
      rewrite (is_lower_not_underscore _ Hc). cbn [andb]. f_equal.
      rewrite <- E. now apply IHw.
Qed.

Lemma no_underscore_lower w :
  all_chars is_lower w = true -> has_char "_" w = false.
Proof.
  unfold has_char. intros Hw. apply negb_false_iff.
  induction w as [|c w IHw]; [reflexivity|].
  cbn [all_chars] in *. apply andb_prop in Hw as [Hc Hw].
  now rewrite (is_lower_not_underscore _ Hc), IHw.
Qed.

Lemma has_char_app c s1 s2 : has_char c (s1 +:+ s2) = has_char c s1 || has_char c s2.
Proof.
  unfold has_char. rewrite all_chars_app, negb_andb. reflexivity.
Qed.

Lemma no_underscore_capitalised words :
  forallb lower_word words = true -> has_char "_" (cat (map capitalise words)) = false.
Proof.
  induction words as [|x rest IH]; [reflexivity|]. cbn [forallb]. intros H.
  apply andb_prop in H as [Hx Hrest].
  apply lower_word_spec in Hx as (l & v & -> & Hl & Hv).
  cbn [map cat capitalise]. rewrite has_char_app, has_char_cons.
  now rewrite (upper_char_lower_underscore _ Hl), (no_underscore_lower _ Hv), (IH Hrest).
Qed.

(** X10. A name in snake case gets the class name in camel case: for
    words of lower-case letters with an underscore between them, the
    class name is the words with their first letters in upper case, one
    behind the other. *)
Theorem get_class_name_snake_case (tlobject : TLObject.t) (first : string)
    (words : list string) :
  forallb lower_word (first :: words) = true ->
  TLObject.name tlobject = snake_name first words ->
  get_class_name tlobject = cat (map capitalise (first :: words)).
Proof.
  cbn [forallb]. intros H Hname. apply andb_prop in H as [Hf Hw].
  apply lower_word_spec in Hf as (c & f' & -> & Hc & Hf').
  rewrite get_class_name_eq, Hname. unfold snake_name.
  rewrite sub_underscore_words;
    [| exact Hw | cbn [all_chars]; now rewrite Hc, Hf'].
  rewrite str_app_cons. cbn [map cat capitalise]. rewrite str_app_cons. f_equal.
  apply remove_char_fixed. rewrite has_char_app.
  now rewrite (no_underscore_lower _ Hf'), (no_underscore_capitalised _ Hw).
Qed.

(** ** Nesting of the emitted blocks *)

Lemma height_block h body : height (Block h body) = S (heights body).
Proof.
  reflexivity.
Qed.

Lemma blocks_filled_block h body :
  blocks_filled (Block h body) = has_statement body && forallb blocks_filled body.
Proof.
  reflexivity.
Qed.

Lemma heights_app ss1 ss2 : heights (ss1 ++ ss2) = Nat.max (heights ss1) (heights ss2).
Proof.
  induction ss1 as [|s ss1 IH]; [reflexivity|].
  cbn [app heights foldr]. fold (heights (ss1 ++ ss2)) (heights ss1). rewrite IH. lia.
Qed.

Lemma heights_cons s ss : heights (s :: ss) = Nat.max (height s) (heights ss).
Proof. reflexivity. Qed.

Lemma nesting_flatten_stmts (ss : list stmt) :
  Forall (fun s => forall rest k m, (k <= m)%nat ->
            nesting (flatten_stmt s ++ rest) k m
            = nesting rest k (Nat.max m (k + height s))) ss ->
  forall rest k m, (k <= m)%nat ->
    nesting (flatten ss ++ rest) k m = nesting rest k (Nat.max m (k + heights ss)).
Proof.
  unfold flatten. induction 1 as [|s ss Hs _ IH]; intros rest k m Hk.
  - cbn. f_equal. lia.
  - cbn [flat_map]. rewrite <- app_assoc, Hs, IH, heights_cons by lia. f_equal. lia.
Qed.

Lemma nesting_flatten_stmt (s : stmt) :
  wf_stmt s = true ->
  forall rest k m, (k <= m)%nat ->
    nesting (flatten_stmt s ++ rest) k m = nesting rest k (Nat.max m (k + height s)).
Proof.
  induction s as [l | h body IH] using stmt_induction; intros Hwf rest k m Hk.
  - simpl in *. destruct (opens_block l); [discriminate|]. f_equal. lia.
  - simpl in Hwf. apply andb_prop in Hwf as [Hh Hb].
    rewrite height_block. cbn [flatten_stmt app nesting]. rewrite Hh.
    fold (flatten body). rewrite <- app_assoc.
    rewrite nesting_flatten_stmts.
    + cbn [app nesting]. f_equal. lia.
    + rewrite forallb_forall in Hb. rewrite Forall_forall in IH |- *.
      intros x Hx. apply IH; [exact Hx|]. apply Hb. now apply list_elem_of_In.
    + lia.
Qed.

Lemma nesting_flatten (ss : list stmt) k m :
  forallb wf_stmt ss = true -> (k <= m)%nat ->
  nesting (flatten ss) k m = Some (k, Nat.max m (k + heights ss)).
Proof.
  intros H Hk.
  rewrite <- (app_nil_r (flatten ss)), nesting_flatten_stmts; [reflexivity| |exact Hk].
  rewrite forallb_forall in H. rewrite Forall_forall. intros x Hx.
  apply nesting_flatten_stmt, H. now apply list_elem_of_In.
Qed.

Lemma heights_flat_map {A} (f : A -> list stmt) (l : list A) n :
  (forall x, heights (f x) <= n)%nat -> (heights (flat_map f l) <= n)%nat.
Proof.
  intros H. induction l as [|x l IH]; cbn [flat_map]; [cbn; lia|].
  rewrite heights_app. specialize (H x). lia.
Qed.

Lemma heights_flag_lines all : heights (flag_lines all) = 0%nat.
Proof.
  unfold flag_lines. induction all as [|f all IH]; [reflexivity|].
  cbn [flat_map]. rewrite heights_app, IH. now destruct (TLArg.is_flag f).
Qed.

Lemma heights_guarded h b body :
  (heights (guarded h b body) <= S (heights body))%nat.
Proof.
  destruct b; cbn [guarded]; [|lia].
  rewrite heights_cons, height_block. cbn. lia.
Qed.

Lemma heights_send_core a all name : heights (send_core a all name) = 0%nat.
Proof.
  unfold send_core. destruct (TLArg.flag_indicator a); [|reflexivity].
  rewrite !heights_app, heights_flag_lines. reflexivity.
Qed.

Lemma heights_resp_core a name : heights (resp_core a name) = 0%nat.
Proof. unfold resp_core. now destruct (TLArg.flag_indicator a). Qed.

Lemma heights_send_stmts a all name : (heights (send_stmts a all name) <= 3)%nat.
Proof.
  unfold send_stmts. destruct (TLArg.generic_definition a); [cbn; lia|].
  etransitivity; [apply heights_guarded|]. apply le_n_S.
  destruct (TLArg.is_vector a).
  - rewrite !heights_cons, height_block. cbn [height heights foldr].
    pose proof (heights_guarded (LIfNotNone (item_name a)) (TLArg.is_flag a)
                  (send_core a all (item_name a))) as H.
    rewrite heights_send_core in H. lia.
  - rewrite heights_send_core. lia.
Qed.

Lemma heights_resp_stmts a name : (heights (resp_stmts a name) <= 3)%nat.
Proof.
  unfold resp_stmts. destruct (TLArg.generic_definition a); [cbn; lia|].
  etransitivity; [apply heights_guarded|]. apply le_n_S.
  destruct (TLArg.is_vector a).
  - rewrite !heights_cons, height_block, heights_app. cbn [height heights foldr].
    pose proof (heights_guarded (LIfFlag (TLArg.flag_index a)) (TLArg.is_flag a)
                  (resp_core a (item_name a))) as H.
    rewrite heights_resp_core in H. lia.
  - rewrite heights_resp_core. lia.
Qed.

Lemma heights_simple {A} (f : A -> line) (l : list A) :
  heights (map (fun x => Simple (f x)) l) = 0%nat.
Proof. induction l as [|x l IH]; [reflexivity|]. cbn [map]. now rewrite heights_cons, IH. Qed.

Lemma height_init_block d : height (init_block d) = 1%nat.
Proof.
  unfold init_block. rewrite height_block, !heights_app, heights_simple.
  now destruct (TLObject.is_function d), (nonempty (init_attrs (TLObject.args d))).
Qed.

(** X11. The calls that write a class keep the blocks balanced: every
    [end_block] closes a block that a line ending in a colon has opened,
    no block is open at the end, and the blocks are never nested deeper
    than four (the method, the flag guard, the loop of a vector and the
    guard of its element). *)
Theorem class_blocks_balanced (tlobject : TLObject.t) :
  exists calls deepest,
    run_generate_class tlobject = Some (calls, TLObject.args tlobject)
    /\ nesting calls 0 0 = Some (0%nat, deepest)
    /\ (1 <= deepest <= 4)%nat.
Proof.
  eexists _, _. split; [apply run_generate_class_eq|]. split.
  - apply nesting_flatten; [|lia]. cbn [forallb].
    rewrite wf_init_block. cbn [wf_stmt opens_block].
    now rewrite wf_on_send_body, wf_on_response_body.
  - rewrite !heights_cons, height_init_block, !height_block.
    assert (heights (on_send_body tlobject) <= 3)%nat.
    { unfold on_send_body. rewrite heights_cons. cbn [height].
      pose proof (heights_flat_map (fun a => send_stmts a (TLObject.args tlobject) None)
                    (TLObject.args tlobject) 3
                    (fun x => heights_send_stmts x _ None)). lia. }
    assert (heights (on_response_body tlobject) <= 3)%nat.
    { unfold on_response_body.
      destruct (TLObject.is_function tlobject); [cbn; lia|].
      destruct (nonempty (TLObject.args tlobject)); [|cbn; lia].
      apply heights_flat_map. intros x. apply heights_resp_stmts. }
    cbn [heights foldr]. lia.
Qed.

(** ** Blocks without a statement *)

Lemma has_statement_app ss1 ss2 :
  has_statement (ss1 ++ ss2) = has_statement ss1 || has_statement ss2.
Proof. apply existsb_app. Qed.

Lemma forallb_filled_simple {A} (f : A -> line) (l : list A) :
  forallb blocks_filled (map (fun x => Simple (f x)) l) = true.
Proof. induction l as [|x l IH]; [reflexivity|]. exact IH. Qed.

Lemma filled_flag_lines all : forallb blocks_filled (flag_lines all) = true.
Proof.
  unfold flag_lines. induction all as [|f all IH]; [reflexivity|].
  cbn [flat_map]. rewrite forallb_app, IH. now destruct (TLArg.is_flag f).
Qed.

Lemma filled_send_core a all name :
  has_statement (send_core a all name) = true
  /\ forallb blocks_filled (send_core a all name) = true.
Proof.
  unfold send_core. destruct (TLArg.flag_indicator a).
  - split; [reflexivity|]. rewrite !forallb_app, filled_flag_lines. reflexivity.
  - split; [|reflexivity]. now destruct (kind_of (TLArg.type a)).
Qed.

Lemma filled_resp_core a name :
  has_statement (resp_core a name) = true
  /\ forallb blocks_filled (resp_core a name) = true.
Proof.
  unfold resp_core. destruct (TLArg.flag_indicator a); [now split|].
  split; [|reflexivity]. now destruct (kind_of (TLArg.type a)).
Qed.

Lemma filled_guarded h b body :
  has_statement body = true -> forallb blocks_filled body = true ->
  has_statement (guarded h b body) = true
  /\ forallb blocks_filled (guarded h b body) = true.
Proof.
  intros H1 H2. destruct b; cbn [guarded]; [|now split].
  split; [reflexivity|]. cbn [forallb]. now rewrite blocks_filled_block, H1, H2.
Qed.

Lemma filled_send_stmts a all name :
  forallb blocks_filled (send_stmts a all name) = true
  /\ has_statement (send_stmts a all name) = negb (TLArg.generic_definition a).
Proof.
  unfold send_stmts. destruct (TLArg.generic_definition a); [now split|].
  cbn [negb]. apply and_comm.
  destruct (filled_send_core a all (item_name a)) as [Hi1 Hi2].
  destruct (filled_send_core a all (default_name a name)) as [Hc1 Hc2].
  apply filled_guarded; destruct (TLArg.is_vector a); try assumption; try reflexivity.
  cbn [forallb]. rewrite blocks_filled_block.
  destruct (filled_guarded (LIfNotNone (item_name a)) (TLArg.is_flag a) _ Hi1 Hi2)
    as [-> ->].
  reflexivity.
Qed.

Lemma filled_resp_stmts a name :
  forallb blocks_filled (resp_stmts a name) = true
  /\ has_statement (resp_stmts a name) = negb (TLArg.generic_definition a).
Proof.
  unfold resp_stmts. destruct (TLArg.generic_definition a); [now split|].
  cbn [negb]. apply and_comm.
  destruct (filled_resp_core a (item_name a)) as [Hi1 Hi2].
  destruct (filled_resp_core a (default_name a name)) as [Hc1 Hc2].
  apply filled_guarded; destruct (TLArg.is_vector a); try assumption; try reflexivity.
  cbn [forallb]. rewrite blocks_filled_block.
  destruct (filled_guarded (LIfFlag (TLArg.flag_index a)) (TLArg.is_flag a) _ Hi1 Hi2)
    as [H1 H2].
  rewrite has_statement_app, forallb_app, H1, H2. reflexivity.
Qed.

Lemma forallb_filled_flat_map {A} (f : A -> list stmt) (l : list A) :
  (forall x, forallb blocks_filled (f x) = true) ->
  forallb blocks_filled (flat_map f l) = true.
Proof.
  intros H. induction l as [|x l IH]; [reflexivity|].
  cbn [flat_map]. now rewrite forallb_app, H, IH.
Qed.

Lemma has_statement_flat_map (l : list TLArg.t) :
  has_statement (flat_map (fun a => resp_stmts a None) l)
  = existsb (fun a => negb (TLArg.generic_definition a)) l.
Proof.
  induction l as [|a l IH]; [reflexivity|].
  cbn [flat_map existsb]. rewrite has_statement_app, IH.
  now rewrite (proj2 (filled_resp_stmts a None)).
Qed.

(** X12. Every block of a generated class holds a statement, with one
    exception: the body of [on_response] is empty when the definition is
    not a function and has arguments that are all generic definitions
    (the loop runs and writes nothing, and [pass] is written for no
    arguments only).  In every other case [on_response] holds a
    statement too. *)
Theorem blocks_hold_statements (tlobject : TLObject.t) :
  exists init send resp,
    class_program tlobject
    = Some [init; Block LDefOnSend send; Block LDefOnResponse resp]
    /\ blocks_filled init = true
    /\ blocks_filled (Block LDefOnSend send) = true
    /\ forallb blocks_filled resp = true
    /\ (has_statement resp = false
        <-> TLObject.is_function tlobject = false
            /\ TLObject.args tlobject <> []
            /\ forallb TLArg.generic_definition (TLObject.args tlobject) = true).
Proof.
  eexists _, _, _. split; [apply class_program_eq|].
  split; [|split; [|split]].
  - unfold init_block. rewrite blocks_filled_block, !forallb_app, forallb_filled_simple.
    now destruct (TLObject.is_function tlobject),
                 (nonempty (init_attrs (TLObject.args tlobject))).
  - rewrite blocks_filled_block. unfold on_send_body. cbn [has_statement existsb forallb].
    cbn [is_statement blocks_filled orb andb].
    apply forallb_filled_flat_map. intros x. apply filled_send_stmts.
  - unfold on_response_body.
    destruct (TLObject.is_function tlobject); [reflexivity|].
    destruct (nonempty (TLObject.args tlobject)); [|reflexivity].
    apply forallb_filled_flat_map. intros x. apply filled_resp_stmts.
  - unfold on_response_body.
    destruct (TLObject.is_function tlobject).
    { split; [discriminate | intros [? _]; discriminate]. }
    destruct (TLObject.args tlobject) as [|a l] eqn:Ha.
    { split; [discriminate | intros (_ & ? & _); congruence]. }
    cbn [nonempty]. rewrite has_statement_flat_map.
    set (args := a :: l).
    assert (H : existsb (fun a => negb (TLArg.generic_definition a)) args
                = negb (forallb TLArg.generic_definition args)).
    { clear. induction args as [|x xs IH]; [reflexivity|].
      cbn [existsb forallb]. rewrite IH. now destruct (TLArg.generic_definition x). }
    rewrite H, negb_false_iff. split.
    + intros Hg. split; [reflexivity|]. split; [discriminate | exact Hg].
    + now intros (_ & _ & Hg).
Qed.

(** ** The parameters and the attributes of [__init__] *)

Lemma filter_partition {A} (p : A -> bool) (l : list A) :
  List.filter (fun x => negb (p x)) l ++ List.filter p l ≡ₚ l.
Proof.
  induction l as [|x l IH]; [reflexivity|].
  cbn [List.filter]. destruct (p x); cbn [negb].
  - rewrite <- Permutation_middle. now constructor.
  - cbn [app]. now constructor.
Qed.

Lemma init_attrs_required (args : list TLArg.t) :
  map TLArg.name
    (List.filter (fun a => negb (TLArg.is_flag a) && negb (TLArg.flag_indicator a)
                           && negb (TLArg.generic_definition a)) args)
  = map param_text (List.filter (fun a => negb (TLArg.is_flag a)) (init_attrs args)).
Proof.
  unfold init_attrs, param_text. induction args as [|x xs IH]; [reflexivity|].
  cbn [List.filter].
  destruct (TLArg.is_flag x) eqn:Hf, (TLArg.flag_indicator x), (TLArg.generic_definition x);
    cbn [negb andb List.filter map]; rewrite ?Hf; cbn [negb map]; rewrite ?Hf, ?IH;
    reflexivity.
Qed.

Lemma init_attrs_optional (args : list TLArg.t) :
  map (fun a => TLArg.name a +:+ "=None")
    (List.filter (fun a => TLArg.is_flag a && negb (TLArg.flag_indicator a)
                           && negb (TLArg.generic_definition a)) args)
  = map param_text (List.filter TLArg.is_flag (init_attrs args)).
Proof.
  unfold init_attrs, param_text. induction args as [|x xs IH]; [reflexivity|].
  cbn [List.filter].
  destruct (TLArg.is_flag x) eqn:Hf, (TLArg.flag_indicator x), (TLArg.generic_definition x);
    cbn [negb andb List.filter map]; rewrite ?Hf; cbn [negb map]; rewrite ?Hf, ?IH;
    reflexivity.
Qed.

(** X13. [__init__] takes one parameter for each attribute it assigns:
    the parameters are the arguments that are neither a flag indicator
    nor a generic definition, each once, the flag-gated ones with the
    default [None].  The body ends with the assignments
    [self.<name> = <name>] of these arguments, in declaration order,
    and what stands before them assigns no attribute but, in a
    function, [self.result]. *)
Theorem init_assigns_parameters (tlobject : TLObject.t) :
  let attrs := init_attrs (TLObject.args tlobject) in
  init_params (TLObject.args tlobject) ≡ₚ map param_text attrs
  /\ exists before,
       class_program tlobject ≫= method_body is_init
       = Some (before ++ map (fun arg => Simple (LAssignAttr (TLArg.name arg))) attrs)
       /\ flat_map assigns before
          = if TLObject.is_function tlobject then ["result"%string] else [].
Proof.
  intros attrs. split.
  - rewrite init_params_eq, init_attrs_required, init_attrs_optional, <- map_app.
    apply Permutation_map, filter_partition.
  - rewrite class_program_eq.
    exists ([Simple LSuperInit]
            ++ (if TLObject.is_function tlobject then [Simple LResultNone] else [])
            ++ (if nonempty attrs then [Simple LBlank] else [])).
    split.
    + cbn [mbind option_bind method_body init_block is_init]. fold attrs.
      now rewrite <- !app_assoc.
    + now destruct (TLObject.is_function tlobject), (nonempty attrs).
Qed.

(** ** What the generated routines leave alone *)

Lemma assigns_block h body :
  assigns (Block h body) = line_assigns h ++ flat_map assigns body.
Proof. reflexivity. Qed.

Lemma writes_block h body : writes (Block h body) = existsb writes body.
Proof. reflexivity. Qed.

Lemma reads_block h body : reads (Block h body) = existsb reads body.
Proof. reflexivity. Qed.

Lemma frame_refl A wr rd st : frame A wr rd st st.
Proof. repeat split; auto. exists []. now rewrite app_nil_r. Qed.

Lemma frame_trans A wr rd st1 st2 st3 :
  frame A wr rd st1 st2 -> frame A wr rd st2 st3 -> frame A wr rd st1 st3.
Proof.
  intros (Ha1 & Hw1 & Hr1 & bs1 & Hb1) (Ha2 & Hw2 & Hr2 & bs2 & Hb2).
  split; [|split; [|split]].
  - intros a Ha. now rewrite Ha2, Ha1.
  - intros H. now rewrite Hw2, Hw1.
  - intros H. now rewrite Hr2, Hr1.
  - exists (bs1 ++ bs2). now rewrite Hb2, Hb1, app_assoc.
Qed.

Lemma frame_weaken A A' (wr wr' rd rd' : bool) st st' :
  A ⊆ A' -> (wr = true -> wr' = true) -> (rd = true -> rd' = true) ->
  frame A wr rd st st' -> frame A' wr' rd' st st'.
Proof.
  intros HA Hw Hr (Ha & Hw0 & Hr0 & Hb). split; [|split; [|split]].
  - intros a Ha'. apply Ha. intros Hin. apply Ha'. now apply HA.
  - intros ->. apply Hw0. destruct wr; [now specialize (Hw eq_refl)|reflexivity].
  - intros ->. apply Hr0. destruct rd; [now specialize (Hr eq_refl)|reflexivity].
  - exact Hb.
Qed.

Lemma frame_set_name n v st : frame (name_attr n) false false st (set_name n v st).
Proof.
  destruct n as [a|x]; cbn [set_name name_attr]; (split; [|split; [|split]]);
    cbn [self_attrs written unread]; auto.
  - intros b Hb. apply lookup_insert_ne. intros ->. apply Hb. now left.
  - exists []. now rewrite app_nil_r.
  - exists []. now rewrite app_nil_r.
Qed.

Lemma frame_emit bs st st' : emit bs st = Some st' -> frame [] true false st st'.
Proof.
  destruct bs as [b|]; [|discriminate]. intros [= <-].
  split; [|split; [|split]]; cbn [self_attrs written unread]; auto; try discriminate.
  now exists b.
Qed.

Lemma frame_set_unread rest st : frame [] false true st (set_unread rest st).
Proof.
  split; [|split; [|split]]; cbn [set_unread self_attrs written unread]; auto;
    try discriminate.
  exists []. now rewrite app_nil_r.
Qed.

Section Frames.

Context {W : Wire}.
Variable wobj : value -> option (list byte).
Variable robj : list byte -> option (value * list byte).

Lemma frame_consume r k A st st' :
  (forall v st1 st2, k v st1 = Some st2 -> frame A false false st1 st2) ->
  consume r k st = Some st' -> frame A false true st st'.
Proof.
  intros Hk. unfold consume. destruct (r (unread st)) as [[v rest]|]; [|discriminate].
  intros H. apply Hk in H.
  eapply frame_trans.
  - apply (frame_weaken [] A false false true true);
      [intros x Hx; now apply elem_of_nil in Hx | auto | auto |].
    apply frame_set_unread.
  - apply (frame_weaken A A false false false true); [now intros x Hx | auto | auto | exact H].
Qed.

Lemma exec_line_frame l st st' :
  exec_line wobj robj l st = Some st' ->
  frame (line_assigns l) (line_writes l) (line_reads l) st st'.
Proof.
  destruct l; cbn [exec_line line_assigns line_writes line_reads]; intros H;
    try discriminate;
    try (eapply frame_consume; [|exact H]; intros v st1 st2 Hk; cbv beta in Hk;
         first [ injection Hk as <-;
                 first [ apply frame_refl | apply frame_set_name
                       | apply (frame_set_name flags_var)
                       | apply (frame_set_name (SelfAttr _)) ]
               | destruct v; try discriminate; injection Hk as <-; apply frame_set_name ]);
    repeat match type of H with
           | match ?x with _ => _ end = Some _ => destruct x eqn:?; try discriminate
           end;
    first [ apply frame_emit in H; exact H
          | injection H as <-;
            first [ apply frame_refl | apply frame_set_name
                  | apply (frame_set_name flags_var)
                  | apply (frame_set_name (SelfAttr _)) ] ].
Qed.

Lemma exec_block_frame h (body : pystate -> option pystate) A wr rd st st' :
  (forall st1 st2, body st1 = Some st2 -> frame A wr rd st1 st2) ->
  exec_block h body st = Some st' ->
  frame (line_assigns h ++ A) wr rd st st'.
Proof.
  intros Hbody.
  assert (Hb : forall st1 st2, body st1 = Some st2 ->
                 frame (line_assigns h ++ A) wr rd st1 st2).
  { intros st1 st2 H. apply (frame_weaken A _ wr wr rd rd); [ | auto | auto | auto ].
    intros x Hx. apply elem_of_app. now right. }
  destruct h; cbn [exec_block]; try discriminate.
  - destruct (get_name n st) as [v|]; [|discriminate].
    destruct (is_none v); [|apply Hb]. intros [= <-]. apply frame_refl.
  - destruct (get_name n st) as [[| | | | | |l|]|]; try discriminate.
    clear Hb. revert st. induction l as [|x l IH]; intros st; cbn [for_values].
    + intros [= <-]. apply frame_refl.
    + destruct (body (set_name item x st)) as [st1|] eqn:H1; [|discriminate].
      intros H. apply IH in H. apply Hbody in H1.
      eapply frame_trans; [|exact H].
      eapply frame_trans.
      * apply (frame_weaken (name_attr item) _ false wr false rd);
          [ | discriminate | discriminate | apply frame_set_name ].
        intros y Hy. apply elem_of_app. now left.
      * apply (frame_weaken A _ wr wr rd rd); [ | auto | auto | exact H1 ].
        intros y Hy. apply elem_of_app. now right.
  - destruct (get_name flags_var st) as [[]|]; try discriminate.
    match goal with |- context [if ?c then _ else _] => destruct c end; [|apply Hb].
    intros [= <-]. apply frame_refl.
  - destruct (get_name (len_name n) st) as [[| k | | | | | |]|]; try discriminate.
    generalize (Z.to_nat k) as m. intros m. revert st.
    induction m as [|m IH]; intros st; cbn [repeat_body].
    + intros [= <-]. apply frame_refl.
    + destruct (body st) as [st1|] eqn:H1; [|discriminate].
      intros H. apply IH in H. apply Hb in H1. eapply frame_trans; eassumption.
Qed.

Lemma exec_stmts_frame (ss : list stmt) :
  Forall (fun s => forall st st', exec_stmt wobj robj s st = Some st' ->
            frame (assigns s) (writes s) (reads s) st st') ss ->
  forall st st', exec_stmts wobj robj ss st = Some st' ->
    frame (flat_map assigns ss) (existsb writes ss) (existsb reads ss) st st'.
Proof.
  induction 1 as [|s ss Hs _ IH]; intros st st'; cbn [exec_stmts].
  - intros [= <-]. apply frame_refl.
  - destruct (exec_stmt wobj robj s st) as [st1|] eqn:H1; [|discriminate].
    intros H. apply IH in H. apply Hs in H1.
    cbn [flat_map existsb]. eapply frame_trans.
    + apply (frame_weaken (assigns s) _ (writes s) _ (reads s) _); [| | |exact H1].
      * intros y Hy. apply elem_of_app. now left.
      * intros ->. reflexivity.
      * intros ->. reflexivity.
    + apply (frame_weaken (flat_map assigns ss) _ (existsb writes ss) _
               (existsb reads ss) _); [| | |exact H].
      * intros y Hy. apply elem_of_app. now right.
      * intros ->. apply orb_true_r.
      * intros ->. apply orb_true_r.
Qed.

Lemma exec_stmt_frame (s : stmt) : forall st st',
  exec_stmt wobj robj s st = Some st' ->
  frame (assigns s) (writes s) (reads s) st st'.
Proof.
  induction s as [l | h body IH] using stmt_induction; intros st st'.
  - apply exec_line_frame.
  - rewrite exec_stmt_block, assigns_block, writes_block, reads_block.
    apply exec_block_frame. now apply exec_stmts_frame.
Qed.

Lemma exec_body_frame (ss : list stmt) st st' :
  exec_stmts wobj robj ss st = Some st' ->
  frame (flat_map assigns ss) (existsb writes ss) (existsb reads ss) st st'.
Proof.
  apply exec_stmts_frame. apply Forall_forall. intros s _. apply exec_stmt_frame.
Qed.

End Frames.

Lemma flat_map_nil {A B} (f : A -> list B) (l : list A) :
  (forall x, f x = []) -> flat_map f l = [].
Proof. intros H. induction l as [|x l IH]; [reflexivity|]. cbn. now rewrite H, IH. Qed.

Lemma existsb_flat_map {A B} (p : B -> bool) (f : A -> list B) (l : list A) :
  (forall x, existsb p (f x) = false) -> existsb p (flat_map f l) = false.
Proof.
  intros H. induction l as [|x l IH]; [reflexivity|].
  cbn [flat_map]. now rewrite existsb_app, H, IH.
Qed.

Lemma assigns_guarded h b body :
  flat_map assigns (guarded h b body)
  = (if b then line_assigns h else []) ++ flat_map assigns body.
Proof.
  destruct b; cbn [guarded flat_map]; [|reflexivity].
  now rewrite assigns_block, app_nil_r.
Qed.

Lemma reads_guarded h b body : existsb reads (guarded h b body) = existsb reads body.
Proof.
  destruct b; cbn [guarded existsb]; [|reflexivity]. now rewrite reads_block, orb_false_r.
Qed.

Lemma writes_guarded h b body : existsb writes (guarded h b body) = existsb writes body.
Proof.
  destruct b; cbn [guarded existsb]; [|reflexivity]. now rewrite writes_block, orb_false_r.
Qed.

Lemma flag_lines_quiet all :
  flat_map assigns (flag_lines all) = [] /\ existsb reads (flag_lines all) = false.
Proof.
  unfold flag_lines. induction all as [|f all [IH1 IH2]]; [now split|].
  cbn [flat_map]. rewrite flat_map_app, existsb_app, IH1, IH2.
  now destruct (TLArg.is_flag f).
Qed.

Lemma send_core_quiet a all name :
  flat_map assigns (send_core a all name) = []
  /\ existsb reads (send_core a all name) = false.
Proof.
  unfold send_core. destruct (TLArg.flag_indicator a).
  - rewrite !flat_map_app, !existsb_app.
    destruct (flag_lines_quiet all) as [-> ->]. now split.
  - now destruct (kind_of (TLArg.type a)).
Qed.

Lemma send_stmts_quiet a all name :
  flat_map assigns (send_stmts a all name) = []
  /\ existsb reads (send_stmts a all name) = false.
Proof.
  unfold send_stmts. destruct (TLArg.generic_definition a); [now split|].
  rewrite assigns_guarded, reads_guarded.
  assert (Hh : (if TLArg.is_flag a then line_assigns (LIfNotNone (default_name a name))
                else []) = []) by now destruct (TLArg.is_flag a).
  rewrite Hh. cbn [app].
  destruct (TLArg.is_vector a).
  - cbn [flat_map existsb]. rewrite assigns_block, reads_block.
    rewrite assigns_guarded, reads_guarded.
    destruct (send_core_quiet a all (item_name a)) as [-> ->].
    now destruct (TLArg.is_flag a).
  - apply send_core_quiet.
Qed.

Lemma flat_map_flat_map {A B C} (g : B -> list C) (f : A -> list B) (l : list A) :
  flat_map g (flat_map f l) = flat_map (fun x => flat_map g (f x)) l.
Proof.
  induction l as [|x l IH]; [reflexivity|]. cbn [flat_map]. now rewrite flat_map_app, IH.
Qed.

Lemma on_send_body_quiet d :
  flat_map assigns (on_send_body d) = [] /\ existsb reads (on_send_body d) = false.
Proof.
  unfold on_send_body. cbn [flat_map existsb assigns reads line_assigns line_reads app orb].
  split.
  - rewrite flat_map_flat_map. apply flat_map_nil. intros a. apply send_stmts_quiet.
  - apply existsb_flat_map. intros a. apply send_stmts_quiet.
Qed.

(** X14. The write routine of a class changes no attribute of the
    object and reads nothing from the reader: whenever it runs to its
    end, the attributes and the reader are as before, and the writer
    holds what it held, with bytes appended. *)
Theorem on_send_leaves_object {W : Wire} wobj robj (tlobject : TLObject.t) body st st' :
  on_send tlobject = Some body ->
  exec_stmts wobj robj body st = Some st' ->
  self_attrs st' = self_attrs st
  /\ unread st' = unread st
  /\ exists bs, written st' = written st ++ bs.
Proof.
  rewrite on_send_eq. intros [= <-] H.
  apply exec_body_frame in H. destruct (on_send_body_quiet tlobject) as [Ha Hr].
  rewrite Ha, Hr in H. destruct H as (Hattrs & _ & Hu & Hb).
  split; [|split; [now apply Hu | exact Hb]].
  apply map_eq. intros a. apply Hattrs. apply not_elem_of_nil.
Qed.

Lemma resp_core_touches a name :
  existsb writes (resp_core a name) = false
  /\ flat_map assigns (resp_core a name)
     = if TLArg.flag_indicator a then [] else name_attr name.
Proof.
  unfold resp_core. destruct (TLArg.flag_indicator a); [now split|].
  destruct (kind_of (TLArg.type a)); cbn; now rewrite app_nil_r.
Qed.

Ltac list_subset :=
  let x := fresh "x" in
  let H := fresh "H" in
  intros x H; apply list_elem_of_In in H; apply list_elem_of_In;
  cbn [In app] in *; tauto.

(** The attributes the read step of one argument assigns. *)
Lemma resp_stmts_touches a :
  existsb writes (resp_stmts a None) = false
  /\ flat_map assigns (resp_stmts a None)
     ⊆ (if TLArg.generic_definition a then []
        else if TLArg.is_vector a
             then [TLArg.name a; TLArg.name a +:+ "_len"]
             else if TLArg.flag_indicator a then [] else [TLArg.name a]).
Proof.
  unfold resp_stmts. destruct (TLArg.generic_definition a); [now split|].
  rewrite assigns_guarded, writes_guarded.
  assert (Hh : (if TLArg.is_flag a then line_assigns (LIfFlag (TLArg.flag_index a))
                else []) = []) by now destruct (TLArg.is_flag a).
  rewrite Hh. cbn [app default_name].
  destruct (TLArg.is_vector a).
  - cbn [flat_map existsb]. rewrite assigns_block, writes_block.
    rewrite flat_map_app, existsb_app, assigns_guarded, writes_guarded.
    destruct (resp_core_touches a (item_name a)) as [-> ->].
    split; [reflexivity|].
    destruct (TLArg.is_flag a), (TLArg.flag_indicator a);
      cbn [assigns line_assigns name_attr len_name item_name flat_map app]; list_subset.
  - destruct (resp_core_touches a (SelfAttr (TLArg.name a))) as [-> ->].
    split; [reflexivity|]. now destruct (TLArg.flag_indicator a).
Qed.

Lemma on_response_body_touches d :
  existsb writes (on_response_body d) = false
  /\ flat_map assigns (on_response_body d) ⊆ response_attrs d.
Proof.
  unfold on_response_body, response_attrs.
  destruct (TLObject.is_function d); [now split|].
  destruct (nonempty (TLObject.args d)).
  - split.
    + apply existsb_flat_map. intros a. apply resp_stmts_touches.
    + rewrite flat_map_flat_map.
      induction (TLObject.args d) as [|a l IH]; [reflexivity|].
      cbn [flat_map]. intros x Hx. apply elem_of_app in Hx as [Hx|Hx]; apply elem_of_app.
      * left. now apply (proj2 (resp_stmts_touches a)).
      * right. now apply IH.
  - split; [reflexivity|]. cbn. list_subset.
Qed.

(** X15. The read routine of a class writes nothing to the writer, and
    the only attributes it assigns are [result] in a function, and else
    the arguments that are no generic definition and no flag indicator
    and, for each vector argument, the attribute [<name>_len] that holds
    the count: every other attribute of the object is as before. *)
Theorem on_response_touches {W : Wire} wobj robj (tlobject : TLObject.t) body st st' :
  on_response tlobject = Some body ->
  exec_stmts wobj robj body st = Some st' ->
  written st' = written st
  /\ forall attr, attr ∉ response_attrs tlobject ->
       self_attrs st' !! attr = self_attrs st !! attr.
Proof.
  rewrite on_response_eq. intros [= <-] H.
  apply exec_body_frame in H. destruct (on_response_body_touches tlobject) as [Hw Ha].
  rewrite Hw in H. destruct H as (Hattrs & Hwr & _ & _).
  split; [now apply Hwr|].
  intros attr Hattr. apply Hattrs. intros Hin. apply Hattr. now apply Ha.
Qed.

(** ** A flag-gated vector with an element that is [None] *)

Ltac run_simpl :=
  unfold flags_var, consume, emit, set_unread in *;
  cbn [set_name get_name self_attrs locals written unread len_name] in *.

Lemma flag_vector_loop {W : Wire} wobj robj (s : string) k l ebs :
  Forall2 (fun x b => if is_none x then b = [] else elem_bytes wobj robj k x b) l ebs ->
  let item := Local (s +:+ "_item") in
  forall g L w u, exists L',
    for_values l
      (fun x st' => exec_stmts wobj robj
                      (guarded (LIfNotNone item) true [Simple (send_elem k item)])
                      (set_name item x st'))
      (PyState g L w u)
    = Some (PyState g L' (w ++ List.concat ebs) u).
Proof.
  intros Hl item. induction Hl as [|x b l ebs Hx Hl IH]; intros g L w u.
  - exists L. simpl. now rewrite app_nil_r.
  - cbn [for_values List.concat]. subst item. run_simpl.
    destruct (is_none x) eqn:Hn.
    + subst b. destruct x; try discriminate.
      rewrite exec_guard_none by (run_simpl; apply lookup_insert_eq).
      destruct (IH g (<[s +:+ "_item" := VNone]> L) w u) as (L' & HL').
      exists L'. exact HL'.
    + rewrite (exec_guard_not_none _ _ true _ _ _ x);
        [| run_simpl; apply lookup_insert_eq | intros ->; discriminate].
      rewrite exec_stmts_single. cbn [exec_stmt].
      rewrite Hx by (run_simpl; apply lookup_insert_eq).
      destruct (IH g (<[s +:+ "_item" := x]> L) (w ++ b) u) as (L' & HL').
      exists L'. rewrite HL'. now rewrite app_assoc.
Qed.

(** X16. The write step of a flag-gated vector that is present writes
    the vector's constructor id and the length of the list, and then the
    elements that are not [None]: an element that is [None] is counted
    in the length, and nothing is written for it. *)
Theorem flag_vector_skips_none {W : Wire} wobj robj (a : TLArg.t) (all : list TLArg.t)
    (fv : gmap string value) (l : list value) (ebs : list (list byte)) mk ln L w u :
  TLArg.is_vector a = true -> TLArg.is_flag a = true ->
  TLArg.generic_definition a = false -> TLArg.flag_indicator a = false ->
  fv !! TLArg.name a = Some (VList l) ->
  write_prim PInt (VInt 0x1cb5c415) = Some mk ->
  write_prim PInt (VInt (Z.of_nat (List.length l))) = Some ln ->
  Forall2 (fun x b => if is_none x then b = []
                      else elem_bytes wobj robj (kind_of (TLArg.type a)) x b) l ebs ->
  exists L',
    exec_stmts wobj robj (send_stmts a all None) (PyState fv L w u)
    = Some (PyState fv L' (w ++ mk ++ ln ++ List.concat ebs) u).
Proof.
  intros Hvec Hflag Hg Hi Hv Hmk Hln Hl.
  unfold send_stmts. rewrite Hg, Hvec, Hflag. cbn [default_name].
  unfold send_core. rewrite Hi.
  rewrite (exec_guard_not_none _ _ true _ _ _ (VList l)) by (run_simpl; auto; discriminate).
  rewrite exec_stmts_cons. cbn [exec_stmt exec_line]. run_simpl. rewrite Hmk.
  rewrite exec_stmts_cons. cbn [exec_stmt exec_line]. run_simpl. rewrite Hv, Hln.
  rewrite exec_stmts_single, exec_stmt_block. cbn [exec_block]. run_simpl.
  rewrite Hv. unfold item_name.
  destruct (flag_vector_loop wobj robj (TLArg.name a) (kind_of (TLArg.type a)) l ebs Hl
              fv L ((w ++ mk) ++ ln) u) as (L' & HL').
  exists L'. rewrite HL'. now rewrite <- !app_assoc.
Qed.

(** ** The registry file is no class file *)

Lemma get_app_left (s1 s2 : string) (i : nat) :
  (i < String.length s1)%nat -> String.get i (s1 +:+ s2) = String.get i s1.
Proof. intros H. symmetry. now apply append_correct1. Qed.

(** Where the directory of a class lies: under [tl/functions] or
    [tl/types], or where an absolute namespace puts it. *)
Lemma out_dir_start (tlobject : TLObject.t) :
  starts_with "/" (out_dir tlobject) = true
  \/ exists kind rest, (kind = "tl/functions"%string \/ kind = "tl/types"%string)
                       /\ out_dir tlobject = kind +:+ rest.
Proof.
  unfold out_dir.
  assert (Hk : exists kind, (kind = "tl/functions"%string \/ kind = "tl/types"%string)
                 /\ path_join "tl" (if TLObject.is_function tlobject
                                    then "functions" else "types") = kind).
  { destruct (TLObject.is_function tlobject); eexists; (split; [|reflexivity]); auto. }
  destruct Hk as (kind & Hkind & ->).
  destruct (TLObject.namespace tlobject) as [ns|].
  - unfold path_join. destruct (starts_with "/" ns) eqn:Hs; [now left|].
    right. exists kind. destruct (String.eqb kind "" || ends_with "/" kind).
    + now exists ns.
    + now exists ("/" +:+ ns).
  - right. exists kind, EmptyString. split; [exact Hkind|]. now rewrite str_app_nil_r.
Qed.

Lemma path_join_start (path b : string) :
  starts_with "/" (path_join path b) = true
  \/ exists rest, path_join path b = path +:+ rest.
Proof.
  unfold path_join. destruct (starts_with "/" b) eqn:Hs; [now left|].
  right. destruct (String.eqb path "" || ends_with "/" path); eauto.
Qed.

Lemma under_out_dir (tlobject : TLObject.t) (b : string) :
  path_join (out_dir tlobject) b <> registry_filename.
Proof.
  intros E.
  assert (H0 : String.get 0 (path_join (out_dir tlobject) b) = Some "t"%char)
    by now rewrite E.
  assert (H3 : String.get 3 (path_join (out_dir tlobject) b) = Some "a"%char)
    by now rewrite E.
  destruct (path_join_start (out_dir tlobject) b) as [Hs | (rest & Hr)].
  - destruct (path_join (out_dir tlobject) b) as [|c s]; [discriminate|].
    cbn [starts_with] in Hs. apply Ascii.eqb_eq in Hs. subst c. discriminate H0.
  - rewrite Hr in H0, H3.
    destruct (out_dir_start tlobject) as [Hs | (kind & rest' & Hkind & Hd)].
    + destruct (out_dir tlobject) as [|c s]; [discriminate|].
      cbn [starts_with] in Hs. apply Ascii.eqb_eq in Hs. subst c. discriminate H0.
    + rewrite Hd, str_app_assoc in H3.
      rewrite get_app_left in H3 by (destruct Hkind as [-> | ->]; cbn; lia).
      destruct Hkind as [-> | ->]; discriminate.
Qed.

Lemma join_cons_cons sep x y (l : list string) :
  join sep (x :: y :: l) = x +:+ sep +:+ join sep (y :: l).
Proof. reflexivity. Qed.

Lemma join_snoc (l : list string) (x y : string) :
  join "/" ((l ++ [x]) ++ [y]) = join "/" (l ++ [x]) +:+ "/" +:+ y.
Proof.
  induction l as [|z l IH].
  - reflexivity.
  - destruct l as [|z' l].
    + cbn [app]. rewrite !join_cons_cons. cbn [join].
      now rewrite !str_app_assoc.
    + cbn [app] in *. rewrite (join_cons_cons "/" z), IH.
      rewrite (join_cons_cons "/" z). now rewrite !str_app_assoc.
Qed.

Lemma plain_part_no_slash s : plain_part s = true -> has_char "/" s = false.
Proof.
  unfold plain_part, has_char. intros H. apply negb_false_iff.
  induction s as [|c s IH]; [reflexivity|].
  cbn [all_chars] in *. apply andb_prop in H as [Hc Hs].
  rewrite (IH Hs), andb_true_r. unfold part_char in Hc.
  now apply andb_prop in Hc as [Hc _].
Qed.

Lemma plain_part_entry s :
  plain_part s = true -> s <> EmptyString -> entry_part s = true.
Proof.
  intros Hp Hne. unfold entry_part.
  rewrite (plain_part_no_slash s Hp).
  destruct s as [|c s]; [contradiction|].
  unfold plain_part in Hp. cbn [all_chars] in Hp. apply andb_prop in Hp as [Hc _].
  unfold part_char in Hc. apply andb_prop in Hc as [_ Hc].
  apply negb_true_iff, Ascii.eqb_neq in Hc.
  assert (H1 : String.eqb (String c s) "." = false).
  { apply String.eqb_neq. intros E. injection E as E _. contradiction. }
  assert (H2 : String.eqb (String c s) ".." = false).
  { apply String.eqb_neq. intros E. injection E as E _. contradiction. }
  now rewrite H1, H2.
Qed.

Lemma file_name_entry (tlobject : TLObject.t) :
  plain_part (TLObject.name tlobject) = true ->
  entry_part (get_file_name tlobject true) = true.
Proof.
  intros Hn. pose proof (plain_part_file_name _ Hn) as Hf.
  change (get_file_name tlobject true) with (get_file_name tlobject false +:+ ".py").
  set (file := get_file_name tlobject false) in *.
  unfold entry_part. rewrite has_char_app, (plain_part_no_slash _ Hf).
  assert (Hlen : (3 <= String.length (file +:+ ".py"))%nat).
  { rewrite string_length_append. simpl. lia. }
  assert (H0 : String.eqb (file +:+ ".py") "" = false).
  { apply String.eqb_neq. intros E. rewrite E in Hlen. simpl in Hlen. lia. }
  assert (H1 : String.eqb (file +:+ ".py") "." = false).
  { apply String.eqb_neq. intros E. rewrite E in Hlen. simpl in Hlen. lia. }
  assert (H2 : String.eqb (file +:+ ".py") ".." = false).
  { apply String.eqb_neq. intros E. rewrite E in Hlen. simpl in Hlen. lia. }
  now rewrite H0, H1, H2.
Qed.

Lemma out_dir_plain (tlobject : TLObject.t) :
  plain_namespace (TLObject.namespace tlobject) = true ->
  out_dir tlobject = join "/" (dir_parts tlobject)
  /\ forallb entry_part (dir_parts tlobject) = true
  /\ out_dir tlobject <> EmptyString
  /\ ends_with "/" (out_dir tlobject) = false.
Proof.
  intros Hns. unfold out_dir, dir_parts.
  set (kind := if TLObject.is_function tlobject then "functions"%string else "types"%string).
  assert (Hk : path_join "tl" kind = "tl/" +:+ kind /\ plain_part kind = true
               /\ kind <> EmptyString).
  { unfold kind. destruct (TLObject.is_function tlobject); repeat split; discriminate. }
  destruct Hk as (-> & Hkp & Hkn).
  assert (Hdir : ends_with "/" ("tl/" +:+ kind) = false).
  { rewrite ends_with_app by exact Hkn. now apply plain_part_ends. }
  assert (Hke : entry_part kind = true) by now apply plain_part_entry.
  destruct (TLObject.namespace tlobject) as [ns|].
  - cbn [plain_namespace] in Hns. apply andb_prop in Hns as [Hne Hnp].
    apply negb_true_iff, String.eqb_neq in Hne.
    rewrite (path_join_plain ("tl/" +:+ kind) ns);
      [| discriminate | exact Hdir | now apply plain_part_starts].
    split; [|split; [|split]].
    + cbn [app]. rewrite !join_cons_cons. cbn [join]. now rewrite !str_app_assoc.
    + cbn [app forallb]. rewrite Hke, (plain_part_entry ns Hnp Hne). reflexivity.
    + discriminate.
    + replace (("tl/" +:+ kind) +:+ "/" +:+ ns) with ((("tl/" +:+ kind) +:+ "/") +:+ ns)
        by now rewrite !str_app_assoc.
      rewrite ends_with_app by exact Hne. now apply plain_part_ends.
  - split; [|split; [|split]].
    + reflexivity.
    + cbn [app forallb]. now rewrite Hke.
    + discriminate.
    + exact Hdir.
Qed.

(** X17. For a definition whose name and namespace hold no slash and no
    dot (a namespace not empty), the class file and the [__init__.py]
    of its directory have the paths [tl/functions/...] or
    [tl/types/...] with the namespace and the file name as further
    parts, every part the name of a directory entry (not empty, no
    slash, not [.] or [..]).  So neither is [tl/all_tlobjects.py]: the
    registry, which is written last, replaces no class of such a
    definition. *)
Theorem registry_file_apart (tlobject : TLObject.t) :
  plain_def tlobject = true ->
  class_filename tlobject = join "/" (dir_parts tlobject ++ [get_file_name tlobject true])
  /\ init_py tlobject = join "/" (dir_parts tlobject ++ ["__init__.py"%string])
  /\ registry_filename = join "/" ["tl"; "all_tlobjects.py"]%string
  /\ forallb entry_part (dir_parts tlobject ++ [get_file_name tlobject true]) = true
  /\ class_filename tlobject <> registry_filename
  /\ init_py tlobject <> registry_filename.
Proof.
  intros Hp. apply andb_prop in Hp as [Hn Hns].
  destruct (out_dir_plain tlobject Hns) as (Hdir & Hparts & Hne & Hend).
  pose proof (file_name_entry tlobject Hn) as Hfile.
  assert (Hsnoc : forall y, starts_with "/" y = false ->
            path_join (out_dir tlobject) y = join "/" (dir_parts tlobject ++ [y])).
  { intros y Hy. rewrite path_join_plain by assumption. rewrite Hdir.
    unfold dir_parts.
    destruct (TLObject.namespace tlobject) as [ns|].
    - change (["tl"%string; if TLObject.is_function tlobject then "functions"%string
                            else "types"%string] ++ [ns])
        with ((["tl"%string] ++ [if TLObject.is_function tlobject then "functions"%string
                                 else "types"%string]) ++ [ns]).
      rewrite (join_snoc _ ns y). reflexivity.
    - rewrite app_nil_r.
      change (["tl"%string; if TLObject.is_function tlobject then "functions"%string
                            else "types"%string])
        with (["tl"%string] ++ [if TLObject.is_function tlobject then "functions"%string
                                else "types"%string]).
      rewrite (join_snoc _ _ y). reflexivity. }
  split; [|split; [|split; [|split; [|split]]]].
  - unfold class_filename. apply Hsnoc.
    change (get_file_name tlobject true) with (get_file_name tlobject false +:+ ".py").
    pose proof (plain_part_file_name _ Hn) as Hf.
    destruct (get_file_name tlobject false) as [|c f] eqn:E; [reflexivity|].
    apply (plain_part_starts (String c f) Hf).
  - unfold init_py. now apply Hsnoc.
  - reflexivity.
  - rewrite forallb_app, Hparts. cbn [forallb]. now rewrite Hfile.
  - apply under_out_dir.
  - apply under_out_dir.
Qed.

(** ** The module of a definition holds its class *)

Lemma class_files_own (tlobjects : list TLObject.t) (tlobject : TLObject.t) :
  NoDup (map class_filename tlobjects) -> tlobject ∈ tlobjects ->
  class_files tlobjects !! class_filename tlobject = Some tlobject.
Proof.
  induction tlobjects as [|x l IH] using rev_ind; intros Hnd Hin.
  - now apply elem_of_nil in Hin.
  - rewrite class_files_snoc. rewrite map_app in Hnd. cbn [map] in Hnd.
    apply NoDup_app in Hnd as (Hl & Hx & _).
    apply elem_of_app in Hin as [Hin|Hin].
    + rewrite lookup_insert_ne; [now apply IH|].
      intros E. apply (Hx (class_filename tlobject)).
      * now apply (list_elem_of_fmap_2 class_filename).
      * rewrite <- E. now left.
    + apply list_elem_of_singleton in Hin as ->. apply lookup_insert_eq.
Qed.

Lemma plain_schema_of (tlobjects : list TLObject.t) (tlobject : TLObject.t) :
  plain_schema tlobjects = true -> tlobject ∈ tlobjects ->
  plain_part (TLObject.name tlobject) = true
  /\ plain_namespace (TLObject.namespace tlobject) = true.
Proof.
  unfold plain_schema. rewrite forallb_forall. intros H Hin.
  apply list_elem_of_In in Hin. apply H in Hin. now apply andb_prop in Hin.
Qed.

(** X18. For definitions whose names and namespaces hold no slash and
    no dot (a namespace not empty), no two of which are written to one
    file: the module that the registry imports for a definition, if no
    package of a namespace hides it, is the file that holds the class
    of that definition when the loop has ended. *)
Theorem registry_module_holds_class (tlobjects : list TLObject.t) (tlobject : TLObject.t) :
  plain_schema tlobjects = true ->
  NoDup (map class_filename tlobjects) ->
  tlobject ∈ tlobjects ->
  shadowed tlobjects tlobject = false ->
  ("import " +:+ get_full_file_name tlobject) ∈ registry_text tlobjects
  /\ class_files tlobjects !! module_file (get_full_file_name tlobject) = Some tlobject.
Proof.
  intros Hplain Hnd Hin _. destruct (plain_schema_of _ _ Hplain Hin) as (Hn & Hns). split.
  - rewrite registry_text_eq. apply elem_of_app. right. apply elem_of_app. left.
    apply (list_elem_of_fmap_2 (fun t => "import " +:+ get_full_file_name t) _ _ Hin).
  - rewrite class_filename_plain by assumption. now apply class_files_own.
Qed.

(** ** The attributes the write routine reads *)

Lemma uses_block h body : uses (Block h body) = line_uses h ++ flat_map uses body.
Proof. reflexivity. Qed.

Lemma uses_guarded h b body :
  flat_map uses (guarded h b body)
  = (if b then line_uses h else []) ++ flat_map uses body.
Proof.
  destruct b; cbn [guarded flat_map]; [|reflexivity].
  now rewrite uses_block, app_nil_r.
Qed.

(** The names of the flag-gated arguments. *)
Lemma uses_flag_lines all :
  flat_map uses (flag_lines all) = map TLArg.name (List.filter TLArg.is_flag all).
Proof.
  unfold flag_lines. induction all as [|f all IH]; [reflexivity|].
  cbn [flat_map List.filter]. rewrite flat_map_app, IH.
  now destruct (TLArg.is_flag f).
Qed.

Lemma name_in_init_attrs (all : list TLArg.t) (a : TLArg.t) :
  a ∈ all -> TLArg.flag_indicator a = false -> TLArg.generic_definition a = false ->
  TLArg.name a ∈ map TLArg.name (init_attrs all).
Proof.
  intros Ha Hi Hg. apply (list_elem_of_fmap_2 TLArg.name).
  unfold init_attrs. apply list_elem_of_In, List.filter_In.
  split; [now apply list_elem_of_In|]. now rewrite Hi, Hg.
Qed.

Lemma attrs_declared_of (all : list TLArg.t) (a : TLArg.t) :
  attrs_declared all = true -> a ∈ all ->
  (TLArg.is_flag a = true ->
     TLArg.generic_definition a = false /\ TLArg.flag_indicator a = false)
  /\ (TLArg.flag_indicator a = true -> TLArg.is_vector a = false).
Proof.
  unfold attrs_declared. rewrite forallb_forall. intros H Ha.
  apply list_elem_of_In, H in Ha. apply andb_prop in Ha as [H1 H2]. split.
  - intros Hf. rewrite Hf in H1. apply andb_prop in H1 as [Hg Hi].
    now apply negb_true_iff in Hg, Hi.
  - intros Hi. rewrite Hi in H2. now apply negb_true_iff in H2.
Qed.

Lemma flag_names_declared (all : list TLArg.t) :
  attrs_declared all = true ->
  map TLArg.name (List.filter TLArg.is_flag all) ⊆ map TLArg.name (init_attrs all).
Proof.
  intros H x Hx. apply list_elem_of_fmap in Hx as (f & -> & Hf).
  apply list_elem_of_In, List.filter_In in Hf as [Hf Hflag]. apply list_elem_of_In in Hf.
  destruct (attrs_declared_of all f H Hf) as [H1 _].
  destruct (H1 Hflag) as [Hg Hi]. now apply name_in_init_attrs.
Qed.

Lemma uses_send_stmts (all : list TLArg.t) (a : TLArg.t) :
  attrs_declared all = true -> a ∈ all ->
  flat_map uses (send_stmts a all None) ⊆ map TLArg.name (init_attrs all).
Proof.
  intros H Ha. destruct (attrs_declared_of all a H Ha) as [Hflag Hind].
  pose proof (flag_names_declared all H) as Hnames.
  unfold send_stmts. destruct (TLArg.generic_definition a) eqn:Hg.
  { intros x Hx. now apply elem_of_nil in Hx. }
  rewrite uses_guarded. cbn [default_name line_uses name_attr].
  assert (Hself : TLArg.flag_indicator a = false ->
                  [TLArg.name a] ⊆ map TLArg.name (init_attrs all)).
  { intros Hi x Hx. apply list_elem_of_singleton in Hx as ->.
    now apply name_in_init_attrs. }
  assert (Hcore : forall nm, (TLArg.flag_indicator a = false -> name_attr nm ⊆ map TLArg.name (init_attrs all)) ->
            flat_map uses (send_core a all nm) ⊆ map TLArg.name (init_attrs all)).
  { intros nm Hnm. unfold send_core. destruct (TLArg.flag_indicator a) eqn:Hi.
    - rewrite !flat_map_app, uses_flag_lines. cbn [flat_map uses line_uses app].
      now rewrite app_nil_r.
    - destruct (kind_of (TLArg.type a)); cbn [send_elem flat_map uses line_uses];
        rewrite ?app_nil_r; first [now apply Hnm | intros x Hx; now apply elem_of_nil in Hx]. }
  intros x Hx. apply elem_of_app in Hx as [Hx|Hx].
  - destruct (TLArg.is_flag a) eqn:Hf; [|now apply elem_of_nil in Hx].
    destruct (Hflag eq_refl) as [_ Hi]. now apply (Hself Hi).
  - destruct (TLArg.is_vector a) eqn:Hv.
    + assert (Hi : TLArg.flag_indicator a = false).
      { destruct (TLArg.flag_indicator a); [|reflexivity]. now specialize (Hind eq_refl). }
      cbn [flat_map] in Hx. rewrite uses_block, uses_guarded in Hx.
      cbn [uses line_uses name_attr item_name app] in Hx.
      rewrite app_nil_r in Hx.
      apply elem_of_cons in Hx as [->|Hx]; [apply (Hself Hi); now left|].
      apply elem_of_cons in Hx as [->|Hx]; [apply (Hself Hi); now left|].
      assert (Hnil : (if TLArg.is_flag a then @nil string else []) = [])
        by now destruct (TLArg.is_flag a).
      rewrite Hnil in Hx. cbn [app] in Hx.
      revert x Hx. apply Hcore. intros _ y Hy. now apply elem_of_nil in Hy.
    + revert x Hx. apply Hcore. exact Hself.
Qed.

(** X19. When no flag-gated argument is a generic definition or a flag
    indicator and no flag indicator is a vector, every attribute the
    write routine reads is one that [__init__] has assigned: a new
    object has each of them. *)
Theorem on_send_reads_declared {W : Wire} (tlobject : TLObject.t) :
  attrs_declared (TLObject.args tlobject) = true ->
  exists body attrs,
    on_send tlobject = Some body
    /\ instantiate tlobject = Some attrs
    /\ forall x, x ∈ flat_map uses body -> is_Some (attrs !! x).
Proof.
  intros H. destruct (instantiate_eq tlobject) as (g0 & Hg0 & Hattrs).
  exists (on_send_body tlobject), g0. split; [apply on_send_eq|]. split; [exact Hg0|].
  intros x Hx. unfold on_send_body in Hx.
  cbn [flat_map uses line_uses app] in Hx. rewrite flat_map_flat_map in Hx.
  apply list_elem_of_In, in_flat_map in Hx as (a & Ha & Hx).
  apply list_elem_of_In in Ha, Hx.
  apply (uses_send_stmts _ a H Ha) in Hx.
  apply list_elem_of_fmap in Hx as (b & -> & Hb). exists VNone. now apply Hattrs.
Qed.

(** ** Runs of the further properties *)

(** A run of X2: [input_peer]. *)
Lemma get_file_name_lower_case_witness :
  get_file_name input_peer_def false = "input_peer"%string
  /\ get_file_name input_peer_def true = "input_peer.py"%string.
Proof. exact (get_file_name_lower_case input_peer_def eq_refl eq_refl). Defined.

(** A run of X1 and one of X5: [inputPeerEmpty]. *)
Lemma get_file_name_spelling_witness :
  ascii_only (TLObject.name input_peer_empty_def) = true
  /\ get_file_name input_peer_empty_def false = "input_peer_empty"%string
  /\ remove_char "_" (get_file_name input_peer_empty_def false) = "inputpeerempty"%string.
Proof.
  split; [reflexivity|]. split; [reflexivity|].
  exact (proj1 (proj2 (get_file_name_spelling input_peer_empty_def eq_refl))).
Defined.

Lemma get_class_name_spelling_witness :
  ascii_only (TLObject.name input_peer_def) = true
  /\ get_class_name input_peer_def = "InputPeer"%string
  /\ lower (remove_char "_" (get_class_name input_peer_def)) = "inputpeer"%string.
Proof.
  split; [reflexivity|]. split; [reflexivity|].
  exact (proj1 (get_class_name_spelling input_peer_def eq_refl)).
Defined.

(** A run of X4: [inputPeerEmpty]. *)
Lemma get_class_name_capitalises_witness :
  get_class_name input_peer_empty_def = "InputPeerEmpty"%string.
Proof. exact (get_class_name_capitalises input_peer_empty_def eq_refl). Defined.

(** A run of X8: [auth.sendCode] among two definitions. *)
Lemma registry_imports_class_file_witness :
  "import tl.functions.auth.send_code"%string ∈ registry_text [example_def; send_code_def]
  /\ "0xff: tl.functions.auth.send_code.SendCode,"%string
     ∈ registry_text [example_def; send_code_def]
  /\ module_file "tl.functions.auth.send_code" = "tl/functions/auth/send_code.py"%string.
Proof.
  apply (registry_imports_class_file [example_def; send_code_def] send_code_def);
    [|reflexivity|reflexivity].
  apply list_elem_of_In. right. left. reflexivity.
Defined.

(** A run of X14 and one of X15, over the byte-level reader and writer:
    [example] with [n = 5]. *)
Lemma on_send_leaves_object_witness :
  exec_stmts (W := byte_wire) (fun _ => None) (fun _ => None) (on_send_body example_def)
    (PyState (<["n" := VInt 5]> ∅) ∅ [] [])
  = Some (PyState (<["n" := VInt 5]> ∅) (<["flags" := VInt 1]> ∅)
            (le_bytes 4 0x1a2b3c4d ++ le_bytes 4 1 ++ le_bytes 4 5) [])
  /\ exists bs, le_bytes 4 0x1a2b3c4d ++ le_bytes 4 1 ++ le_bytes 4 5 = [] ++ bs.
Proof.
  assert (H : exec_stmts (W := byte_wire) (fun _ => None) (fun _ => None)
                (on_send_body example_def) (PyState (<["n" := VInt 5]> ∅) ∅ [] [])
              = Some (PyState (<["n" := VInt 5]> ∅) (<["flags" := VInt 1]> ∅)
                        (le_bytes 4 0x1a2b3c4d ++ le_bytes 4 1 ++ le_bytes 4 5) []))
    by (vm_compute; reflexivity).
  split; [exact H|].
  exact (proj2 (proj2 (on_send_leaves_object _ _ example_def _ _ _
                         (on_send_eq example_def) H))).
Defined.

Lemma on_response_touches_witness :
  exec_stmts (W := byte_wire) (fun _ => None) (fun _ => None) (on_response_body example_def)
    (PyState (<["n" := VNone]> ∅) ∅ [] (le_bytes 4 1 ++ le_bytes 4 5))
  = Some (PyState (<["n" := VInt 5]> ∅) (<["flags" := VInt 1]> ∅) [] [])
  /\ ("other"%string ∉ response_attrs example_def ->
      (<["n" := VInt 5]> ∅ : gmap string value) !! "other"%string
      = (<["n" := VNone]> ∅ : gmap string value) !! "other"%string).
Proof.
  assert (H : exec_stmts (W := byte_wire) (fun _ => None) (fun _ => None)
                (on_response_body example_def)
                (PyState (<["n" := VNone]> ∅) ∅ [] (le_bytes 4 1 ++ le_bytes 4 5))
              = Some (PyState (<["n" := VInt 5]> ∅) (<["flags" := VInt 1]> ∅) [] []))
    by (vm_compute; reflexivity).
  split; [exact H|].
  exact (proj2 (on_response_touches _ _ example_def _ _ _
                  (on_response_eq example_def) H) "other"%string).
Defined.

(** A run of X16: [tags:flags.0?Vector<int>] holding [[None, 5]]; the
    length that is written is 2, and one element follows. *)
Lemma flag_vector_skips_none_witness :
  exists L',
    exec_stmts (W := byte_wire) (fun _ => None) (fun _ => None)
      (send_stmts tags_arg [flags_arg; tags_arg] None) (PyState tagged_fields ∅ [] [])
    = Some (PyState tagged_fields L'
              ([] ++ le_bytes 4 0x1cb5c415 ++ le_bytes 4 2 ++ List.concat [[]; le_bytes 4 5])
              []).
Proof.
  apply (flag_vector_skips_none (W := byte_wire) (fun _ => None) (fun _ => None)
           tags_arg [flags_arg; tags_arg] tagged_fields [VNone; VInt 5]
           [[]; le_bytes 4 5] (le_bytes 4 0x1cb5c415) (le_bytes 4 2) ∅ [] []
           eq_refl eq_refl eq_refl eq_refl).
  - vm_compute. reflexivity.
  - reflexivity.
  - reflexivity.
  - constructor; [reflexivity|]. constructor; [|constructor].
    intros nm g L w u H. cbn [is_none send_elem kind_of exec_line].
    change (kind_of (TLArg.type tags_arg)) with (KPrim PInt). cbn [send_elem exec_line].
    rewrite H. reflexivity.
Defined.

(** A run of X9 and one of X10. *)
Lemma get_file_name_camel_case_witness :
  get_file_name input_peer_empty_def false = "input_peer_empty"%string.
Proof.
  exact (get_file_name_camel_case input_peer_empty_def "input"
           [("P"%char, "eer"%string); ("E"%char, "mpty"%string)]
           ltac:(discriminate) eq_refl eq_refl eq_refl).
Defined.

Lemma get_class_name_snake_case_witness :
  get_class_name input_peer_def = "InputPeer"%string.
Proof.
  exact (get_class_name_snake_case input_peer_def "input" ["peer"%string] eq_refl eq_refl).
Defined.

(** The bytes of [tagged] with the list [[None, 5]] announce two
    elements and hold one: reading them back runs out of bytes. *)
Example flag_vector_none_unreadable :
  run_write (W := byte_wire) (fun _ => None) (fun _ => None) tagged_def tagged_fields
  = Some (le_bytes 4 1 ++ le_bytes 4 0x1cb5c415 ++ le_bytes 4 2 ++ le_bytes 4 5)
  /\ run_read (W := byte_wire) (fun _ => None) (fun _ => None) tagged_def
       (le_bytes 4 1 ++ le_bytes 4 0x1cb5c415 ++ le_bytes 4 2 ++ le_bytes 4 5)
     = None.
Proof. split; vm_compute; reflexivity. Qed.

(** A run of X17: [auth.sendCode]. *)
Lemma registry_file_apart_witness :
  plain_def send_code_def = true
  /\ class_filename send_code_def = "tl/functions/auth/send_code.py"%string
  /\ init_py send_code_def = "tl/functions/auth/__init__.py"%string
  /\ class_filename send_code_def <> registry_filename.
Proof.
  split; [reflexivity|]. split; [reflexivity|]. split; [reflexivity|].
  exact (proj1 (proj2 (proj2 (proj2 (proj2 (registry_file_apart send_code_def eq_refl)))))).
Defined.

(** A run of X18 and one of X19. *)
Lemma registry_module_holds_class_witness :
  plain_schema [example_def; send_code_def] = true
  /\ "import tl.functions.auth.send_code"%string ∈ registry_text [example_def; send_code_def]
  /\ class_files [example_def; send_code_def] !! "tl/functions/auth/send_code.py"%string
     = Some send_code_def.
Proof.
  split; [reflexivity|].
  apply (registry_module_holds_class [example_def; send_code_def] send_code_def);
    [reflexivity| | |reflexivity].
  - apply (bool_decide_unpack _). vm_compute. exact I.
  - apply list_elem_of_In. right. left. reflexivity.
Defined.

Lemma on_send_reads_declared_witness :
  exists body attrs,
    on_send example_def = Some body
    /\ instantiate (W := byte_wire) example_def = Some attrs
    /\ forall x, x ∈ flat_map uses body -> is_Some (attrs !! x).
Proof. exact (on_send_reads_declared (W := byte_wire) example_def eq_refl). Defined.

(** A flag-gated generic definition: the flags line reads [self.ghost],
    which [__init__] does not assign. *)
Example ghost_attribute :
  attrs_declared (TLObject.args ghost_def) = false
  /\ flat_map uses (on_send_body ghost_def) = ["ghost"%string]
  /\ class_program ghost_def ≫= method_body is_init = Some [Simple LSuperInit].
Proof. repeat split. Qed.
